(** * twitter-transaction-id: the token-derivation pipeline, embedded and verified

    A shallow embedding of [src/cubic.ts], [src/utils.ts], [src/transaction.ts]
    and the two modules [transaction.ts] imports as [./interpolate] and
    [./rotation].

    Conventions of the embedding.
    - A JavaScript [number] is an IEEE-754 binary64 value: Rocq's primitive
      [float], whose operations are the ones the JavaScript engine runs.
      [undefined] flowing into arithmetic or a comparison behaves as [NaN], so
      an out-of-range array read is modelled by [nan].
    - Bytes (a [Buffer], a [Uint8Array]) are integers of [Z] in [0, 256); the
      wrap-around of the [Uint8Array] constructor is written out.
    - Strings are [string]s whose characters are code points below 256.
    - The text a template literal puts for a number ([Number.prototype.toString])
      is a parameter [toText] of the definitions that build the signature.
    - [while] loops take a fuel argument; running out of fuel is the outcome
      [OutOfFuel] (or [None]), so that a loop that never exits is visible.
    - Exceptions are the outcome [Throws]. *)

From Stdlib Require Import Reals Lra Psatz.
From Stdlib Require Import ZArith List Bool Lia Floats Ascii String.
From Stdlib Require Import DecimalString HexadecimalString.
Import ListNotations.

Set Warnings "-inexact-float,-register-all".

Local Open Scope Z_scope.

(* ================================================================== *)
(** * Part I. The embedding *)
(* ================================================================== *)

(** ** Outcomes of a call: a value, an exception, or an exhausted loop budget *)

Inductive JsError : Type :=
| MismatchedInterpolation (fromList toList : list float)
    (* Error(`Mismatched interpolation arguments ${fromList}: ${toList}`) *)
| InvalidFrameData
    (* Error("Invalid frame data") *)
| TypeError.
    (* a property read on undefined *)

Inductive outcome (A : Type) : Type :=
| Returns (a : A)
| Throws (e : JsError)
| OutOfFuel.

Arguments Returns {A} a.
Arguments Throws {A} e.
Arguments OutOfFuel {A}.

Definition bind {A B : Type} (m : outcome A) (k : A -> outcome B) : outcome B :=
  match m with
  | Returns a => k a
  | Throws e => Throws e
  | OutOfFuel => OutOfFuel
  end.

Notation "x <- m ;; k" := (bind m (fun x => k))
  (at level 61, m at next level, right associativity).

Definition of_option {A : Type} (o : option A) : outcome A :=
  match o with
  | Some a => Returns a
  | None => OutOfFuel
  end.

(** ** JavaScript numbers *)

Module Js.

Definition number : Type := float.

(** The Number nearest to an integer (round to nearest, ties to even): what an
    integer literal, [parseInt] on a digit string, or a byte read from an array
    denotes. *)
Definition num_of_Z (z : Z) : number :=
  SF2Prim (binary_normalize prec emax z 0 false).

(** [Math.floor]: the largest integer not above [x]; zeros, infinities and NaN
    are returned as they are.  A finite [x] is [(+/-) m * 2^e]; with [e >= 0] it
    is an integer already. *)
Definition Math_floor (x : number) : number :=
  match Prim2SF x with
  | S754_finite s m e =>
      if 0 <=? e then x
      else
        let z := (if s then Zneg m else Zpos m) / 2 ^ (- e) in
        if z =? 0 then PrimFloat.zero else num_of_Z z
  | _ => x
  end.


(** [Math.round]: the integer nearest to [x], ties toward +Infinity;
    [-0] for [x] in [[-0.5, 0)]. *)
Definition Math_round (x : number) : number :=
  match Prim2SF x with
  | S754_finite s m e =>
      if 0 <=? e then x
      else
        let z := (2 * (if s then Zneg m else Zpos m) + 2 ^ (- e)) / 2 ^ (- e + 1) in
        if z =? 0 then (if s then PrimFloat.neg_zero else PrimFloat.zero) else num_of_Z z
  | _ => x
  end.

Definition Math_abs (x : number) : number := abs x.

(** [arr[i]] on an array of numbers, where [undefined] is read as [NaN]. *)
Definition index (arr : list number) (i : nat) : number := nth i arr nan.

(** [arr[k]] for an integer [k]; [undefined] is [None]. *)
Definition element_at {A : Type} (arr : list A) (k : Z) : option A :=
  if k <? 0 then None else nth_error arr (Z.to_nat k).

(** [Array.prototype.map] with the element's index as second argument. *)
Fixpoint mapi_from {A B : Type} (counter : nat) (f : A -> nat -> B) (l : list A) : list B :=
  match l with
  | [] => []
  | item :: rest => f item counter :: mapi_from (S counter) f rest
  end.

Definition mapi {A B : Type} (f : A -> nat -> B) (l : list A) : list B :=
  mapi_from 0 f l.

(** [arr.slice(start, end)] and [arr.slice(start)] for non-negative bounds. *)
Definition slice {A : Type} (start end_ : nat) (l : list A) : list A :=
  firstn (end_ - start) (skipn start l).

Definition slice_from {A : Type} (start : nat) (l : list A) : list A :=
  skipn start l.

(** [x == y] on arrays of numbers, element by element. *)
Fixpoint all_eqb (xs ys : list number) : bool :=
  match xs, ys with
  | [], [] => true
  | x :: xs', y :: ys' => (x =? y)%float && all_eqb xs' ys'
  | _, _ => false
  end.

End Js.

Import Js.

(** ** src/cubic.ts *)

Module Cubic.

Local Open Scope float_scope.

(** [Cubic.calculate(a, b, m)] *)
Definition calculate (a b m : number) : number :=
  3.0 * a * (1 - m) * (1 - m) * m + 3.0 * b * (1 - m) * m * m + m * m * m.

(** The state of the binary search: [start], [mid], [end]. *)
Record search_state : Type := mkState { start : number; mid : number; end_ : number }.

Inductive step_result : Type :=
| Found (value : number)        (* [return] inside the loop *)
| Exited (value : number)       (* the loop guard failed; [return] after the loop *)
| Continue (s : search_state).  (* one more iteration *)

(** One evaluation of the guard [start < end] and, if it holds, of the body. *)
Definition search_step (curves : list number) (time : number) (s : search_state) : step_result :=
  if start s <? end_ s then
    let mid := (start s + end_ s) / 2 in
    let xEst := calculate (index curves 0) (index curves 2) mid in
    if Math_abs (time - xEst) <? 0.00001 then
      Found (calculate (index curves 1) (index curves 3) mid)
    else if xEst <? time then Continue (mkState mid mid (end_ s))
    else Continue (mkState (start s) mid mid)
  else Exited (calculate (index curves 1) (index curves 3) (mid s)).

(** The [while] loop, with a bound on the number of guard evaluations. *)
Fixpoint search (fuel : nat) (curves : list number) (time : number) (s : search_state)
  : option number :=
  match fuel with
  | O => None
  | S fuel' =>
      match search_step curves time s with
      | Found v => Some v
      | Exited v => Some v
      | Continue s' => search fuel' curves time s'
      end
  end.

Definition startGradient (curves : list number) : number :=
  if 0.0 <? index curves 0 then index curves 1 / index curves 0
  else if (index curves 1 =? 0.0) && (0.0 <? index curves 2) then
    index curves 3 / index curves 2
  else 0.

Definition endGradient (curves : list number) : number :=
  if index curves 2 <? 1.0 then (index curves 3 - 1.0) / (index curves 2 - 1.0)
  else if (index curves 2 =? 1.0) && (index curves 0 <? 1.0) then
    (index curves 1 - 1.0) / (index curves 0 - 1.0)
  else 0.

(** [Cubic.getValue(time)] of [new Cubic(curves)]. *)
Definition getValue (fuel : nat) (curves : list number) (time : number) : option number :=
  if time <=? 0.0 then Some (startGradient curves * time)
  else if 1.0 <=? time then Some (1.0 + endGradient curves * (time - 1.0))
  else search fuel curves time (mkState 0.0 0.0 1.0).

(** The start gradient as the specification words it:
    [c1/c0] if [c0 > 0]; else [c3/c2] if [c0 == 0] and [c2 > 0]; else [0]. *)
Definition startGradient_spec (curves : list number) : number :=
  if 0.0 <? index curves 0 then index curves 1 / index curves 0
  else if (index curves 0 =? 0.0) && (0.0 <? index curves 2) then
    index curves 3 / index curves 2
  else 0.

End Cubic.

(** ** The module [./interpolate] *)

Module Interpolate.

Local Open Scope float_scope.

(** [interpolateNum(fromVal, toVal, f)] on two numbers, which is what
    [interpolate] passes it from its [number[]] arguments. *)
Definition interpolateNum (fromVal toVal f : number) : number :=
  fromVal * (1 - f) + toVal * f.

(** The loop [for (let i = 0; i < fromList.length; i++)
      out.push(interpolateNum(fromList[i], toList[i], f))]. *)
Definition blend (fromList toList : list number) (f : number) : list number :=
  map (fun i => interpolateNum (index fromList i) (index toList i) f)
      (seq 0 (List.length fromList)).

(** [interpolate(fromList, toList, f)] *)
Definition interpolate (fromList toList : list number) (f : number) : outcome (list number) :=
  if negb (Nat.eqb (List.length fromList) (List.length toList)) then
    Throws (MismatchedInterpolation fromList toList)
  else Returns (blend fromList toList f).

End Interpolate.

(** ** Strings: the [String.prototype] methods the pipeline calls *)

Module Str.

Local Open Scope string_scope.

Definition is_digit (c : ascii) : bool :=
  let n := nat_of_ascii c in (48 <=? n)%nat && (n <=? 57)%nat.

(** White space among the code points below 256: TAB, LF, VT, FF, CR, SP, NBSP. *)
Definition is_space (c : ascii) : bool :=
  let n := nat_of_ascii c in
  ((9 <=? n)%nat && (n <=? 13)%nat) || (n =? 32)%nat || (n =? 160)%nat.

(** [s.substring(n)] *)
Fixpoint substring_from (n : nat) (s : string) : string :=
  match n, s with
  | O, _ => s
  | S n', EmptyString => EmptyString
  | S n', String _ rest => substring_from n' rest
  end.

(** [s.split(sep)] for a one-character separator. *)
Fixpoint split (sep : ascii) (s : string) : list string :=
  match s with
  | EmptyString => [EmptyString]
  | String c rest =>
      if Ascii.eqb c sep then EmptyString :: split sep rest
      else
        match split sep rest with
        | piece :: pieces => String c piece :: pieces
        | [] => [String c EmptyString]
        end
  end.

(** [s.replace(/[^\d]+/g, " ")]: [in_run] says the previous character was not a
    digit, so that a run of non-digits gives one space. *)
Fixpoint replace_non_digits (in_run : bool) (s : string) : string :=
  match s with
  | EmptyString => EmptyString
  | String c rest =>
      if is_digit c then String c (replace_non_digits false rest)
      else if in_run then replace_non_digits true rest
      else String " " (replace_non_digits true rest)
  end.

Fixpoint trimStart (s : string) : string :=
  match s with
  | EmptyString => EmptyString
  | String c rest => if is_space c then trimStart rest else s
  end.

Fixpoint trimEnd (s : string) : string :=
  match s with
  | EmptyString => EmptyString
  | String c rest =>
      match trimEnd rest with
      | EmptyString => if is_space c then EmptyString else String c EmptyString
      | rest' => String c rest'
      end
  end.

(** [s.trim()] *)
Definition trim (s : string) : string := trimEnd (trimStart s).

(** [s.split(/\s+/)]: [prev_space] says the previous character was white space. *)
Fixpoint split_spaces (prev_space : bool) (s : string) : list string :=
  match s with
  | EmptyString => [EmptyString]
  | String c rest =>
      if is_space c then
        if prev_space then split_spaces true rest
        else EmptyString :: split_spaces true rest
      else
        match split_spaces false rest with
        | piece :: pieces => String c piece :: pieces
        | [] => [String c EmptyString]
        end
  end.

(** The value of the longest prefix of decimal digits, and whether it is non-empty. *)
Fixpoint digits_value (acc : Z) (seen : bool) (s : string) : Z * bool :=
  match s with
  | EmptyString => (acc, seen)
  | String c rest =>
      if is_digit c then digits_value (10 * acc + (Z.of_nat (nat_of_ascii c) - 48)) true rest
      else (acc, seen)
  end.

(** [parseInt(s, 10)]: leading white space, an optional sign, then digits;
    [NaN] when there is no digit. *)
Definition parseInt (s : string) : number :=
  let s := trimStart s in
  let '(negative, body) :=
    match s with
    | String "-" rest => (true, rest)
    | String "+" rest => (false, rest)
    | _ => (false, s)
    end in
  let '(v, seen) := digits_value 0 false body in
  if negb seen then nan
  else if negative then (if (v =? 0)%Z then PrimFloat.neg_zero else num_of_Z (- v))
  else num_of_Z v.

(** [s.startsWith(".")] *)
Definition startsWith_dot (s : string) : bool :=
  match s with
  | String "." _ => true
  | _ => false
  end.

Definition lower_char (c : ascii) : ascii :=
  let n := nat_of_ascii c in
  if (65 <=? n)%nat && (n <=? 90)%nat then ascii_of_nat (n + 32) else c.

(** [s.toLowerCase()] on ASCII letters. *)
Fixpoint toLowerCase (s : string) : string :=
  match s with
  | EmptyString => EmptyString
  | String c rest => String (lower_char c) (toLowerCase rest)
  end.

(** [s.replace(/[.-]/g, "")] *)
Fixpoint remove_dots_dashes (s : string) : string :=
  match s with
  | EmptyString => EmptyString
  | String c rest =>
      if Ascii.eqb c "." || Ascii.eqb c "-" then remove_dots_dashes rest
      else String c (remove_dots_dashes rest)
  end.

(** [arr.join("")] *)
Definition join (pieces : list string) : string := String.concat "" pieces.

(** The integer a number denotes, for an integer-valued (or zero) number. *)
Definition integer_value (x : number) : Z :=
  match Prim2SF x with
  | S754_finite s m e =>
      let v := if (0 <=? e)%Z then Zpos m * 2 ^ e else Zpos m / 2 ^ (- e) in
      if s then - v else v
  | _ => 0
  end.

(** [x.toString()] for an integer-valued [x] (below 1e21 in magnitude), an
    infinity or NaN. *)
Definition toString (x : number) : string :=
  match Prim2SF x with
  | S754_nan => "NaN"
  | S754_infinity s => if s then "-Infinity" else "Infinity"
  | _ => DecimalString.NilZero.string_of_int (Z.to_int (integer_value x))
  end.

(** [x.toString(16)] for an integer-valued [x], an infinity or NaN. *)
Definition toString16 (x : number) : string :=
  match Prim2SF x with
  | S754_nan => "NaN"
  | S754_infinity s => if s then "-Infinity" else "Infinity"
  | _ => HexadecimalString.NilZero.string_of_int (Z.to_hex_int (integer_value x))
  end.

(** [String.fromCharCode(x)] for an integer-valued [x] in [0, 256). *)
Definition fromCharCode (x : number) : string :=
  String (ascii_of_nat (Z.to_nat (integer_value x))) EmptyString.

End Str.

(** ** src/utils.ts *)

Module Utils.

Local Open Scope float_scope.

(** [isOdd(num)] for an integer [num]: [-1.0] if [num % 2] is non-zero. *)
Definition isOdd (num : Z) : number :=
  if negb (Z.rem num 2 =? 0)%Z then -1.0 else 0.0.

Definition hex_digit (d : number) : string :=
  if 9 <? d then Str.fromCharCode (d + 55) else Str.toString d.

(** The first loop of [floatToHex]: the integer part, most significant digit
    first.  The state is [x], [quotient] and [result]. *)
Fixpoint integer_digits (fuel : nat) (x quotient : number) (result : list string)
  : option (list string) :=
  match fuel with
  | O => None
  | S fuel' =>
      if 0 <? quotient then
        let quotient := Math_floor (x / 16) in
        let remainder := Math_floor (x - quotient * 16) in
        integer_digits fuel' quotient quotient (hex_digit remainder :: result)
      else Some result
  end.

(** The second loop of [floatToHex]: the digits after the point, in order. *)
Fixpoint fraction_digits (fuel : nat) (fraction : number) : option (list string) :=
  match fuel with
  | O => None
  | S fuel' =>
      if 0 <? fraction then
        let fraction := fraction * 16 in
        let integer := Math_floor fraction in
        let fraction := fraction - integer in
        option_map (cons (hex_digit integer)) (fraction_digits fuel' fraction)
      else Some []
  end.

(** [floatToHex(x)] *)
Definition floatToHex (fuel : nat) (x : number) : option string :=
  let quotient := Math_floor x in
  let fraction := x - quotient in
  match integer_digits fuel x quotient [] with
  | None => None
  | Some result =>
      if fraction =? 0 then Some (Str.join result)
      else
        match fraction_digits fuel fraction with
        | None => None
        | Some digits => Some (Str.join (result ++ ["."%string] ++ digits))
        end
  end.

End Utils.

(** ** The document: the part of the DOM the pipeline queries *)

Module Dom.

(** An element: its attributes (name, value) and its child elements. *)
Inductive Element : Type :=
| mkElement (attributes : list (string * string)) (children : list Element).

Definition attributes (e : Element) : list (string * string) :=
  match e with mkElement a _ => a end.

Definition children (e : Element) : list Element :=
  match e with mkElement _ c => c end.

(** [element.getAttribute(name)]; [null] is [None]. *)
Fixpoint lookup (name : string) (attrs : list (string * string)) : option string :=
  match attrs with
  | [] => None
  | (n, v) :: rest => if String.eqb n name then Some v else lookup name rest
  end.

Definition getAttribute (e : Element) (name : string) : option string :=
  lookup name (attributes e).

(** The elements of a tree, in document order. *)
Fixpoint elements (e : Element) : list Element :=
  match e with
  | mkElement _ cs =>
      e :: (fix all (l : list Element) : list Element :=
              match l with
              | [] => []
              | c :: l' => elements c ++ all l'
              end) cs
  end.

(** A document is its root element. *)
Definition Document : Type := Element.

(** [document.querySelectorAll("[id^='" + prefix + "']")] *)
Definition querySelectorAll_id_prefix (prefix : string) (doc : Document) : list Element :=
  filter (fun e => match getAttribute e "id" with
                   | Some v => String.prefix prefix v
                   | None => false
                   end)
         (elements doc).

End Dom.

(** ** The runtime's base64 codec: [Buffer.from(s, 'base64')] and
    [buffer.toString('base64')] *)

Module Base64.

Local Open Scope string_scope.

Definition alphabet : string :=
  "ABCDEFGHIJKLMNOPQRSTUVWXYZabcdefghijklmnopqrstuvwxyz0123456789+/".

(** The character of a 6-bit value. *)
Definition b64char (v : Z) : ascii :=
  match String.get (Z.to_nat v) alphabet with
  | Some c => c
  | None => "="%char
  end.

(** The 6-bit value of a character; the decoder also reads the URL-safe
    characters [-] and [_]. *)
Definition unbase64 (c : ascii) : option Z :=
  let n := Z.of_nat (nat_of_ascii c) in
  if (65 <=? n)%Z && (n <=? 90)%Z then Some (n - 65)%Z
  else if (97 <=? n)%Z && (n <=? 122)%Z then Some (n - 71)%Z
  else if (48 <=? n)%Z && (n <=? 57)%Z then Some (n + 4)%Z
  else if (n =? 43)%Z || (n =? 45)%Z then Some 62%Z
  else if (n =? 47)%Z || (n =? 95)%Z then Some 63%Z
  else None.

(** [Buffer.from(bytes).toString('base64')]: three bytes give four characters;
    a last group of one or two bytes is padded with [=]. *)
Fixpoint encode (bytes : list Z) : string :=
  match bytes with
  | [] => ""
  | [a] =>
      String (b64char (a / 4)) (String (b64char ((a mod 4) * 16)) "==")
  | [a; b] =>
      String (b64char (a / 4))
        (String (b64char ((a mod 4) * 16 + b / 16))
           (String (b64char ((b mod 16) * 4)) "="))
  | a :: b :: c :: rest =>
      String (b64char (a / 4))
        (String (b64char ((a mod 4) * 16 + b / 16))
           (String (b64char ((b mod 16) * 4 + c / 64))
              (String (b64char (c mod 64)) (encode rest))))
  end.

(** The position inside a group of four characters. *)
Inductive phase : Type := P0 | P1 | P2 | P3.

(** [Buffer.from(s, 'base64')]: characters outside the alphabet are skipped,
    decoding stops at the first [=], and an unpadded last group is accepted.
    [hi] is the 6-bit value read before the current one. *)
Fixpoint decode_from (ph : phase) (hi : Z) (s : string) : list Z :=
  match s with
  | EmptyString => []
  | String c rest =>
      if Ascii.eqb c "=" then []
      else
        match unbase64 c with
        | None => decode_from ph hi rest
        | Some lo =>
            match ph with
            | P0 => decode_from P1 lo rest
            | P1 => ((hi mod 64) * 4 + lo / 16)%Z :: decode_from P2 lo rest
            | P2 => ((hi mod 16) * 16 + lo / 4)%Z :: decode_from P3 lo rest
            | P3 => ((hi mod 4) * 64 + lo)%Z :: decode_from P0 lo rest
            end
        end
  end.

Definition decode (s : string) : list Z := decode_from P0 0 s.

(** [s.replace(/=/g, "")] *)
Fixpoint strip_padding (s : string) : string :=
  match s with
  | EmptyString => EmptyString
  | String c rest =>
      if Ascii.eqb c "=" then strip_padding rest else String c (strip_padding rest)
  end.

(** The padding put back: [=] until the length is a multiple of four. *)
Definition repad (s : string) : string :=
  match (String.length s mod 4)%nat with
  | 2%nat => s ++ "=="
  | 3%nat => s ++ "="
  | _ => s
  end.

End Base64.

(** ** The runtime's SHA-256 (FIPS 180-4): [crypto.subtle.digest("SHA-256", _)] *)

Module Sha256.

Definition w32 (x : Z) : Z := x mod 2 ^ 32.

Definition rotr (n x : Z) : Z :=
  w32 (Z.lor (Z.shiftr x n) (Z.shiftl x (32 - n))).

Definition Ch (x y z : Z) : Z :=
  Z.lxor (Z.land x y) (Z.land (Z.lxor x 4294967295) z).

Definition Maj (x y z : Z) : Z :=
  Z.lxor (Z.lxor (Z.land x y) (Z.land x z)) (Z.land y z).

Definition Sigma0 (x : Z) : Z := Z.lxor (Z.lxor (rotr 2 x) (rotr 13 x)) (rotr 22 x).
Definition Sigma1 (x : Z) : Z := Z.lxor (Z.lxor (rotr 6 x) (rotr 11 x)) (rotr 25 x).
Definition sigma0 (x : Z) : Z := Z.lxor (Z.lxor (rotr 7 x) (rotr 18 x)) (Z.shiftr x 3).
Definition sigma1 (x : Z) : Z := Z.lxor (Z.lxor (rotr 17 x) (rotr 19 x)) (Z.shiftr x 10).

(** The first [n] primes above 1, by trial division. *)
Definition is_prime (n : nat) : bool :=
  forallb (fun d => negb (n mod d =? 0)%nat) (seq 2 (n - 2)).

Definition primes (n : nat) : list Z :=
  map Z.of_nat (firstn n (filter is_prime (seq 2 400))).

(** The integer cube root, found bit by bit from bit [k - 1] down. *)
Fixpoint cube_root_bits (k : nat) (n r : Z) : Z :=
  match k with
  | O => r
  | S k' =>
      let r' := r + 2 ^ Z.of_nat k' in
      cube_root_bits k' n (if r' * r' * r' <=? n then r' else r)
  end.

(** The round constants: the first 32 bits of the fractional parts of the
    cube roots of the first 64 primes. *)
Definition K : list Z :=
  Eval vm_compute in map (fun p => w32 (cube_root_bits 40 (p * 2 ^ 96) 0)) (primes 64).

(** The eight working variables. *)
Definition state : Type := (Z * Z * Z * Z * Z * Z * Z * Z)%type.

(** The initial hash value: the first 32 bits of the fractional parts of the
    square roots of the first 8 primes. *)
Definition H0 : state :=
  Eval vm_compute in
    match map (fun p => w32 (Z.sqrt (p * 2 ^ 64))) (primes 8) with
    | [a; b; c; d; e; f; g; h] => (a, b, c, d, e, f, g, h)
    | _ => (0, 0, 0, 0, 0, 0, 0, 0)
    end.

(** The message with its padding: a [1] bit, zeros, and the length in bits as
    a 64-bit big-endian integer. *)
Definition be_bytes (n : nat) (x : Z) : list Z :=
  map (fun i => (x / 2 ^ (8 * Z.of_nat i)) mod 256) (rev (seq 0 n)).

Definition pad (msg : list Z) : list Z :=
  let len := Z.of_nat (List.length msg) in
  msg ++ [128] ++ repeat 0 (Z.to_nat ((55 - len) mod 64)) ++ be_bytes 8 (8 * len).

(** Big-endian 32-bit words of a byte sequence. *)
Fixpoint words (bytes : list Z) : list Z :=
  match bytes with
  | a :: b :: c :: d :: rest =>
      (a * 16777216 + b * 65536 + c * 256 + d) :: words rest
  | _ => []
  end.

(** The 64-byte blocks of a byte sequence, at most [n] of them. *)
Fixpoint blocks (n : nat) (bytes : list Z) : list (list Z) :=
  match n with
  | O => []
  | S n' =>
      match bytes with
      | [] => []
      | _ => firstn 64 bytes :: blocks n' (skipn 64 bytes)
      end
  end.

(** The message schedule: [n] more words after those of [w]. *)
Fixpoint schedule (n : nat) (w : list Z) : list Z :=
  match n with
  | O => w
  | S n' =>
      let t := List.length w in
      let wt := w32 (sigma1 (nth (t - 2) w 0) + nth (t - 7) w 0
                     + sigma0 (nth (t - 15) w 0) + nth (t - 16) w 0) in
      schedule n' (w ++ [wt])
  end.

Definition round (s : state) (kw : Z * Z) : state :=
  let '(a, b, c, d, e, f, g, h) := s in
  let '(k, w) := kw in
  let t1 := w32 (h + Sigma1 e + Ch e f g + k + w) in
  let t2 := w32 (Sigma0 a + Maj a b c) in
  (w32 (t1 + t2), a, b, c, w32 (d + t1), e, f, g).

Definition compress (h : state) (block : list Z) : state :=
  let w := schedule 48 (words block) in
  let '(a, b, c, d, e, f, g, h') := fold_left round (combine K w) h in
  let '(a0, b0, c0, d0, e0, f0, g0, h0) := h in
  (w32 (a0 + a), w32 (b0 + b), w32 (c0 + c), w32 (d0 + d),
   w32 (e0 + e), w32 (f0 + f), w32 (g0 + g), w32 (h0 + h')).

Definition digest_bytes (s : state) : list Z :=
  let '(a, b, c, d, e, f, g, h) := s in
  be_bytes 4 a ++ be_bytes 4 b ++ be_bytes 4 c ++ be_bytes 4 d ++
  be_bytes 4 e ++ be_bytes 4 f ++ be_bytes 4 g ++ be_bytes 4 h.

(** The 32 bytes of the digest of a byte sequence. *)
Definition digest (msg : list Z) : list Z :=
  let padded := pad msg in
  digest_bytes (fold_left compress (blocks (List.length padded) padded) H0).

End Sha256.

(** ** The module [./rotation] and src/transaction.ts: the animation key *)

Module Transaction.

Local Open Scope float_scope.

(** [solve(value, minVal, maxVal, rounding)] *)
Definition solve (value minVal maxVal : number) (rounding : bool) : number :=
  let result := (value * (maxVal - minVal)) / 255 + minVal in
  if rounding then Math_floor result else Math_round (result * 100) / 100.


(** [const curves = frames.slice(7).map((item, counter) =>
      solve(item, isOdd(counter), 1.0, false))] in [animate]. *)
Definition curvesOf (frames : list number) : list number :=
  mapi (fun item counter => solve item (Utils.isOdd (Z.of_nat counter)) 1.0 false)
       (slice_from 7 frames).

(** [getFrames(response)] *)
Definition getFrames (response : Dom.Document) : list Dom.Element :=
  Dom.querySelectorAll_id_prefix "loading-x-anim" response.

(** One segment of the path data: its runs of digits, as numbers. *)
Definition parse_segment (item : string) : list number :=
  let cleaned := Str.trim (Str.replace_non_digits false item) in
  let parts := if String.eqb cleaned "" then [] else Str.split_spaces false cleaned in
  map Str.parseInt parts.

(** [get2dArray(keyBytes, response)] *)
Definition get2dArray (keyBytes : list Z) (response : Dom.Document)
  : outcome (list (list number)) :=
  let frames := getFrames response in
  if (List.length frames =? 0)%nat then Returns [[]]
  else
    match nth_error keyBytes 5 with
    | None => Throws TypeError            (* frames[NaN] is undefined *)
    | Some b =>
        match element_at frames (Z.rem b 4) with
        | None => Throws TypeError
        | Some frame =>
            match nth_error (Dom.children frame) 0 with
            | None => Throws TypeError
            | Some firstChild =>
                match nth_error (Dom.children firstChild) 1 with
                | None => Throws TypeError
                | Some targetChild =>
                    match Dom.getAttribute targetChild "d" with
                    | None => Returns []
                    | Some dAttr =>
                        let items := Str.split "C" (Str.substring_from 9 dAttr) in
                        Returns (map parse_segment items)
                    end
                end
            end
        end
    end.

Section Animate.

(** [Math.cos] and [Math.sin] are implementation-approximated functions of the
    JavaScript engine. *)
Variable Math_cos Math_sin : number -> number.

Definition Math_PI : number := 3.141592653589793.

(** [convertRotationToMatrix(rotation)] *)
Definition convertRotationToMatrix (rotation : number) : list number :=
  let rad := (rotation * Math_PI) / 180 in
  [Math_cos rad; - Math_sin rad; Math_sin rad; Math_cos rad].

(** The body of [for (const value of matrix)] in [animate]: the text pushed. *)
Definition matrix_piece (fuel : nat) (value : number) : option string :=
  let rounded := Math_round (value * 100) / 100 in
  let rounded := if rounded <? 0 then - rounded else rounded in
  match Utils.floatToHex fuel rounded with
  | None => None
  | Some hexValue =>
      Some (if Str.startsWith_dot hexValue then Str.toLowerCase (String "0" hexValue)
            else if String.eqb hexValue "" then "0"%string else hexValue)
  end.

Fixpoint matrix_pieces (fuel : nat) (matrix : list number) : option (list string) :=
  match matrix with
  | [] => Some []
  | value :: rest =>
      match matrix_piece fuel value, matrix_pieces fuel rest with
      | Some piece, Some pieces => Some (piece :: pieces)
      | _, _ => None
      end
  end.

(** [animate(frames, targetTime)] *)
Definition animate (fuel : nat) (frames : list number) (targetTime : number)
  : outcome string :=
  let fromColor := slice 0 3 frames ++ [1] in
  let toColor := slice 3 6 frames ++ [1] in
  let fromRotation := [0.0] in
  let toRotation := [solve (index frames 6) 60.0 360.0 true] in
  let curves := curvesOf frames in
  val <- of_option (Cubic.getValue fuel curves targetTime) ;;
  color <- Interpolate.interpolate fromColor toColor val ;;
  let color := map (fun value => if 0 <? value then value else 0) color in
  rotation <- Interpolate.interpolate fromRotation toRotation val ;;
  let matrix := convertRotationToMatrix (index rotation 0) in
  let strArr :=
    map (fun value => Str.toString16 (Math_round value)) (removelast color) in
  pieces <- of_option (matrix_pieces fuel matrix) ;;
  let strArr := strArr ++ pieces ++ ["0"%string; "0"%string] in
  Returns (Str.remove_dots_dashes (Str.join strArr)).

(** [keyBytes[num] % 16] as a number; [NaN] when the index is out of range. *)
Definition keyByte_mod16 (keyBytes : list Z) (num : nat) : number :=
  match nth_error keyBytes num with
  | Some b => num_of_Z (Z.rem b 16)
  | None => nan
  end.

(** [getAnimationKey(keyBytes, response, rowIndex, keyByteIndices)] *)
Definition getAnimationKey (fuel : nat) (keyBytes : list Z) (response : Dom.Document)
    (rowIndex : nat) (keyByteIndices : list nat) : outcome string :=
  let totalTime := 4096 in
  let rowIndexValue := option_map (fun b => Z.rem b 16) (nth_error keyBytes rowIndex) in
  let frameTime :=
    fold_left (fun num1 num2 => num1 * keyByte_mod16 keyBytes num2) keyByteIndices 1 in
  let frameTime := Math_round (frameTime / 10) * 10 in
  arr <- get2dArray keyBytes response ;;
  match rowIndexValue with
  | None => Throws InvalidFrameData       (* arr[NaN] is undefined *)
  | Some k =>
      match element_at arr k with
      | None => Throws InvalidFrameData
      | Some frameRow =>
          let targetTime := frameTime / totalTime in
          animate fuel frameRow targetTime
      end
  end.

End Animate.

(** *** The transaction id *)

Definition ADDITIONAL_RANDOM_NUMBER : Z := 3.
Definition DEFAULT_KEYWORD : string := "obfiowerehiring".

(** [decodeBase64], [encodeBase64] and [getKeyBytes] *)
Definition decodeBase64 (input : string) : list Z := Base64.decode input.
Definition encodeBase64 (input : list Z) : string := Base64.encode input.
Definition getKeyBytes (key : string) : list Z := decodeBase64 key.

(** [ToInt32], applied by [&] and [>>] to their operands. *)
Definition toInt32 (x : Z) : Z := ((x + 2 ^ 31) mod 2 ^ 32 - 2 ^ 31)%Z.

(** [new TextEncoder().encode(data)]: UTF-8 of code points below 256. *)
Fixpoint utf8 (data : string) : list Z :=
  match data with
  | EmptyString => []
  | String c rest =>
      let n := Z.of_nat (nat_of_ascii c) in
      if (n <? 128)%Z then n :: utf8 rest
      else (192 + n / 64)%Z :: (128 + n mod 64)%Z :: utf8 rest
  end.

(** The decimal digits of an integer: what [`${timeNow}`] prints for a
    timestamp below [2^53] in magnitude.  Beyond, the template literal prints
    the digits of the double, and from [1e21] on in exponent notation, so the
    printing is a parameter [toText] of the definitions below; the examples
    instantiate it with [decimal]. *)
Definition decimal (timeNow : Z) : string :=
  DecimalString.NilZero.string_of_int (Z.to_int timeNow).

(** [timeNow || Math.floor((Date.now() - 1682924400 * 1000) / 1000)]:
    [timeNow] is the optional argument, [now] is what [Date.now()] returns. *)
Definition default_time (now : Z) : Z := ((now - 1682924400 * 1000) / 1000)%Z.

Definition effective_time (timeNow : option Z) (now : Z) : Z :=
  match timeNow with
  | Some t => if (t =? 0)%Z then default_time now else t
  | None => default_time now
  end.

Definition timeNowBytes (timeNow : Z) : list Z :=
  [ Z.land (toInt32 timeNow) 255;
    Z.land (Z.shiftr (toInt32 timeNow) 8) 255;
    Z.land (Z.shiftr (toInt32 timeNow) 16) 255;
    Z.land (Z.shiftr (toInt32 timeNow) 24) 255 ].

(** [`${method}!${path}!${timeNow}${DEFAULT_KEYWORD}${animationKey}`];
    [toText timeNow] is the text the template literal puts for the number
    [timeNow]. *)
Definition signature (toText : Z -> string) (method path : string) (timeNow : Z)
    (animationKey : string) : string :=
  (method ++ "!" ++ path ++ "!" ++ toText timeNow ++ DEFAULT_KEYWORD ++ animationKey)%string.

(** [bytesArr]: the bytes that are masked. *)
Definition bytesArr (toText : Z -> string) (method path key animationKey : string)
    (timeNow : Z) : list Z :=
  getKeyBytes key ++ timeNowBytes timeNow
    ++ slice 0 16 (Sha256.digest (utf8 (signature toText method path timeNow animationKey)))
    ++ [ADDITIONAL_RANDOM_NUMBER].

(** [new Uint8Array(values)]: each value is reduced modulo 256. *)
Definition Uint8Array (values : list Z) : list Z := map (fun v => v mod 256)%Z values.

(** [out] in [generateTransactionId]: the bytes that are base64-encoded.
    [randomNum] is [Math.floor(Math.random() * 256)]. *)
Definition out (toText : Z -> string) (method path key animationKey : string)
    (timeNow : option Z) (now randomNum : Z) : list Z :=
  let timeNow := effective_time timeNow now in
  Uint8Array
    (randomNum :: map (fun item => Z.lxor item randomNum)
                      (bytesArr toText method path key animationKey timeNow)).

(** [generateTransactionId(method, path, key, animationKey, timeNow?)] *)
Definition generateTransactionId (toText : Z -> string)
    (method path key animationKey : string) (timeNow : option Z) (now randomNum : Z)
  : string :=
  Base64.strip_padding
    (encodeBase64 (out toText method path key animationKey timeNow now randomNum)).

(** A decoded token with its mask taken off: every byte after the first,
    XORed with the first. *)
Definition unmask (bytes : list Z) : list Z :=
  match bytes with
  | [] => []
  | mask :: rest => map (fun b => Z.lxor b mask) rest
  end.

End Transaction.

(** ** src/transaction.ts: the session, [getIndices], [getKey] and [create] *)

Module Session.

Local Open Scope string_scope.

(** The errors [create] can end with. *)
Inductive SessionError : Type :=
| KeyByteIndicesError
    (* Error("Couldn't get KEY_BYTE indices") *)
| KeyError
    (* Error("Couldn't get key from the page source") *)
| FailedToGetKey
    (* Error("Failed to get key") *)
| AnimationError (e : JsError).
    (* what [getAnimationKey] throws *)

Inductive result (A : Type) : Type :=
| Ok (a : A)
| Err (e : SessionError)
| Unfinished.

Arguments Ok {A} a.
Arguments Err {A} e.
Arguments Unfinished {A}.

(** [\w] *)
Definition is_word (c : ascii) : bool :=
  let n := nat_of_ascii c in
  ((48 <=? n)%nat && (n <=? 57)%nat) || ((65 <=? n)%nat && (n <=? 90)%nat)
  || ((97 <=? n)%nat && (n <=? 122)%nat) || (n =? 95)%nat.

(** A single or a double quote. *)
Definition is_quote (c : ascii) : bool :=
  let n := nat_of_ascii c in (n =? 39)%nat || (n =? 34)%nat.

(** What is left of [s] after the literal [p], if [s] starts with it. *)
Fixpoint after_literal (p s : string) : option string :=
  match p, s with
  | EmptyString, _ => Some s
  | String a p', String b s' => if Ascii.eqb a b then after_literal p' s' else None
  | String _ _, EmptyString => None
  end.

(** The longest prefix of word characters, and what follows it. *)
Fixpoint take_word (s : string) : string * string :=
  match s with
  | EmptyString => (EmptyString, EmptyString)
  | String c rest =>
      if is_word c then let '(w, r) := take_word rest in (String c w, r)
      else (EmptyString, s)
  end.

(** A match of [ON_DEMAND_FILE_REGEX] at the start of [s]: a quote, the
    literal [ondemand.s], the same quote, a colon, any white space, a quote,
    word characters (the third group, which is returned) and that quote again. *)
Definition ondemand_at (s : string) : option string :=
  match s with
  | String q r =>
      if is_quote q then
        match after_literal "ondemand.s" r with
        | Some (String q' (String ":" r')) =>
            if Ascii.eqb q' q then
              match Str.trimStart r' with
              | String q2 r'' =>
                  if is_quote q2 then
                    let '(w, r3) := take_word r'' in
                    match r3 with
                    | String q2' _ => if Ascii.eqb q2' q2 then Some w else None
                    | EmptyString => None
                    end
                  else None
              | EmptyString => None
              end
            else None
        | _ => None
        end
      else None
  | EmptyString => None
  end.

(** [ON_DEMAND_FILE_REGEX.exec(s)]: the third group of the leftmost match. *)
Fixpoint ondemand_exec (s : string) : option string :=
  match ondemand_at s with
  | Some w => Some w
  | None =>
      match s with
      | EmptyString => None
      | String _ rest => ondemand_exec rest
      end
  end.

(** A match of [INDICES_REGEX], [/\(\w\[(\d{1,2})\],\s*16\)/g], at the start
    of [s]: its group and what follows the match. *)
Definition index_at (s : string) : option (string * string) :=
  match s with
  | String "(" (String w (String "[" r)) =>
      if is_word w then
        let tail (digits r' : string) :=
          match r' with
          | String "]" (String "," r'') =>
              match Str.trimStart r'' with
              | String "1" (String "6" (String ")" rest)) => Some (digits, rest)
              | _ => None
              end
          | _ => None
          end in
        match r with
        | String d1 r1 =>
            if Str.is_digit d1 then
              match r1 with
              | String d2 r2 =>
                  if Str.is_digit d2 then tail (String d1 (String d2 EmptyString)) r2
                  else tail (String d1 EmptyString) r1
              | EmptyString => None
              end
            else None
        | EmptyString => None
        end
      else None
  | _ => None
  end.

(** The loop [while ((match = INDICES_REGEX.exec(text)) !== null)
      keyByteIndices.push(match[1])]: [skip] characters belong to the match
    just found. *)
Fixpoint index_matches (skip : nat) (s : string) : list string :=
  match s with
  | EmptyString => []
  | String _ rest =>
      match skip with
      | S skip' => index_matches skip' rest
      | O =>
          match index_at s with
          | Some (digits, after) =>
              digits :: index_matches (String.length rest - String.length after) rest
          | None => index_matches 0 rest
          end
      end
  end.

(** [parseInt(index, 10)] of one or two digits. *)
Definition index_value (digits : string) : nat :=
  Z.to_nat (fst (Str.digits_value 0 false digits)).

Definition ondemand_url (name : string) : string :=
  "https://abs.twimg.com/responsive-web/client-web/ondemand.s." ++ name ++ "a.js".

Section Network.

(** [document.documentElement.outerHTML], the serializer of the DOM library,
    and [fetch(url)] followed by [response.text()]: [None] when the fetch
    rejects, the response is not [ok], or its text cannot be read. *)
Variable outerHTML : Dom.Document -> string.
Variable fetch_text : string -> option string.

(** The strings [getIndices] collects in [keyByteIndices]. *)
Definition collected (homePageDocument : Dom.Document) : list string :=
  match ondemand_exec (outerHTML homePageDocument) with
  | Some name =>
      match fetch_text (ondemand_url name) with
      | Some responseText => index_matches 0 responseText
      | None => []                      (* caught and logged *)
      end
  | None => []
  end.

(** [getIndices(homePageDocument)] *)
Definition getIndices (homePageDocument : Dom.Document) : result (nat * list nat) :=
  let keyByteIndices := collected homePageDocument in
  match map index_value keyByteIndices with
  | [] => Err KeyByteIndicesError
  | first :: others => Ok (first, others)
  end.

(** An element carries the attribute [name] with the given value. *)
Definition has_name (value : string) (e : Dom.Element) : bool :=
  match Dom.getAttribute e "name" with
  | Some v => String.eqb v value
  | None => false
  end.

(** [response.querySelector("[name='twitter-site-verification']")]: the first
    such element in document order. *)
Definition querySelector_name (value : string) (response : Dom.Document)
  : option Dom.Element :=
  find (has_name value) (Dom.elements response).

(** [getKey(response)] *)
Definition getKey (response : Dom.Document) : result string :=
  let content :=
    match querySelector_name "twitter-site-verification" response with
    | Some element =>
        match Dom.getAttribute element "content" with
        | Some v => v
        | None => ""
        end
    | None => ""
    end in
  if String.eqb content "" then Err KeyError else Ok content.

Variable Math_cos Math_sin : number -> number.

(** [create(homePageDocument)] *)
Definition create (fuel : nat) (homePageDocument : Dom.Document)
  : result (string * string) :=
  match getIndices homePageDocument with
  | Err e => Err e
  | Unfinished => Unfinished
  | Ok (rowIndex, keyByteIndices) =>
      match getKey homePageDocument with
      | Err e => Err e
      | Unfinished => Unfinished
      | Ok key =>
          if String.eqb key "" then Err FailedToGetKey else
          let keyBytes := Transaction.getKeyBytes key in
          match Transaction.getAnimationKey Math_cos Math_sin fuel keyBytes
                  homePageDocument rowIndex keyByteIndices with
          | Returns animationKey => Ok (key, animationKey)
          | Throws e => Err (AnimationError e)
          | OutOfFuel => Unfinished
          end
      end
  end.

End Network.

End Session.

(* ================================================================== *)
(** * Part II. The vocabulary of the properties *)
(* ================================================================== *)

Section Vocabulary.

Local Open Scope float_scope.

(** [Number.isFinite]: neither NaN nor an infinity. *)
Definition finite (x : number) : bool := is_finite x.

(** A byte. *)
Definition is_byte (v : Z) : Prop := 0 <= v < 256.

(** The 6-bit values. *)
Definition sextets : list Z := map Z.of_nat (seq 0 64).

(** The control sets animation-key synthesis builds: the curve controls of a
    frame row of eleven 8-bit values. *)
Definition valid_controls (curves : list number) : Prop :=
  exists row : list Z,
    List.length row = 11%nat
    /\ Forall (fun v => 0 <= v <= 255)%Z row
    /\ curves = Transaction.curvesOf (map num_of_Z row).

(** The controls of an x-coordinate (even position) and of a y-coordinate (odd
    position) of an 8-bit value. *)
Definition x_control (v : Z) : number := Transaction.solve (num_of_Z v) 0 1 false.
Definition y_control (v : Z) : number := Transaction.solve (num_of_Z v) (-1) 1 false.

Definition bytes : list Z := map Z.of_nat (seq 0 256).

(** The state after [n] iterations that all continue. *)
Fixpoint iterate (n : nat) (curves : list number) (time : number)
    (s : Cubic.search_state) : option Cubic.search_state :=
  match n with
  | O => Some s
  | S n' =>
      match Cubic.search_step curves time s with
      | Cubic.Continue s' => iterate n' curves time s'
      | _ => None
      end
  end.

(** The state in which the search for [t = 0.5] on the control set
    [[-1e12, 0, -1e12, 0]] stays: [start] and [end] are neighbouring doubles
    below 1, the midpoint rounds to [start], and the x-component there is far
    below [t]. *)
Definition stuck_state : Cubic.search_state :=
  Cubic.mkState 0.99999999999983324 0.99999999999983324 0.99999999999983336.

End Vocabulary.

Section TokenVocabulary.

Import Transaction.

(** The first 16 bytes of the digest of the signature text. *)
Definition hashPrefix16 (toText : Z -> string) (method path : string) (timeNow : Z)
    (animationKey : string) : list Z :=
  firstn 16 (Sha256.digest (utf8 (signature toText method path timeNow animationKey))).

(** The plaintext of the specification:
    [decode(verificationKey) ++ timeBytes ++ hashPrefix16 ++ [3]]. *)
Definition plaintext (toText : Z -> string) (method path key animationKey : string)
    (timeNow : Z) : list Z :=
  decodeBase64 key ++ timeNowBytes timeNow
    ++ hashPrefix16 toText method path timeNow animationKey ++ [3].

End TokenVocabulary.

(** ** Numbers as real numbers: the vocabulary of the error analysis *)

Section RealVocabulary.

Local Open Scope R_scope.

(** The power of two of an integer exponent. *)
Definition pow2 (e : Z) : R := powerRZ 2 e.

(** The sign of a number, as a factor. *)
Definition sign_factor (s : bool) : R := if s then -1 else 1.

(** The real number a finite number denotes; zero for the others. *)
Definition SFR (x : spec_float) : R :=
  match x with
  | S754_finite s m e => sign_factor s * (IZR (Zpos m) * pow2 e)
  | _ => 0
  end.

(** A zero or a finite number: neither an infinity nor NaN. *)
Definition SFfin (x : spec_float) : bool :=
  match x with
  | S754_zero _ | S754_finite _ _ _ => true
  | _ => false
  end.

(** The real number a JavaScript number denotes, and whether it denotes one. *)
Definition real_of (x : number) : R := SFR (Prim2SF x).

Definition is_real (x : number) : bool := SFfin (Prim2SF x).

(** The bound on the error of one rounding of the exact result [y]. *)
Definition rounding_error (y : R) : R := 4 * (Rabs y * pow2 (-52) + pow2 emin).

(** [x] is a real number within [d] of [r]. *)
Definition approximates (x : number) (r d : R) : Prop :=
  is_real x = true /\ Rabs (real_of x - r) <= d.

(** The polynomial [Cubic.calculate] evaluates, on real numbers. *)
Definition bezier (a b m : R) : R :=
  3 * a * (1 - m) * (1 - m) * m + 3 * b * (1 - m) * m * m + m * m * m.

(** What the search keeps true of its interval after [k] halvings, for
    x-controls [a] and [b] and the time [T]: both ends are real numbers of
    [[0, 1]], [2^-k] apart up to rounding, and the time lies between the
    x-components at the two ends, up to rounding. *)
Definition search_invariant (a b T : R) (k : nat) (s : Cubic.search_state) : Prop :=
  is_real (Cubic.start s) = true /\ is_real (Cubic.end_ s) = true
  /\ 0 <= real_of (Cubic.start s) /\ real_of (Cubic.end_ s) <= 1
  /\ Rabs (real_of (Cubic.end_ s) - real_of (Cubic.start s) - pow2 (- Z.of_nat k))
     <= IZR (Z.of_nat k) * pow2 (-40)
  /\ bezier a b (real_of (Cubic.start s)) <= T + pow2 (-35)
  /\ T - pow2 (-35) <= bezier a b (real_of (Cubic.end_ s)).

End RealVocabulary.

(** ** The vocabulary of the further properties *)

Section TextVocabulary.

(** The characters of a string. *)
Definition chars (s : string) : list ascii := list_ascii_of_string s.

(** A character of the standard base64 alphabet ([A-Z], [a-z], [0-9], [+], [/]). *)
Definition in_alphabet (c : ascii) : bool :=
  existsb (Ascii.eqb c) (chars Base64.alphabet).

End TextVocabulary.

Section PageVocabulary.

Local Open Scope string_scope.

(** Every character of a string satisfies a test. *)
Definition all_chars (p : ascii -> bool) (s : string) : bool := forallb p (chars s).

(** One or two decimal digits: what [INDICES_REGEX] captures. *)
Definition index_text (digits : string) : bool :=
  match digits with
  | String a EmptyString => Str.is_digit a
  | String a (String b EmptyString) => Str.is_digit a && Str.is_digit b
  | _ => false
  end.

(** An occurrence of a key-byte index in a script: some text without an
    opening parenthesis, then [(w[digits],blank16)]. *)
Record index_call : Type :=
  mkCall { junk : string; variable : ascii; digits : string; blank : string }.

Definition well_formed_call (c : index_call) : bool :=
  all_chars (fun a => negb (Ascii.eqb a "(")) (junk c)
  && Session.is_word (variable c)
  && index_text (digits c)
  && all_chars Str.is_space (blank c).

Definition render_call (c : index_call) : string :=
  junk c ++ "(" ++ String (variable c) "[" ++ digits c ++ "]," ++ blank c ++ "16)".

(** A script made of such occurrences, and a tail. *)
Definition render_script (calls : list index_call) (tail : string) : string :=
  fold_right (fun c rest => render_call c ++ rest) tail calls.

(** A page whose first quote character opens the reference to the on-demand
    file: [pre 'ondemand.s':'name' post], with either quote character. *)
Definition render_page (pre : string) (q1 q2 : ascii) (name post : string) : string :=
  pre ++ String q1 "ondemand.s" ++ String q1 ":" ++ String q2 name ++ String q2 post.

End PageVocabulary.

Section FrameVocabulary.

(** The decimal numbers written in a string, in order: every maximal run of
    digits is one number, every other character is a separator.  [current] is
    the value of the run being read. *)
Fixpoint numbers_in (current : option Z) (s : string) : list Z :=
  match s with
  | EmptyString => match current with Some v => [v] | None => [] end
  | String c rest =>
      if Str.is_digit c then
        let d := Z.of_nat (nat_of_ascii c) - 48 in
        numbers_in (Some (10 * match current with Some v => v | None => 0 end + d)) rest
      else
        match current with
        | Some v => v :: numbers_in None rest
        | None => numbers_in None rest
        end
  end.

End FrameVocabulary.

Section BlindSearchVocabulary.

Local Open Scope float_scope.

(** The loop of [Cubic.getValue] when both tests on the x-estimate fail at
    every iteration, as they do when the estimate or the time is NaN: [end] is
    moved to the midpoint until the interval is empty.  The result is the last
    midpoint. *)
Fixpoint halvings (fuel : nat) (s : Cubic.search_state) : option number :=
  match fuel with
  | O => None
  | S fuel' =>
      if Cubic.start s <? Cubic.end_ s then
        let mid := (Cubic.start s + Cubic.end_ s) / 2 in
        halvings fuel' (Cubic.mkState (Cubic.start s) mid mid)
      else Some (Cubic.mid s)
  end.

(** A progress value outside both linear branches of [getValue]: between 0
    and 1, or NaN. *)
Definition inside (t : number) : bool := negb (t <=? 0) && negb (1 <=? t).

(** An x-control of the unit interval. *)
Definition unit_control (c : number) : bool := (0 <=? c) && (c <=? 1).

(** The search is blind when an x-control or the time is NaN. *)
Definition blind (curves : list number) (time : number) : Prop :=
  index curves 0 = nan \/ index curves 2 = nan \/ time = nan.

(** No character of a string is a dot or a dash. *)
Definition no_dot_no_dash (s : string) : bool :=
  all_chars (fun c => negb (Ascii.eqb c "." || Ascii.eqb c "-")) s.

End BlindSearchVocabulary.

Section HexVocabulary.

Local Open Scope float_scope.

(** The rotation of an 8-bit value: [solve(v, 60.0, 360.0, true)]. *)
Definition rotation_target (v : Z) : number := Transaction.solve (num_of_Z v) 60 360 true.

(** The hundredths from 0 to 1: the magnitudes [animate] passes to
    [floatToHex] when [Math.cos] and [Math.sin] stay within [-1, 1]. *)
Definition hundredth (k : Z) : number := num_of_Z k / 100.

Definition hundreds : list Z := map Z.of_nat (seq 0 101).

(** The value of an upper-case hexadecimal digit. *)
Definition hex_digit_value (c : ascii) : option Z :=
  let n := Z.of_nat (nat_of_ascii c) in
  if ((48 <=? n) && (n <=? 57))%Z then Some (n - 48)%Z
  else if ((65 <=? n) && (n <=? 70))%Z then Some (n - 55)%Z
  else None.

(** The number a string of hexadecimal digits denotes. *)
Fixpoint hex_number (acc : Z) (s : string) : option Z :=
  match s with
  | EmptyString => Some acc
  | String c rest =>
      match hex_digit_value c with
      | Some d => hex_number (16 * acc + d)%Z rest
      | None => None
      end
  end.

(** The text [s] is a hexadecimal numeral, with or without a point, and it
    denotes the number [x] exactly: with [i] the integer digits and [f] the
    [n] digits after the point, [x = i + f / 16^n]. *)
Definition denotes (s : string) (x : number) : bool :=
  let '(integer, fraction) :=
    match Str.split "." s with
    | [i] => (i, EmptyString)
    | [i; f] => (i, f)
    | _ => (s, s)
    end in
  match hex_number 0 integer, hex_number 0 fraction with
  | Some i, Some f =>
      let den := (16 ^ Z.of_nat (String.length fraction))%Z in
      let num := (i * den + f)%Z in
      match Prim2SF x with
      | S754_zero _ => (num =? 0)%Z
      | S754_finite false m e =>
          if (0 <=? e)%Z then (num =? Zpos m * 2 ^ e * den)%Z
          else (num * 2 ^ (- e) =? Zpos m * den)%Z
      | _ => false
      end
  | _, _ => false
  end.

(** What [animate] pushes for a matrix entry whose magnitude [floatToHex]
    turns into [hexValue]. *)
Definition shown (hexValue : string) : string :=
  if Str.startsWith_dot hexValue then Str.toLowerCase (String "0" hexValue)
  else if String.eqb hexValue "" then "0"%string else hexValue.

(** On the hundredth [k / 100], within [fuel] iterations of each loop:
    [floatToHex] returns a numeral that denotes it exactly, which is empty
    for 0, [1] for 1 and starts with the point otherwise; and [animate]
    pushes the same text for the entry and for its opposite. *)
Definition hundredth_checked (fuel : nat) (k : Z) : bool :=
  match Utils.floatToHex fuel (hundredth k) with
  | Some s =>
      denotes s (hundredth k)
      && (if (k =? 0)%Z then String.eqb s ""
          else if (k =? 100)%Z then String.eqb s "1"
          else Str.startsWith_dot s)
      && match Transaction.matrix_piece fuel (hundredth k),
               Transaction.matrix_piece fuel (- hundredth k) with
         | Some p, Some q => String.eqb p (shown s) && String.eqb q (shown s)
         | _, _ => false
         end
  | None => false
  end.

(** The same for [floatToHex] on an 8-bit integer. *)
Definition byte_checked (fuel : nat) (v : Z) : bool :=
  match Utils.floatToHex fuel (num_of_Z v) with
  | Some s => denotes s (num_of_Z v) && negb (existsb (Ascii.eqb ".") (chars s))
  | None => false
  end.

End HexVocabulary.

(** Case analysis on everything a hypothesis scrutinises. *)
Ltac crack E :=
  repeat match type of E with
         | context [if Str.is_digit ?d then _ else _] =>
             let H := fresh "Hdigit" in
             destruct (Str.is_digit d) eqn:H; try discriminate E
         | context [match ?x with _ => _ end] => destruct x; try discriminate E
         end.


(* ================================================================== *)
(** * Part III. Properties *)
(* ================================================================== *)

(** ** Facts about binary64 arithmetic *)

Module FloatFacts.

Local Open Scope float_scope.

Lemma finite_cases (x : float) :
  finite x = true ->
  (exists s, Prim2SF x = S754_zero s) \/ (exists s m e, Prim2SF x = S754_finite s m e).
Proof.
  unfold finite, is_finite. intros H.
  apply negb_true_iff, orb_false_iff in H. destruct H as [Hn Hi].
  unfold Prim2SF. rewrite Hn, Hi.
  destruct (is_zero x).
  - left. eauto.
  - destruct (Z.frexp x) as [r ex].
    destruct (shr_fexp prec emax (Uint63Axioms.to_Z (normfr_mantissa r))
                (ex - prec)%Z loc_Exact) as [sh e'].
    destruct (shr_m sh); eauto.
Qed.

Lemma SF_zero : Prim2SF 0 = S754_zero false.
Proof. reflexivity. Qed.

Lemma SF_one : Prim2SF 1 = S754_finite false 4503599627370496 (-52).
Proof. reflexivity. Qed.

(** Two numbers that [===] tells apart are different. *)
Lemma eqb_false_neq (x y : float) : (x =? y) = false -> (y =? y) = true -> x <> y.
Proof. intros H Hy E. subst x. congruence. Qed.

(** A finite number times zero is a zero. *)
Lemma mul_zero_finite (g : float) :
  finite g = true -> exists s, Prim2SF (g * 0) = S754_zero s.
Proof.
  intros H. rewrite mul_spec, SF_zero.
  destruct (finite_cases g H) as [[s E] | [s [m [e E]]]]; rewrite E; simpl; eauto.
Qed.

Lemma eqb_zero_of_SF (x : float) (s : bool) :
  Prim2SF x = S754_zero s -> (x =? 0) = true.
Proof. intros E. rewrite FloatAxioms.eqb_spec, E, SF_zero. reflexivity. Qed.

Lemma one_plus_zero (z : float) (s : bool) :
  Prim2SF z = S754_zero s -> 1 + z = 1.
Proof.
  intros E. apply Prim2SF_inj. rewrite add_spec, E, SF_one. reflexivity.
Qed.

(** Rounding the product of a canonical mantissa with [2^52], at an exponent
    lowered by 52, gives the mantissa back. *)
Lemma round_exact_shifted (s : bool) (m : positive) (e : Z) :
  bounded prec emax m e = true ->
  binary_round_aux prec emax s (Zpos (m * 4503599627370496)) (e + -52) loc_Exact
  = S754_finite s m e.
Proof.
  intros Hb. unfold bounded in Hb. apply andb_true_iff in Hb. destruct Hb as [Hc He].
  unfold canonical_mantissa in Hc. apply Z.eqb_eq in Hc.
  rewrite Pos.mul_comm.
  unfold binary_round_aux.
  assert (E1 : shr_fexp prec emax (Zpos (4503599627370496 * m)) (e + -52) loc_Exact
               = ({| shr_m := Zpos m; shr_r := false; shr_s := false |}, e)).
  { unfold shr_fexp.
    assert (D : Zdigits2 (Zpos (4503599627370496 * m)) = (Zpos (digits2_pos m) + 52)%Z).
    { cbn [Pos.mul Zdigits2 digits2_pos]. lia. }
    rewrite D.
    replace (Z.pos (digits2_pos m) + 52 + (e + -52))%Z
      with (Z.pos (digits2_pos m) + e)%Z by lia.
    rewrite Hc.
    replace (e - (e + -52))%Z with 52%Z by lia.
    unfold shr. cbn [Pos.mul shr_record_of_loc iter_pos shr_1 orb]. f_equal. lia. }
  rewrite E1.
  cbn [shr_m loc_of_shr_record round_nearest_even].
  assert (E2 : shr_fexp prec emax (Zpos m) e loc_Exact
               = ({| shr_m := Zpos m; shr_r := false; shr_s := false |}, e)).
  { unfold shr_fexp. change (Zdigits2 (Zpos m)) with (Zpos (digits2_pos m)).
    rewrite Hc, Z.sub_diag. reflexivity. }
  rewrite E2. cbn [shr_m]. rewrite He. reflexivity.
Qed.

(** Multiplying by one is exact. *)
Lemma mul_one_r (x : float) : x * 1 = x.
Proof.
  apply Prim2SF_inj. rewrite mul_spec, SF_one.
  pose proof (Prim2SF_valid x) as V.
  destruct (Prim2SF x) as [s | s | | s m e]; try (destruct s; reflexivity).
  - reflexivity.
  - unfold SF64mul, SFmul. rewrite xorb_false_r. apply round_exact_shifted. exact V.
Qed.

(** A finite number plus the zero it gives when multiplied by zero. *)
Lemma add_own_zero_r (a : float) : finite a = true -> a + a * 0 = a.
Proof.
  intros H. apply Prim2SF_inj. rewrite add_spec, mul_spec, SF_zero.
  destruct (finite_cases a H) as [[s E] | [s [m [e E]]]]; rewrite E.
  - destruct s; reflexivity.
  - reflexivity.
Qed.

Lemma add_own_zero_l (a : float) : finite a = true -> a * 0 + a = a.
Proof.
  intros H. apply Prim2SF_inj. rewrite add_spec, mul_spec, SF_zero.
  destruct (finite_cases a H) as [[s E] | [s [m [e E]]]]; rewrite E.
  - destruct s; reflexivity.
  - reflexivity.
Qed.


End FloatFacts.

Import FloatFacts.

(** ** The arithmetic of the search, on real numbers

    The search of [Cubic.getValue] is followed on the real numbers its
    numbers denote: every operation of the loop body returns the real result
    up to a rounding error, a comparison of two numbers is the comparison of
    the real numbers, and so one evaluation of [Cubic.calculate] on controls
    and a parameter of [[0, 1]] is within [2^-35] of the polynomial. *)

(** ** Rounding, on integers *)

Module Rounding.

Local Open Scope Z_scope.

Lemma digits2_pos_bounds (p : positive) :
  2 ^ (Zpos (digits2_pos p) - 1) <= Zpos p < 2 ^ Zpos (digits2_pos p).
Proof.
  induction p as [p IH | p IH |]; cbn [digits2_pos].
  - rewrite Pos2Z.inj_succ.
    replace (Z.succ (Zpos (digits2_pos p)) - 1) with (Z.succ (Zpos (digits2_pos p) - 1)) by lia.
    rewrite !Z.pow_succ_r by lia. lia.
  - rewrite Pos2Z.inj_succ.
    replace (Z.succ (Zpos (digits2_pos p)) - 1) with (Z.succ (Zpos (digits2_pos p) - 1)) by lia.
    rewrite !Z.pow_succ_r by lia. lia.
  - cbn. lia.
Qed.

Lemma Zdigits2_nonneg (m : Z) : 0 <= Zdigits2 m.
Proof. destruct m; cbn; lia. Qed.

Lemma Zdigits2_bounds (m : Z) :
  0 < m -> 2 ^ (Zdigits2 m - 1) <= m < 2 ^ Zdigits2 m.
Proof. destruct m as [| p | p]; try lia. intros _. apply digits2_pos_bounds. Qed.

Lemma Zdigits2_upper (m k : Z) : 0 <= m < 2 ^ k -> 0 <= k -> Zdigits2 m <= k.
Proof.
  intros [H0 Hk] K. destruct (Z.eq_dec m 0) as [-> | Hm]; [cbn; lia |].
  destruct (Zdigits2_bounds m ltac:(lia)) as [L _].
  destruct (Z_le_gt_dec (Zdigits2 m) k) as [| G]; [assumption |].
  exfalso. assert (2 ^ k <= 2 ^ (Zdigits2 m - 1)) by (apply Z.pow_le_mono_r; lia). lia.
Qed.

Lemma shr_1_m (r : shr_record) : 0 <= shr_m r -> shr_m (shr_1 r) = shr_m r / 2.
Proof.
  destruct r as [m rb sb]. cbn [shr_m]. intros H.
  destruct m as [| [p | p |] | p]; cbn [shr_1 shr_m]; try lia;
    rewrite <- Z.div2_div; reflexivity.
Qed.

Lemma iter_shr_m (n : positive) (r : shr_record) :
  0 <= shr_m r -> shr_m (SpecFloat.iter_pos shr_1 n r) = shr_m r / 2 ^ Zpos n.
Proof.
  revert r. induction n as [n IH | n IH |]; intros r H; cbn [SpecFloat.iter_pos].
  - assert (H1 : 0 <= shr_m (shr_1 r)) by (rewrite shr_1_m by assumption; apply Z.div_pos; lia).
    assert (H2 : 0 <= shr_m (SpecFloat.iter_pos shr_1 n (shr_1 r)))
      by (rewrite IH by assumption; apply Z.div_pos; lia).
    rewrite IH, IH, shr_1_m by assumption.
    rewrite !Z.div_div by lia. f_equal.
    replace (Zpos n~1) with (1 + Zpos n + Zpos n) by lia.
    rewrite !Z.pow_add_r, Z.pow_1_r by lia. ring.
  - assert (H2 : 0 <= shr_m (SpecFloat.iter_pos shr_1 n r))
      by (rewrite IH by assumption; apply Z.div_pos; lia).
    rewrite IH, IH by assumption.
    rewrite !Z.div_div by lia. f_equal.
    replace (Zpos n~0) with (Zpos n + Zpos n) by lia.
    rewrite !Z.pow_add_r by lia. ring.
  - rewrite shr_1_m by assumption. reflexivity.
Qed.

Lemma shr_spec (r : shr_record) (e n : Z) :
  0 <= shr_m r ->
  shr_m (fst (shr r e n)) = shr_m r / 2 ^ Z.max n 0
  /\ snd (shr r e n) = e + Z.max n 0
  /\ (n <= 0 -> fst (shr r e n) = r).
Proof.
  intros H. destruct n as [| p | p]; cbn [shr fst snd].
  - rewrite Z.div_1_r. repeat split; lia.
  - rewrite iter_shr_m by assumption. repeat split; lia.
  - rewrite Z.div_1_r. repeat split; lia.
Qed.

Lemma round_nearest_even_cases (m : Z) (l : location) :
  (round_nearest_even m l = m \/ round_nearest_even m l = m + 1)
  /\ (l = loc_Exact -> round_nearest_even m l = m).
Proof.
  destruct l as [| []]; cbn [round_nearest_even]; try destruct (Z.even m);
    (split; [auto | intros; try discriminate; reflexivity]).
Qed.

Lemma record_of_loc_m (m : Z) (l : location) : shr_m (shr_record_of_loc m l) = m.
Proof. destruct l as [| []]; reflexivity. Qed.

Lemma loc_of_record_of_loc (m : Z) (l : location) :
  loc_of_shr_record (shr_record_of_loc m l) = l.
Proof. destruct l as [| []]; reflexivity. Qed.

Lemma fexp_succ (z : Z) : fexp prec emax (z + 1) <= fexp prec emax z + 1.
Proof. unfold fexp. lia. Qed.

Lemma fexp_mono (a b : Z) : a <= b -> fexp prec emax a <= fexp prec emax b.
Proof. unfold fexp. lia. Qed.

(** What [binary_round_aux] returns: a mantissa [m3] at an exponent [e3], one
    or two units of the last place from the number it is given. *)
Lemma binary_round_aux_bounds (s : bool) (m e : Z) (l : location) :
  0 <= m ->
  exists m3 e3 : Z,
    binary_round_aux prec emax s m e l
    = match m3 with
      | Z0 => S754_zero s
      | Zpos p => if e3 <=? emax - prec then S754_finite s p e3 else S754_infinity s
      | Zneg _ => S754_nan
      end
    /\ 0 <= m3
    /\ Z.max e (fexp prec emax (Zdigits2 m + e)) <= e3
       <= Z.max e (fexp prec emax (Zdigits2 m + e)) + 1
    /\ m3 * 2 ^ (e3 - e) <= m + 2 ^ (Z.max e (fexp prec emax (Zdigits2 m + e)) - e)
    /\ m - 3 * 2 ^ (Z.max e (fexp prec emax (Zdigits2 m + e)) - e) < m3 * 2 ^ (e3 - e)
    /\ (l = loc_Exact -> fexp prec emax (Zdigits2 m + e) <= e -> m3 = m /\ e3 = e).
Proof.
  intros Hm.
  set (E := Z.max e (fexp prec emax (Zdigits2 m + e))).
  set (n := fexp prec emax (Zdigits2 m + e) - e).
  assert (EN : E - e = Z.max n 0) by (unfold E, n; lia).
  unfold binary_round_aux, shr_fexp. fold n.
  pose proof (shr_spec (shr_record_of_loc m l) e n) as S1.
  rewrite record_of_loc_m in S1. specialize (S1 Hm).
  destruct (shr (shr_record_of_loc m l) e n) as [r1 e1]. cbn [fst snd] in S1.
  destruct S1 as (M1 & E1 & X1).
  set (m1 := shr_m r1) in *.
  set (m2 := round_nearest_even m1 (loc_of_shr_record r1)).
  destruct (round_nearest_even_cases m1 (loc_of_shr_record r1)) as [C2 X2]. fold m2 in C2, X2.
  assert (P : 0 < 2 ^ Z.max n 0) by (apply Z.pow_pos_nonneg; lia).
  assert (H1 : 0 <= m1) by (rewrite M1; apply Z.div_pos; lia).
  assert (H2 : 0 <= m2) by lia.
  assert (D1 : m1 * 2 ^ Z.max n 0 <= m < (m1 + 1) * 2 ^ Z.max n 0).
  { rewrite M1. pose proof (Z.div_mod m (2 ^ Z.max n 0) ltac:(lia)) as Q.
    pose proof (Z.mod_pos_bound m (2 ^ Z.max n 0) P). nia. }
  (* the first mantissa is below 2^prec *)
  assert (B1 : m1 < 2 ^ prec).
  { destruct (Z.eq_dec m 0) as [-> | Hm0].
    - rewrite M1, Z.div_0_l by lia. unfold prec. lia.
    - destruct (Zdigits2_bounds m ltac:(lia)) as [_ U].
      assert (G : Zdigits2 m <= Z.max n 0 + prec) by (unfold n, fexp; lia).
      assert (m < 2 ^ (Z.max n 0 + prec)).
      { eapply Z.lt_le_trans; [exact U |]. apply Z.pow_le_mono_r; lia. }
      rewrite Z.pow_add_r in H by (unfold prec; lia).
      rewrite M1. apply Z.div_lt_upper_bound; lia. }
  set (n2 := fexp prec emax (Zdigits2 m2 + e1) - e1).
  assert (N2 : n2 <= 1).
  { assert (Zdigits2 m2 <= prec + 1).
    { apply Zdigits2_upper; [| unfold prec; lia].
      split; [lia |]. rewrite Z.pow_add_r, Z.pow_1_r by (unfold prec; lia). lia. }
    unfold n2, fexp. subst e1.
    assert (emin <= e + Z.max n 0) by (unfold n, fexp; lia). lia. }
  pose proof (shr_spec (shr_record_of_loc m2 loc_Exact) e1 n2) as S2.
  rewrite record_of_loc_m in S2. specialize (S2 H2). fold n2.
  destruct (shr (shr_record_of_loc m2 loc_Exact) e1 n2) as [r3 e3]. cbn [fst snd] in S2.
  destruct S2 as (M3 & E3 & X3).
  exists (shr_m r3), e3.
  assert (P2 : 0 < 2 ^ Z.max n2 0) by (apply Z.pow_pos_nonneg; lia).
  assert (H3 : 0 <= shr_m r3) by (rewrite M3; apply Z.div_pos; lia).
  assert (D3 : shr_m r3 * 2 ^ Z.max n2 0 <= m2 < (shr_m r3 + 1) * 2 ^ Z.max n2 0).
  { rewrite M3. pose proof (Z.div_mod m2 (2 ^ Z.max n2 0) ltac:(lia)) as Q.
    pose proof (Z.mod_pos_bound m2 (2 ^ Z.max n2 0) P2). nia. }
  assert (EE : e3 - e = Z.max n 0 + Z.max n2 0) by lia.
  split; [destruct (shr_m r3); reflexivity |].
  split; [exact H3 |].
  split; [lia |].
  rewrite EN, EE, Z.pow_add_r by lia.
  assert (T : 2 ^ Z.max n2 0 <= 2).
  { change 2 with (2 ^ 1) at 2. apply Z.pow_le_mono_r; lia. }
  split; [nia |]. split; [nia |].
  intros Hl Hn.
  assert (Hn0 : n <= 0) by (unfold n; lia).
  assert (R1 : r1 = shr_record_of_loc m l) by (apply X1; exact Hn0).
  assert (Q1 : m1 = m) by (unfold m1; rewrite R1; apply record_of_loc_m).
  assert (Q2 : m2 = m).
  { rewrite <- Q1. apply X2. rewrite R1, loc_of_record_of_loc. exact Hl. }
  assert (Hn2 : n2 <= 0).
  { unfold n2. rewrite Q2, E1. replace (Z.max n 0) with 0 by lia.
    rewrite Z.add_0_r. exact Hn0. }
  rewrite (X3 Hn2), record_of_loc_m. split; lia.
Qed.

End Rounding.

(** ** Rounding, on real numbers *)

Module RoundingR.

Import Rounding.

Local Open Scope R_scope.

Lemma pow2_pos (e : Z) : 0 < pow2 e.
Proof. apply powerRZ_lt. lra. Qed.

Lemma pow2_add (a b : Z) : pow2 (a + b) = pow2 a * pow2 b.
Proof. apply powerRZ_add. lra. Qed.

Lemma pow2_IZR (n : Z) : (0 <= n)%Z -> pow2 n = IZR (2 ^ n).
Proof.
  intros H. unfold pow2. destruct n as [| p | p]; [reflexivity | | lia].
  cbn [powerRZ]. rewrite pow_IZR, positive_nat_Z. reflexivity.
Qed.

Lemma pow2_ge_1 (n : Z) : (0 <= n)%Z -> 1 <= pow2 n.
Proof.
  intros H. rewrite pow2_IZR by exact H. apply IZR_le.
  pose proof (Z.pow_pos_nonneg 2 n ltac:(lia) H). lia.
Qed.

Lemma pow2_le (a b : Z) : (a <= b)%Z -> pow2 a <= pow2 b.
Proof.
  intros H. replace b with (a + (b - a))%Z by lia. rewrite pow2_add.
  pose proof (pow2_pos a). pose proof (pow2_ge_1 (b - a) ltac:(lia)). nra.
Qed.

Lemma pow2_lt (a b : Z) : (a < b)%Z -> pow2 a < pow2 b.
Proof.
  intros H. replace b with (a + 1 + (b - a - 1))%Z by lia. rewrite !pow2_add.
  pose proof (pow2_pos a). pose proof (pow2_ge_1 (b - a - 1) ltac:(lia)).
  change (pow2 1) with (2 * 1). nra.
Qed.

Lemma pow2_le_inv (a b : Z) : pow2 a <= pow2 b -> (a <= b)%Z.
Proof.
  intros H. destruct (Z_le_gt_dec a b) as [| G]; [assumption |].
  pose proof (pow2_lt b a ltac:(lia)). lra.
Qed.

Lemma pow2_lt_inv (a b : Z) : pow2 a < pow2 b -> (a < b)%Z.
Proof.
  intros H. destruct (Z_lt_ge_dec a b) as [| G]; [assumption |].
  pose proof (pow2_le b a ltac:(lia)). lra.
Qed.

Lemma sign_factor_abs (s : bool) (a : R) : 0 <= a -> Rabs (sign_factor s * a) = a.
Proof.
  intros H. destruct s; unfold sign_factor.
  - replace (-1 * a) with (- a) by ring. rewrite Rabs_Ropp. apply Rabs_pos_eq. exact H.
  - rewrite Rmult_1_l. apply Rabs_pos_eq. exact H.
Qed.

Lemma sign_factor_xorb (s t : bool) :
  sign_factor (xorb s t) = sign_factor s * sign_factor t.
Proof. destruct s, t; unfold sign_factor; cbn; ring. Qed.

Lemma Zdigits2_pow2 (m : Z) :
  (0 < m)%Z -> pow2 (Zdigits2 m - 1) <= IZR m < pow2 (Zdigits2 m).
Proof.
  intros H. destruct (Zdigits2_bounds m H) as [L U].
  pose proof (Zdigits2_nonneg m).
  assert (1 <= Zdigits2 m)%Z.
  { destruct m; try lia. cbn. lia. }
  rewrite !pow2_IZR by lia. split; [apply IZR_le | apply IZR_lt]; assumption.
Qed.

Lemma emin_value : emin = (-1074)%Z.
Proof. reflexivity. Qed.

(** One unit of the last place of a positive number given by [m] and [e]. *)
Lemma pow2_fexp_le (m e : Z) :
  (0 < m)%Z ->
  pow2 (fexp prec emax (Zdigits2 m + e)) <= IZR m * pow2 e * pow2 (-52) + pow2 emin.
Proof.
  intros H. destruct (Zdigits2_pow2 m H) as [L _].
  pose proof (pow2_pos e). pose proof (pow2_pos (-52)). pose proof (pow2_pos emin).
  unfold fexp. destruct (Z.max_spec (Zdigits2 m + e - prec) emin) as [[_ ->] | [_ ->]].
  - assert (0 <= IZR m) by (apply IZR_le; lia).
    assert (0 <= IZR m * pow2 e * pow2 (-52))
      by (apply Rmult_le_pos; [apply Rmult_le_pos |]; lra).
    lra.
  - replace (Zdigits2 m + e - prec)%Z with ((Zdigits2 m - 1) + e + -52)%Z
      by (unfold prec; lia).
    rewrite !pow2_add.
    assert (pow2 (Zdigits2 m - 1) * pow2 e * pow2 (-52) <= IZR m * pow2 e * pow2 (-52)).
    { apply Rmult_le_compat_r; [lra |]. apply Rmult_le_compat_r; lra. }
    lra.
Qed.

(** The result of [binary_round_aux], as a real number. *)
Lemma round_aux_R (s : bool) (m e : Z) (l : location) :
  (0 <= m)%Z ->
  (Z.max e (fexp prec emax (Zdigits2 m + e)) + 1 <= emax - prec)%Z ->
  SFfin (binary_round_aux prec emax s m e l) = true
  /\ exists a : R,
       SFR (binary_round_aux prec emax s m e l) = sign_factor s * a
       /\ 0 <= a
       /\ IZR m * pow2 e - 3 * pow2 (Z.max e (fexp prec emax (Zdigits2 m + e))) <= a
          <= IZR m * pow2 e + pow2 (Z.max e (fexp prec emax (Zdigits2 m + e)))
       /\ (l = loc_Exact -> (fexp prec emax (Zdigits2 m + e) <= e)%Z ->
           a = IZR m * pow2 e).
Proof.
  intros Hm Hov.
  destruct (binary_round_aux_bounds s m e l Hm) as (m3 & e3 & -> & H3 & HE & U & L & X).
  set (E := Z.max e (fexp prec emax (Zdigits2 m + e))) in *.
  assert (V3 : IZR m3 * pow2 e3 = IZR (m3 * 2 ^ (e3 - e)) * pow2 e).
  { rewrite mult_IZR, <- pow2_IZR by lia. rewrite Rmult_assoc, <- pow2_add.
    f_equal. f_equal. lia. }
  assert (VE : pow2 E = IZR (2 ^ (E - e)) * pow2 e).
  { rewrite <- pow2_IZR by lia. rewrite <- pow2_add. f_equal. lia. }
  pose proof (pow2_pos e) as Pe.
  assert (B : IZR m * pow2 e - 3 * pow2 E <= IZR m3 * pow2 e3 <= IZR m * pow2 e + pow2 E).
  { rewrite V3, VE. split.
    - apply IZR_lt in L. rewrite minus_IZR, !mult_IZR in L. rewrite mult_IZR. nra.
    - apply IZR_le in U. rewrite plus_IZR, mult_IZR in U. rewrite mult_IZR. nra. }
  assert (XX : l = loc_Exact -> (fexp prec emax (Zdigits2 m + e) <= e)%Z ->
               IZR m3 * pow2 e3 = IZR m * pow2 e).
  { intros Hl Hn. destruct (X Hl Hn) as [-> ->]. reflexivity. }
  destruct m3 as [| p | p]; [| | lia].
  - split; [reflexivity |]. exists 0. cbn [SFR].
    rewrite Rmult_0_l in B, XX. split; [ring |]. split; [lra |]. split; [exact B | exact XX].
  - replace (e3 <=? emax - prec)%Z with true by (symmetry; apply Z.leb_le; lia).
    split; [reflexivity |]. exists (IZR (Zpos p) * pow2 e3). cbn [SFR].
    split; [reflexivity |]. split; [| split; [exact B | exact XX]].
    pose proof (pow2_pos e3). assert (0 < IZR (Zpos p)) by (apply IZR_lt; lia). nra.
Qed.

Lemma rounding_error_nonneg (y : R) : 0 <= rounding_error y.
Proof.
  unfold rounding_error. pose proof (Rabs_pos y). pose proof (pow2_pos (-52)).
  pose proof (pow2_pos emin). nra.
Qed.

(** Rounding a positive number given exactly loses at most three units of the
    last place, and does not overflow below [2^16]. *)
Lemma round_exact_R (s : bool) (p : positive) (e : Z) :
  IZR (Zpos p) * pow2 e <= pow2 16 ->
  SFfin (binary_round_aux prec emax s (Zpos p) e loc_Exact) = true
  /\ exists a : R,
       SFR (binary_round_aux prec emax s (Zpos p) e loc_Exact) = sign_factor s * a
       /\ 0 <= a
       /\ Rabs (a - IZR (Zpos p) * pow2 e)
          <= 3 * (IZR (Zpos p) * pow2 e * pow2 (-52) + pow2 emin).
Proof.
  intros Hy.
  assert (Hp : (0 < Zpos p)%Z) by lia.
  destruct (Zdigits2_pow2 (Zpos p) Hp) as [DL DU].
  pose proof (pow2_pos e) as Pe.
  assert (P1 : 1 <= IZR (Zpos p)) by (apply IZR_le; lia).
  assert (He : (e <= 16)%Z) by (apply pow2_le_inv; nra).
  assert (Hd : (Zdigits2 (Zpos p) - 1 + e <= 16)%Z).
  { apply pow2_le_inv. rewrite pow2_add. nra. }
  assert (Hov : (Z.max e (fexp prec emax (Zdigits2 (Zpos p) + e)) + 1 <= emax - prec)%Z).
  { unfold fexp. rewrite emin_value. unfold emax, prec. lia. }
  destruct (round_aux_R s (Zpos p) e loc_Exact ltac:(lia) Hov) as (F & a & Ea & Ha & B & X).
  split; [exact F |]. exists a. split; [exact Ea |]. split; [exact Ha |].
  pose proof (pow2_fexp_le (Zpos p) e Hp) as U.
  pose proof (pow2_pos (-52)). pose proof (pow2_pos emin).
  destruct (Z_le_gt_dec (fexp prec emax (Zdigits2 (Zpos p) + e)) e) as [Hn | Hn].
  - rewrite (X eq_refl Hn). rewrite Rminus_diag, Rabs_R0.
    assert (0 <= IZR (Zpos p) * pow2 e * pow2 (-52))
      by (apply Rmult_le_pos; [apply Rmult_le_pos |]; lra).
    lra.
  - rewrite Z.max_r in B by lia. apply Rabs_le. lra.
Qed.

End RoundingR.

(** ** The operations on numbers, on real numbers *)

Module OperationsR.

Import Rounding RoundingR.

Local Open Scope R_scope.

Lemma magnitude_pos (m : positive) (e : Z) : 0 < IZR (Zpos m) * pow2 e.
Proof.
  pose proof (pow2_pos e). assert (0 < IZR (Zpos m)) by (apply IZR_lt; lia). nra.
Qed.

Lemma rounding_error_le (y : R) :
  3 * (Rabs y * pow2 (-52) + pow2 emin) <= rounding_error y.
Proof.
  unfold rounding_error. pose proof (Rabs_pos y). pose proof (pow2_pos (-52)).
  pose proof (pow2_pos emin). nra.
Qed.

Lemma approximates_zero (x : number) (r : R) (s : bool) :
  Prim2SF x = S754_zero s -> r = 0 -> approximates x r (rounding_error r).
Proof.
  intros E ->. unfold approximates, is_real, real_of. rewrite E. cbn [SFfin SFR].
  split; [reflexivity |]. rewrite Rminus_diag, Rabs_R0. apply rounding_error_nonneg.
Qed.

Lemma signed_rounding (s : bool) (a y : R) :
  0 <= y ->
  Rabs (a - y) <= 3 * (y * pow2 (-52) + pow2 emin) ->
  Rabs (sign_factor s * a - sign_factor s * y) <= rounding_error (sign_factor s * y).
Proof.
  intros Hy B. unfold rounding_error. rewrite (sign_factor_abs s y Hy).
  rewrite <- Rmult_minus_distr_l.
  assert (E : Rabs (sign_factor s * (a - y)) = Rabs (a - y)).
  { destruct s; unfold sign_factor.
    - replace (-1 * (a - y)) with (- (a - y)) by ring. apply Rabs_Ropp.
    - rewrite Rmult_1_l. reflexivity. }
  rewrite E. pose proof (pow2_pos (-52)). pose proof (pow2_pos emin).
  assert (0 <= y * pow2 (-52)) by (apply Rmult_le_pos; lra). lra.
Qed.

(** *** Multiplication *)
Lemma mul_R (x y : number) :
  is_real x = true -> is_real y = true ->
  Rabs (real_of x * real_of y) <= pow2 16 ->
  approximates (x * y)%float (real_of x * real_of y)
               (rounding_error (real_of x * real_of y)).
Proof.
  unfold approximates, is_real, real_of. rewrite mul_spec. unfold SF64mul.
  destruct (Prim2SF x) as [sx | sx | | sx mx ex]; try discriminate;
    destruct (Prim2SF y) as [sy | sy | | sy my ey]; try discriminate;
    intros _ _ B; cbn [SFmul SFfin SFR].
  - split; [reflexivity |]. rewrite Rmult_0_l, Rminus_diag, Rabs_R0.
    apply rounding_error_nonneg.
  - split; [reflexivity |]. rewrite Rmult_0_l, Rminus_diag, Rabs_R0.
    apply rounding_error_nonneg.
  - split; [reflexivity |]. rewrite Rmult_0_r, Rminus_diag, Rabs_R0.
    apply rounding_error_nonneg.
  - cbn [SFR] in B.
    pose proof (magnitude_pos mx ex) as Px. pose proof (magnitude_pos my ey) as Py.
    assert (Y : sign_factor sx * (IZR (Zpos mx) * pow2 ex)
                * (sign_factor sy * (IZR (Zpos my) * pow2 ey))
                = sign_factor (xorb sx sy) * (IZR (Zpos (mx * my)) * pow2 (ex + ey))).
    { rewrite sign_factor_xorb, Pos2Z.inj_mul, mult_IZR, pow2_add. ring. }
    rewrite Y in B |- *.
    assert (P : 0 <= IZR (Zpos (mx * my)) * pow2 (ex + ey))
      by (apply Rlt_le, magnitude_pos).
    rewrite (sign_factor_abs _ _ P) in B.
    destruct (round_exact_R (xorb sx sy) (mx * my) (ex + ey) B) as (F & a & Ea & Ha & Ba).
    split; [exact F |]. rewrite Ea. apply signed_rounding; assumption.
Qed.

(** *** Addition and subtraction *)
Lemma iter_xO (p d : positive) : Zpos (Pos.iter xO p d) = (Zpos p * 2 ^ Zpos d)%Z.
Proof.
  induction d as [| d IH] using Pos.peano_ind.
  - cbn. lia.
  - rewrite Pos.iter_succ, Pos2Z.inj_xO, IH, Pos2Z.inj_succ, Z.pow_succ_r by lia. ring.
Qed.

Lemma shl_align_value (m : positive) (e e' : Z) :
  IZR (Zpos (fst (shl_align m e e'))) * pow2 (snd (shl_align m e e'))
  = IZR (Zpos m) * pow2 e.
Proof.
  unfold shl_align. destruct (e' - e)%Z as [| d | d] eqn:D; cbn [fst snd]; try reflexivity.
  rewrite iter_xO, mult_IZR, <- pow2_IZR by lia.
  rewrite Rmult_assoc, <- pow2_add. f_equal. f_equal. lia.
Qed.

Lemma shl_align_snd (m : positive) (e e' : Z) :
  (e' <= e)%Z -> snd (shl_align m e e') = e'.
Proof.
  intros H. unfold shl_align. destruct (e' - e)%Z as [| d | d] eqn:D; cbn [snd]; lia.
Qed.

Lemma normalize_R (z e : Z) :
  Rabs (IZR z * pow2 e) <= pow2 16 ->
  SFfin (binary_normalize prec emax z e false) = true
  /\ Rabs (SFR (binary_normalize prec emax z e false) - IZR z * pow2 e)
     <= rounding_error (IZR z * pow2 e).
Proof.
  intros B. destruct z as [| p | p]; cbn [binary_normalize].
  - split; [reflexivity |]. cbn [SFR]. rewrite Rmult_0_l, Rminus_diag, Rabs_R0.
    apply rounding_error_nonneg.
  - unfold binary_round.
    pose proof (shl_align_value p e (fexp prec emax (Zpos (digits2_pos p) + e))) as Sv.
    destruct (shl_align p e (fexp prec emax (Zpos (digits2_pos p) + e))) as [mz ez].
    cbn [fst snd] in Sv.
    pose proof (magnitude_pos p e) as P.
    rewrite (Rabs_pos_eq _ (Rlt_le _ _ P)) in B. rewrite <- Sv in B, P |- *.
    destruct (round_exact_R false mz ez B) as (F & a & Ea & Ha & Ba).
    split; [exact F |]. rewrite Ea.
    replace (IZR (Zpos mz) * pow2 ez) with (sign_factor false * (IZR (Zpos mz) * pow2 ez))
      at 1 2 by (unfold sign_factor; ring).
    apply signed_rounding; [lra | exact Ba].
  - unfold binary_round.
    pose proof (shl_align_value p e (fexp prec emax (Zpos (digits2_pos p) + e))) as Sv.
    destruct (shl_align p e (fexp prec emax (Zpos (digits2_pos p) + e))) as [mz ez].
    cbn [fst snd] in Sv.
    pose proof (magnitude_pos p e) as P.
    assert (N : IZR (Zneg p) * pow2 e = sign_factor true * (IZR (Zpos p) * pow2 e)).
    { change (Zneg p) with (- Zpos p)%Z. rewrite opp_IZR. unfold sign_factor. ring. }
    rewrite N in B |- *. rewrite (sign_factor_abs _ _ (Rlt_le _ _ P)) in B.
    rewrite <- Sv in B, P |- *.
    destruct (round_exact_R true mz ez B) as (F & a & Ea & Ha & Ba).
    split; [exact F |]. rewrite Ea. apply signed_rounding; [lra | exact Ba].
Qed.

Lemma cond_Zopp_IZR (s : bool) (z : Z) : IZR (cond_Zopp s z) = sign_factor s * IZR z.
Proof. destruct s; unfold cond_Zopp, sign_factor; [rewrite opp_IZR |]; ring. Qed.

Lemma aligned_value (s : bool) (m : positive) (e ez : Z) :
  (ez <= e)%Z ->
  IZR (cond_Zopp s (Zpos (fst (shl_align m e ez)))) * pow2 ez
  = sign_factor s * (IZR (Zpos m) * pow2 e).
Proof.
  intros H. rewrite cond_Zopp_IZR, Rmult_assoc. f_equal.
  rewrite <- (shl_align_value m e ez), (shl_align_snd m e ez H). reflexivity.
Qed.

Lemma add_R (x y : number) :
  is_real x = true -> is_real y = true ->
  Rabs (real_of x + real_of y) <= pow2 16 ->
  approximates (x + y)%float (real_of x + real_of y)
               (rounding_error (real_of x + real_of y)).
Proof.
  unfold approximates, is_real, real_of. rewrite add_spec. unfold SF64add.
  destruct (Prim2SF x) as [sx | sx | | sx mx ex]; try discriminate;
    destruct (Prim2SF y) as [sy | sy | | sy my ey]; try discriminate;
    intros _ _ B; cbn [SFadd SFR] in *.
  - split; [destruct sx, sy; reflexivity |].
    replace (SFR (if sx then if sy then S754_zero sx else S754_zero false
                  else if sy then S754_zero false else S754_zero sx)) with 0
      by (destruct sx, sy; reflexivity).
    rewrite Rplus_0_l, Rminus_diag, Rabs_R0. apply rounding_error_nonneg.
  - split; [reflexivity |]. cbn [SFR]. rewrite Rplus_0_l, Rminus_diag, Rabs_R0.
    apply rounding_error_nonneg.
  - split; [reflexivity |]. cbn [SFR]. rewrite Rplus_0_r, Rminus_diag, Rabs_R0.
    apply rounding_error_nonneg.
  - assert (Z : IZR (cond_Zopp sx (Zpos (fst (shl_align mx ex (Z.min ex ey))))
                     + cond_Zopp sy (Zpos (fst (shl_align my ey (Z.min ex ey)))))
                * pow2 (Z.min ex ey)
                = sign_factor sx * (IZR (Zpos mx) * pow2 ex)
                  + sign_factor sy * (IZR (Zpos my) * pow2 ey)).
    { rewrite plus_IZR, Rmult_plus_distr_r, !aligned_value by lia. reflexivity. }
    rewrite <- Z in B |- *. apply normalize_R. exact B.
Qed.

Lemma sub_R (x y : number) :
  is_real x = true -> is_real y = true ->
  Rabs (real_of x - real_of y) <= pow2 16 ->
  approximates (x - y)%float (real_of x - real_of y)
               (rounding_error (real_of x - real_of y)).
Proof.
  unfold approximates, is_real, real_of. rewrite sub_spec. unfold SF64sub.
  destruct (Prim2SF x) as [sx | sx | | sx mx ex]; try discriminate;
    destruct (Prim2SF y) as [sy | sy | | sy my ey]; try discriminate;
    intros _ _ B; cbn [SFsub SFR] in *.
  - split; [destruct sx, sy; reflexivity |].
    replace (SFR (if sx then if sy then S754_zero false else S754_zero sx
                  else if sy then S754_zero sx else S754_zero false)) with 0
      by (destruct sx, sy; reflexivity).
    rewrite Rminus_0_r, Rminus_diag, Rabs_R0. apply rounding_error_nonneg.
  - split; [reflexivity |]. cbn [SFR].
    replace (sign_factor (negb sy) * (IZR (Zpos my) * pow2 ey)
             - (0 - sign_factor sy * (IZR (Zpos my) * pow2 ey))) with 0
      by (destruct sy; unfold sign_factor; cbn; ring).
    rewrite Rabs_R0. apply rounding_error_nonneg.
  - split; [reflexivity |]. cbn [SFR]. rewrite Rminus_0_r, Rminus_diag, Rabs_R0.
    apply rounding_error_nonneg.
  - assert (Z : IZR (cond_Zopp sx (Zpos (fst (shl_align mx ex (Z.min ex ey))))
                     - cond_Zopp sy (Zpos (fst (shl_align my ey (Z.min ex ey)))))
                * pow2 (Z.min ex ey)
                = sign_factor sx * (IZR (Zpos mx) * pow2 ex)
                  - sign_factor sy * (IZR (Zpos my) * pow2 ey)).
    { rewrite minus_IZR, Rmult_minus_distr_r, !aligned_value by lia. reflexivity. }
    rewrite <- Z in B |- *. apply normalize_R. exact B.
Qed.

(** *** The absolute value *)
Lemma abs_R (x : number) :
  is_real x = true -> is_real (abs x) = true /\ real_of (abs x) = Rabs (real_of x).
Proof.
  unfold is_real, real_of. rewrite abs_spec.
  destruct (Prim2SF x) as [sx | sx | | sx mx ex]; try discriminate; intros _;
    cbn [SFabs SFfin SFR].
  - split; [reflexivity |]. symmetry. apply Rabs_R0.
  - split; [reflexivity |].
    rewrite (sign_factor_abs sx _ (Rlt_le _ _ (magnitude_pos mx ex))).
    unfold sign_factor. ring.
Qed.

End OperationsR.

(** ** Halving and comparing, on real numbers *)

Module CompareR.

Import Rounding RoundingR OperationsR.

Local Open Scope R_scope.

Lemma bounded_facts (m : positive) (e : Z) :
  SpecFloat.bounded prec emax m e = true ->
  (emin <= e)%Z /\ (Zpos (digits2_pos m) <= prec)%Z
  /\ ((emin < e)%Z -> Zpos (digits2_pos m) = prec).
Proof.
  unfold SpecFloat.bounded, canonical_mantissa, fexp. intros H.
  apply andb_true_iff in H. destruct H as [H _]. apply Z.eqb_eq in H. lia.
Qed.

(** The quotient by two that [SFdiv] hands to the rounding. *)
Lemma div2_core (mx : positive) (ex : Z) :
  SpecFloat.bounded prec emax mx ex = true ->
  exists (q e' : Z) (l : location),
    SFdiv_core_binary prec emax (Zpos mx) ex 4503599627370496 (-51) = (q, e', l)
    /\ (0 <= q)%Z
    /\ IZR q * pow2 e' <= IZR (Zpos mx) * pow2 ex / 2 < (IZR q + 1) * pow2 e'
    /\ (Z.max e' (fexp prec emax (Zdigits2 q + e'))
        <= Z.max (Zpos (digits2_pos mx) + ex - 54) emin)%Z.
Proof.
  intros Hb. destruct (bounded_facts mx ex Hb) as (He & Hd & _).
  unfold SFdiv_core_binary.
  change (Zdigits2 (Zpos mx)) with (Zpos (digits2_pos mx)).
  change (Zdigits2 4503599627370496) with 53%Z.
  set (d1 := Zpos (digits2_pos mx)) in *.
  set (e' := Z.min (fexp prec emax (d1 + ex - (53 + -51))) (ex - -51)).
  set (s := (ex - -51 - e')%Z).
  assert (Hs : (0 <= s)%Z) by (unfold s, e'; lia).
  assert (Hd1 : (1 <= d1)%Z) by (unfold d1; lia).
  assert (He' : (e' <= Z.max (d1 + ex - 55) emin)%Z) by (unfold e', fexp, prec; lia).
  assert (M : match s with
              | Zpos _ => Z.shiftl (Zpos mx) s
              | Z0 => Zpos mx
              | Zneg _ => 0%Z
              end = (Zpos mx * 2 ^ s)%Z).
  { destruct s as [| p | p] eqn:Es; [lia | | lia].
    rewrite Z.shiftl_mul_pow2 by lia. reflexivity. }
  rewrite M.
  pose proof (Z_div_mod (Zpos mx * 2 ^ s) 4503599627370496 ltac:(lia)) as Q.
  destruct (Z.div_eucl (Zpos mx * 2 ^ s) 4503599627370496) as [q r].
  destruct Q as [Q R].
  exists q, e', (new_location 4503599627370496 r). split; [reflexivity |].
  assert (P2 : (0 < 2 ^ s)%Z) by (apply Z.pow_pos_nonneg; lia).
  assert (Hq : (0 <= q)%Z) by nia.
  split; [exact Hq |].
  (* values *)
  assert (Vm : IZR (Zpos mx) * pow2 ex / 2
               = IZR (Zpos mx * 2 ^ s) * pow2 e' / 4503599627370496).
  { rewrite mult_IZR, <- pow2_IZR by lia.
    replace ex with (s + e' + -51)%Z at 1 by (unfold s; lia).
    rewrite !pow2_add.
    replace (pow2 (-51)) with (2 / 4503599627370496).
    - field.
    - unfold pow2. cbn [powerRZ]. rewrite pow_IZR.
      change (2 ^ Z.of_nat (Pos.to_nat 51))%Z with 2251799813685248%Z. lra. }
  pose proof (pow2_pos e') as Pe.
  split.
  { rewrite Vm, Q, plus_IZR, mult_IZR.
    assert (0 <= IZR r < 4503599627370496).
    { split; [apply IZR_le | apply IZR_lt]; lia. }
    split.
    - apply Rmult_le_reg_r with 4503599627370496; [lra |].
      unfold Rdiv. rewrite Rmult_assoc, Rmult_assoc, Rinv_l, Rmult_1_r by lra. nra.
    - apply Rmult_lt_reg_r with 4503599627370496; [lra |].
      unfold Rdiv. rewrite Rmult_assoc, Rinv_l, Rmult_1_r by lra. nra. }
  (* digits *)
  destruct (digits2_pos_bounds mx) as [_ U]. fold d1 in U.
  assert (K : (0 <= d1 + ex - 1 - e')%Z) by lia.
  assert (Bq : (q < 2 ^ (d1 + ex - 1 - e'))%Z).
  { assert (T : (Zpos mx * 2 ^ s < 2 ^ (d1 + ex - 1 - e') * 4503599627370496)%Z).
    { change 4503599627370496%Z with (2 ^ 52)%Z. rewrite <- Z.pow_add_r by lia.
      replace (d1 + ex - 1 - e' + 52)%Z with (d1 + s)%Z by (unfold s; lia).
      rewrite Z.pow_add_r by lia. nia. }
    nia. }
  pose proof (Zdigits2_upper q _ (conj Hq Bq) K) as Dq.
  unfold fexp in *. unfold prec in *. lia.
Qed.

Lemma div2_R (x : number) :
  is_real x = true -> Rabs (real_of x) <= pow2 16 ->
  approximates (x / 2)%float (real_of x / 2) (rounding_error (real_of x)).
Proof.
  unfold approximates, is_real, real_of. rewrite div_spec.
  pose proof (Prim2SF_valid x) as Vx.
  change (Prim2SF 2) with (S754_finite false 4503599627370496 (-51)).
  unfold SF64div.
  destruct (Prim2SF x) as [sx | sx | | sx mx ex]; try discriminate; intros _ B;
    cbn [SFdiv SFR] in *.
  - split; [reflexivity |]. cbn [SFR].
    replace (0 - 0 / 2) with 0 by field. rewrite Rabs_R0. apply rounding_error_nonneg.
  - cbn [valid_binary] in Vx.
    destruct (bounded_facts mx ex Vx) as (He & Hd & _).
    destruct (div2_core mx ex Vx) as (q & e' & l & -> & Hq & [QL QU] & HE).
    pose proof (magnitude_pos mx ex) as P.
    rewrite (sign_factor_abs _ _ (Rlt_le _ _ P)) in B.
    destruct (digits2_pos_bounds mx) as [DL _].
    assert (DL' : pow2 (Zpos (digits2_pos mx) - 1) <= IZR (Zpos mx)).
    { rewrite pow2_IZR by lia. apply IZR_le. exact DL. }
    pose proof (pow2_pos ex) as Pex.
    assert (Hde : (Zpos (digits2_pos mx) - 1 + ex <= 16)%Z).
    { apply pow2_le_inv. rewrite pow2_add.
      eapply Rle_trans; [| exact B]. apply Rmult_le_compat_r; lra. }
    assert (Hov : (Z.max e' (fexp prec emax (Zdigits2 q + e')) + 1 <= emax - prec)%Z).
    { rewrite emin_value in HE. change (emax - prec)%Z with 971%Z. lia. }
    destruct (round_aux_R (xorb sx false) q e' l Hq Hov) as (F & a & Ea & Ha & [AL AU] & _).
    split; [exact F |]. rewrite Ea, xorb_false_r.
    set (E := Z.max e' (fexp prec emax (Zdigits2 q + e'))) in *.
    assert (PE : pow2 E <= IZR (Zpos mx) * pow2 ex * pow2 (-52) + pow2 emin).
    { eapply Rle_trans; [apply pow2_le; exact HE |].
      pose proof (pow2_pos (-52)). pose proof (pow2_pos emin).
      assert (0 <= IZR (Zpos mx) * pow2 ex * pow2 (-52))
        by (apply Rmult_le_pos; lra).
      destruct (Z.max_spec (Zpos (digits2_pos mx) + ex - 54) emin) as [[_ ->] | [_ ->]];
        [lra |].
      replace (Zpos (digits2_pos mx) + ex - 54)%Z
        with ((Zpos (digits2_pos mx) - 1) + ex + -52 + -1)%Z by lia.
      rewrite !pow2_add.
      assert (pow2 (-1) <= 1).
      { change 1 with (pow2 0). apply pow2_le. lia. }
      pose proof (pow2_pos (-1)).
      assert (pow2 (Zpos (digits2_pos mx) - 1) * pow2 ex * pow2 (-52)
              <= IZR (Zpos mx) * pow2 ex * pow2 (-52)).
      { apply Rmult_le_compat_r; [lra |]. apply Rmult_le_compat_r; lra. }
      pose proof (pow2_pos (Zpos (digits2_pos mx) - 1)).
      assert (0 <= pow2 (Zpos (digits2_pos mx) - 1) * pow2 ex * pow2 (-52))
        by (apply Rmult_le_pos; [apply Rmult_le_pos |]; lra).
      nra. }
    assert (Pe' : pow2 e' <= pow2 E) by (apply pow2_le; unfold E; lia).
    assert (D : Rabs (a - IZR (Zpos mx) * pow2 ex / 2)
                <= 4 * (IZR (Zpos mx) * pow2 ex * pow2 (-52) + pow2 emin)).
    { apply Rabs_le. pose proof (pow2_pos e'). nra. }
    unfold rounding_error. rewrite (sign_factor_abs _ _ (Rlt_le _ _ P)).
    replace (sign_factor sx * a - sign_factor sx * (IZR (Zpos mx) * pow2 ex) / 2)
      with (sign_factor sx * (a - IZR (Zpos mx) * pow2 ex / 2)) by field.
    replace (Rabs (sign_factor sx * (a - IZR (Zpos mx) * pow2 ex / 2)))
      with (Rabs (a - IZR (Zpos mx) * pow2 ex / 2)); [exact D |].
    destruct sx; unfold sign_factor.
    + replace (-1 * (a - IZR (Zpos mx) * pow2 ex / 2))
        with (- (a - IZR (Zpos mx) * pow2 ex / 2)) by ring.
      symmetry. apply Rabs_Ropp.
    + rewrite Rmult_1_l. reflexivity.
Qed.

(** *** Comparisons *)
Lemma canonical_order (m1 m2 : positive) (e1 e2 : Z) :
  SpecFloat.bounded prec emax m1 e1 = true -> SpecFloat.bounded prec emax m2 e2 = true ->
  (e1 < e2)%Z ->
  IZR (Zpos m1) * pow2 e1 < IZR (Zpos m2) * pow2 e2.
Proof.
  intros B1 B2 H.
  destruct (bounded_facts m1 e1 B1) as (L1 & D1 & _).
  destruct (bounded_facts m2 e2 B2) as (L2 & _ & D2).
  specialize (D2 ltac:(lia)).
  destruct (digits2_pos_bounds m1) as [_ U1]. destruct (digits2_pos_bounds m2) as [W2 _].
  rewrite D2 in W2.
  assert (U : IZR (Zpos m1) < pow2 53).
  { rewrite pow2_IZR by lia. apply IZR_lt.
    eapply Z.lt_le_trans; [exact U1 |]. apply Z.pow_le_mono_r; unfold prec in *; lia. }
  assert (W : pow2 52 <= IZR (Zpos m2)).
  { rewrite pow2_IZR by lia. apply IZR_le. exact W2. }
  pose proof (pow2_pos e1). pose proof (pow2_pos e2).
  assert (S : pow2 53 * pow2 e1 <= pow2 52 * pow2 e2).
  { rewrite <- !pow2_add. apply pow2_le. lia. }
  assert (IZR (Zpos m1) * pow2 e1 < pow2 53 * pow2 e1)
    by (apply Rmult_lt_compat_r; lra).
  assert (pow2 52 * pow2 e2 <= IZR (Zpos m2) * pow2 e2)
    by (apply Rmult_le_compat_r; lra).
  lra.
Qed.

Lemma magnitude_compare (m1 m2 : positive) (e1 e2 : Z) :
  SpecFloat.bounded prec emax m1 e1 = true -> SpecFloat.bounded prec emax m2 e2 = true ->
  match (match (e1 ?= e2)%Z with
         | Lt => Lt
         | Gt => Gt
         | Eq => Pos.compare_cont Eq m1 m2
         end) with
  | Lt => IZR (Zpos m1) * pow2 e1 < IZR (Zpos m2) * pow2 e2
  | Eq => IZR (Zpos m1) * pow2 e1 = IZR (Zpos m2) * pow2 e2
  | Gt => IZR (Zpos m2) * pow2 e2 < IZR (Zpos m1) * pow2 e1
  end.
Proof.
  intros B1 B2. destruct (Z.compare_spec e1 e2) as [-> | H | H].
  - change (Pos.compare_cont Eq m1 m2) with (Pos.compare m1 m2).
    pose proof (pow2_pos e2).
    destruct (Pos.compare_spec m1 m2) as [-> | L | L].
    + reflexivity.
    + apply Rmult_lt_compat_r; [lra |]. apply IZR_lt. lia.
    + apply Rmult_lt_compat_r; [lra |]. apply IZR_lt. lia.
  - apply canonical_order; assumption.
  - apply canonical_order; assumption.
Qed.

(** [SFcompare] on two real numbers orders them as the real numbers are. *)
Lemma SFcompare_R (a b : spec_float) :
  valid_binary a = true -> valid_binary b = true ->
  SFfin a = true -> SFfin b = true ->
  match SFcompare a b with
  | Some Lt => SFR a < SFR b
  | Some Eq => SFR a = SFR b
  | Some Gt => SFR b < SFR a
  | None => False
  end.
Proof.
  destruct a as [sa | sa | | sa ma ea]; try discriminate;
    destruct b as [sb | sb | | sb mb eb]; try discriminate; intros Va Vb _ _;
    cbn [SFcompare SFR valid_binary] in *.
  - reflexivity.
  - pose proof (magnitude_pos mb eb). destruct sb; unfold sign_factor; lra.
  - pose proof (magnitude_pos ma ea). destruct sa; unfold sign_factor; lra.
  - pose proof (magnitude_pos ma ea). pose proof (magnitude_pos mb eb).
    pose proof (magnitude_compare ma mb ea eb Va Vb) as C.
    destruct sa, sb; unfold sign_factor; try lra.
    + assert (X : match (ea ?= eb)%Z with
                  | Eq => CompOpp (Pos.compare_cont Eq ma mb)
                  | Lt => Gt
                  | Gt => Lt
                  end
                  = CompOpp (match (ea ?= eb)%Z with
                             | Lt => Lt | Gt => Gt | Eq => Pos.compare_cont Eq ma mb end))
        by (destruct (ea ?= eb)%Z; reflexivity).
      rewrite X.
      destruct (match (ea ?= eb)%Z with
                | Lt => Lt | Gt => Gt | Eq => Pos.compare_cont Eq ma mb end);
        cbn [CompOpp]; lra.
    + destruct (match (ea ?= eb)%Z with
                | Lt => Lt | Gt => Gt | Eq => Pos.compare_cont Eq ma mb end); lra.
Qed.

Lemma ltb_R (x y : number) :
  is_real x = true -> is_real y = true ->
  ((x <? y)%float = true <-> real_of x < real_of y).
Proof.
  unfold is_real, real_of. intros Fx Fy. rewrite ltb_spec. unfold SFltb.
  pose proof (SFcompare_R _ _ (Prim2SF_valid x) (Prim2SF_valid y) Fx Fy) as C.
  destruct (SFcompare (Prim2SF x) (Prim2SF y)) as [[| |] |]; try contradiction;
    split; intros H; try discriminate; try reflexivity; lra.
Qed.

Lemma leb_R (x y : number) :
  is_real x = true -> is_real y = true ->
  ((x <=? y)%float = true <-> real_of x <= real_of y).
Proof.
  unfold is_real, real_of. intros Fx Fy. rewrite leb_spec. unfold SFleb.
  pose proof (SFcompare_R _ _ (Prim2SF_valid x) (Prim2SF_valid y) Fx Fy) as C.
  destruct (SFcompare (Prim2SF x) (Prim2SF y)) as [[| |] |]; try contradiction;
    split; intros H; try discriminate; try reflexivity; lra.
Qed.

End CompareR.

(** ** The curve on real numbers, and what [Cubic.calculate] computes *)

Module CurveR.

Import Rounding RoundingR OperationsR CompareR.

Local Open Scope R_scope.

Lemma Rabs_bounds (a b : R) : Rabs a <= b -> - b <= a <= b.
Proof. unfold Rabs. destruct (Rcase_abs a); lra. Qed.

Lemma pow2_neg (n : positive) : pow2 (Zneg n) = / IZR (2 ^ Zpos n).
Proof.
  unfold pow2. cbn [powerRZ]. rewrite pow_IZR, positive_nat_Z. reflexivity.
Qed.

Lemma pow2_16 : pow2 16 = 65536.
Proof. rewrite pow2_IZR by lia. reflexivity. Qed.

Lemma pow2_m45 : pow2 (-45) = 128 * pow2 (-52).
Proof.
  replace (-45)%Z with (7 + -52)%Z by lia. rewrite pow2_add, (pow2_IZR 7) by lia.
  reflexivity.
Qed.

Lemma rounding_error_small (y : R) : Rabs y <= 25 -> rounding_error y <= pow2 (-45).
Proof.
  intros H. unfold rounding_error. rewrite pow2_m45.
  assert (E : pow2 emin <= pow2 (-52)) by (apply pow2_le; rewrite emin_value; lia).
  pose proof (pow2_pos (-52)). pose proof (pow2_pos emin). pose proof (Rabs_pos y). nra.
Qed.

Lemma pow2_m45_small : 0 < pow2 (-45) <= / 1000000000000.
Proof.
  split; [apply pow2_pos |]. rewrite pow2_neg.
  change (2 ^ 45)%Z with 35184372088832%Z.
  apply Rinv_le_contravar; lra.
Qed.

Lemma approximates_exact (x : number) : is_real x = true -> approximates x (real_of x) 0.
Proof.
  intros H. split; [exact H |]. rewrite Rminus_diag, Rabs_R0. lra.
Qed.

Lemma approximates_weaken (x : number) (r d d' : R) :
  approximates x r d -> d <= d' -> approximates x r d'.
Proof. intros [F B] H. split; [exact F | lra]. Qed.

Lemma approximates_mul (x y : number) (r q d1 d2 : R) :
  approximates x r d1 -> approximates y q d2 ->
  Rabs r <= 4 -> Rabs q <= 4 -> d1 <= 1 -> d2 <= 1 ->
  approximates (x * y)%float (r * q) (5 * d1 + 5 * d2 + pow2 (-45)).
Proof.
  intros [Fx Bx] [Fy By] Hr Hq H1 H2.
  apply Rabs_bounds in Bx, By, Hr, Hq.
  assert (Vx : -5 <= real_of x <= 5) by lra.
  assert (Vy : -5 <= real_of y <= 5) by lra.
  assert (P : Rabs (real_of x * real_of y) <= 25) by (apply Rabs_le; nra).
  destruct (mul_R x y Fx Fy) as [F B]; [rewrite pow2_16; lra |].
  pose proof (rounding_error_small _ P) as Sm.
  apply Rabs_bounds in B.
  split; [exact F |]. apply Rabs_le.
  assert (0 <= d1) by lra. assert (0 <= d2) by lra.
  nra.
Qed.

Lemma approximates_add (x y : number) (r q d1 d2 : R) :
  approximates x r d1 -> approximates y q d2 ->
  Rabs r <= 8 -> Rabs q <= 8 -> d1 <= 1 -> d2 <= 1 ->
  approximates (x + y)%float (r + q) (d1 + d2 + pow2 (-45)).
Proof.
  intros [Fx Bx] [Fy By] Hr Hq H1 H2.
  apply Rabs_bounds in Bx, By, Hr, Hq.
  assert (P : Rabs (real_of x + real_of y) <= 25) by (apply Rabs_le; lra).
  destruct (add_R x y Fx Fy) as [F B]; [rewrite pow2_16; lra |].
  pose proof (rounding_error_small _ P) as Sm.
  apply Rabs_bounds in B.
  split; [exact F |]. apply Rabs_le. lra.
Qed.

Lemma approximates_sub (x y : number) (r q d1 d2 : R) :
  approximates x r d1 -> approximates y q d2 ->
  Rabs r <= 8 -> Rabs q <= 8 -> d1 <= 1 -> d2 <= 1 ->
  approximates (x - y)%float (r - q) (d1 + d2 + pow2 (-45)).
Proof.
  intros [Fx Bx] [Fy By] Hr Hq H1 H2.
  apply Rabs_bounds in Bx, By, Hr, Hq.
  assert (P : Rabs (real_of x - real_of y) <= 25) by (apply Rabs_le; lra).
  destruct (sub_R x y Fx Fy) as [F B]; [rewrite pow2_16; lra |].
  pose proof (rounding_error_small _ P) as Sm.
  apply Rabs_bounds in B.
  split; [exact F |]. apply Rabs_le. lra.
Qed.

Lemma approximates_half (x : number) (r d : R) :
  approximates x r d -> Rabs r <= 8 -> d <= 1 ->
  approximates (x / 2)%float (r / 2) (d + pow2 (-45)).
Proof.
  intros [Fx Bx] Hr H1.
  apply Rabs_bounds in Bx, Hr.
  assert (P : Rabs (real_of x) <= 25) by (apply Rabs_le; lra).
  destruct (div2_R x Fx) as [F B]; [rewrite pow2_16; lra |].
  pose proof (rounding_error_small _ P) as Sm.
  apply Rabs_bounds in B.
  split; [exact F |]. apply Rabs_le. lra.
Qed.

(** The constants of the code. *)
Lemma real_of_0 : is_real 0%float = true /\ real_of 0%float = 0.
Proof. split; reflexivity. Qed.

Lemma real_of_1 : is_real 1%float = true /\ real_of 1%float = 1.
Proof.
  split; [reflexivity |]. unfold real_of.
  change (Prim2SF 1%float) with (S754_finite false 4503599627370496 (-52)).
  cbn [SFR]. unfold sign_factor. rewrite pow2_neg.
  change (2 ^ 52)%Z with 4503599627370496%Z. field.
Qed.

Lemma real_of_3 : is_real 3%float = true /\ real_of 3%float = 3.
Proof.
  split; [reflexivity |]. unfold real_of.
  change (Prim2SF 3%float) with (S754_finite false 6755399441055744 (-51)).
  cbn [SFR]. unfold sign_factor. rewrite pow2_neg.
  change (2 ^ 51)%Z with 2251799813685248%Z. field.
Qed.

Lemma real_of_tolerance :
  is_real 0.00001%float = true
  /\ 999 / 100000000 <= real_of 0.00001%float <= 1001 / 100000000.
Proof.
  split; [reflexivity |]. unfold real_of.
  change (Prim2SF 0.00001%float) with (S754_finite false 5902958103587057 (-69)).
  cbn [SFR]. unfold sign_factor. rewrite pow2_neg.
  change (2 ^ 69)%Z with 590295810358705651712%Z. lra.
Qed.

Lemma unit_product (p q P : R) : 0 <= p <= P -> 0 <= q <= 1 -> 0 <= p * q <= P.
Proof. intros. nra. Qed.

Lemma unit_abs (p P : R) : 0 <= p <= P -> P <= 4 -> Rabs p <= 4.
Proof. intros. apply Rabs_le. lra. Qed.

(** [Cubic.calculate] on controls and a parameter in [[0, 1]] is the
    polynomial, up to [2^-35]. *)
Lemma calculate_R (a b m : number) :
  is_real a = true -> is_real b = true -> is_real m = true ->
  0 <= real_of a <= 1 -> 0 <= real_of b <= 1 -> 0 <= real_of m <= 1 ->
  approximates (Cubic.calculate a b m)
               (bezier (real_of a) (real_of b) (real_of m)) (pow2 (-35)).
Proof.
  intros Fa Fb Fm Ha Hb Hm.
  set (A := real_of a) in *. set (B := real_of b) in *. set (M := real_of m) in *.
  destruct pow2_m45_small as [U0 U1]. set (u := pow2 (-45)) in *.
  destruct real_of_3 as [F3 V3]. destruct real_of_1 as [F1 V1].
  pose proof (approximates_exact a Fa) as Ea. fold A in Ea.
  pose proof (approximates_exact b Fb) as Eb. fold B in Eb.
  pose proof (approximates_exact m Fm) as Em. fold M in Em.
  pose proof (approximates_exact 3%float F3) as E3. rewrite V3 in E3.
  pose proof (approximates_exact 1%float F1) as E1. rewrite V1 in E1.
  assert (HM1 : 0 <= 1 - M <= 1) by lra.
  (* the factors *)
  assert (P3a : approximates (3 * a)%float (3 * A) u).
  { eapply approximates_weaken;
      [apply (approximates_mul _ _ _ _ _ _ E3 Ea); try (apply Rabs_le); lra | fold u; lra]. }
  assert (P3b : approximates (3 * b)%float (3 * B) u).
  { eapply approximates_weaken;
      [apply (approximates_mul _ _ _ _ _ _ E3 Eb); try (apply Rabs_le); lra | fold u; lra]. }
  assert (Pom : approximates (1 - m)%float (1 - M) u).
  { eapply approximates_weaken;
      [apply (approximates_sub _ _ _ _ _ _ E1 Em); try (apply Rabs_le); lra | fold u; lra]. }
  (* the first term *)
  assert (R1 : 0 <= 3 * A <= 3) by lra.
  pose proof (unit_product _ _ _ R1 HM1) as R2.
  pose proof (unit_product _ _ _ R2 HM1) as R3.
  pose proof (unit_product _ _ _ R3 Hm) as R4.
  assert (T1a : approximates (3 * a * (1 - m))%float (3 * A * (1 - M)) (11 * u)).
  { eapply approximates_weaken;
      [apply (approximates_mul _ _ _ _ _ _ P3a Pom); try (apply Rabs_le); lra | fold u; lra]. }
  assert (T1b : approximates (3 * a * (1 - m) * (1 - m))%float
                             (3 * A * (1 - M) * (1 - M)) (61 * u)).
  { eapply approximates_weaken;
      [apply (approximates_mul _ _ _ _ _ _ T1a Pom); try (apply Rabs_le); lra | fold u; lra]. }
  assert (T1c : approximates (3 * a * (1 - m) * (1 - m) * m)%float
                             (3 * A * (1 - M) * (1 - M) * M) (306 * u)).
  { eapply approximates_weaken;
      [apply (approximates_mul _ _ _ _ _ _ T1b Em); try (apply Rabs_le); lra | fold u; lra]. }
  (* the second term *)
  assert (Q1 : 0 <= 3 * B <= 3) by lra.
  pose proof (unit_product _ _ _ Q1 HM1) as Q2.
  pose proof (unit_product _ _ _ Q2 Hm) as Q3.
  pose proof (unit_product _ _ _ Q3 Hm) as Q4.
  assert (T2a : approximates (3 * b * (1 - m))%float (3 * B * (1 - M)) (11 * u)).
  { eapply approximates_weaken;
      [apply (approximates_mul _ _ _ _ _ _ P3b Pom); try (apply Rabs_le); lra | fold u; lra]. }
  assert (T2b : approximates (3 * b * (1 - m) * m)%float (3 * B * (1 - M) * M) (56 * u)).
  { eapply approximates_weaken;
      [apply (approximates_mul _ _ _ _ _ _ T2a Em); try (apply Rabs_le); lra | fold u; lra]. }
  assert (T2c : approximates (3 * b * (1 - m) * m * m)%float
                             (3 * B * (1 - M) * M * M) (281 * u)).
  { eapply approximates_weaken;
      [apply (approximates_mul _ _ _ _ _ _ T2b Em); try (apply Rabs_le); lra | fold u; lra]. }
  (* the third term *)
  assert (C1 : 0 <= M <= 1) by lra.
  pose proof (unit_product _ _ _ C1 Hm) as C2.
  pose proof (unit_product _ _ _ C2 Hm) as C3.
  assert (T3a : approximates (m * m)%float (M * M) u).
  { eapply approximates_weaken;
      [apply (approximates_mul _ _ _ _ _ _ Em Em); try (apply Rabs_le); lra | fold u; lra]. }
  assert (T3b : approximates (m * m * m)%float (M * M * M) (6 * u)).
  { eapply approximates_weaken;
      [apply (approximates_mul _ _ _ _ _ _ T3a Em); try (apply Rabs_le); lra | fold u; lra]. }
  (* the sums *)
  assert (S1 : approximates (3 * a * (1 - m) * (1 - m) * m + 3 * b * (1 - m) * m * m)%float
                            (3 * A * (1 - M) * (1 - M) * M + 3 * B * (1 - M) * M * M)
                            (588 * u)).
  { eapply approximates_weaken;
      [apply (approximates_add _ _ _ _ _ _ T1c T2c); try (apply Rabs_le); lra | fold u; lra]. }
  assert (S2 : approximates
                 (3 * a * (1 - m) * (1 - m) * m + 3 * b * (1 - m) * m * m + m * m * m)%float
                 (3 * A * (1 - M) * (1 - M) * M + 3 * B * (1 - M) * M * M + M * M * M)
                 (595 * u)).
  { eapply approximates_weaken;
      [apply (approximates_add _ _ _ _ _ _ S1 T3b); try (apply Rabs_le); lra | fold u; lra]. }
  unfold Cubic.calculate, bezier.
  eapply approximates_weaken; [exact S2 |].
  replace (pow2 (-35)) with (1024 * u); [lra |].
  unfold u. replace (-35)%Z with (10 + -45)%Z by lia.
  rewrite pow2_add, (pow2_IZR 10) by lia. reflexivity.
Qed.

(** The curve of x-controls in [[0, 1]] starts at 0, ends at 1, does not
    decrease and has slope at most 3. *)
Lemma bezier_0 (a b : R) : bezier a b 0 = 0.
Proof. unfold bezier. ring. Qed.

Lemma bezier_1 (a b : R) : bezier a b 1 = 1.
Proof. unfold bezier. ring. Qed.

Lemma bezier_slope (a b u v : R) :
  0 <= a <= 1 -> 0 <= b <= 1 -> 0 <= u -> u <= v -> v <= 1 ->
  0 <= bezier a b v - bezier a b u <= 3 * (v - u).
Proof.
  intros Ha Hb Hu Huv Hv.
  set (q := u * u + u * v + v * v). set (s := u + v).
  set (D00 := q). set (D10 := 3 - 6 * s + 4 * q).
  set (D01 := 3 * s - 2 * q). set (D11 := 3 - 3 * s + q).
  assert (E : bezier a b v - bezier a b u
              = (v - u) * ((1 - a) * (1 - b) * D00 + a * (1 - b) * D10
                           + (1 - a) * b * D01 + a * b * D11)).
  { unfold bezier, D00, D10, D01, D11, q, s. ring. }
  assert (Q0 : 0 <= u * u <= u) by nra.
  assert (Q1 : 0 <= v * v <= v) by nra.
  assert (Q2 : 0 <= u * v <= u) by nra.
  assert (Q3 : u * v <= v) by nra.
  assert (Q4 : 0 <= (u - v) * (u - v)) by apply (Rle_0_sqr (u - v)).
  assert (B00 : 0 <= D00 <= 3) by (unfold D00, q; lra).
  assert (B10 : 0 <= D10 <= 3).
  { unfold D10, q, s. split; [| lra].
    assert (0 <= (u + v - 1) * (u + v - 1)) by apply (Rle_0_sqr (u + v - 1)). lra. }
  assert (B01 : 0 <= D01 <= 3).
  { unfold D01, q, s. split; [lra |].
    assert (0 <= (u + v - 1) * (u + v - 1)) by apply (Rle_0_sqr (u + v - 1)). lra. }
  assert (B11 : 0 <= D11 <= 3).
  { unfold D11, q, s. split; [| lra].
    assert (0 <= (u + v - 2) * (u + v - 2)) by apply (Rle_0_sqr (u + v - 2)). lra. }
  set (w00 := (1 - a) * (1 - b)). set (w10 := a * (1 - b)).
  set (w01 := (1 - a) * b). set (w11 := a * b).
  assert (W00 : 0 <= w00) by (unfold w00; nra).
  assert (W10 : 0 <= w10) by (unfold w10; nra).
  assert (W01 : 0 <= w01) by (unfold w01; nra).
  assert (W11 : 0 <= w11) by (unfold w11; nra).
  assert (W : w00 + w10 + w01 + w11 = 1) by (unfold w00, w10, w01, w11; ring).
  fold w00 w10 w01 w11 in E.
  assert (K : 0 <= w00 * D00 + w10 * D10 + w01 * D01 + w11 * D11 <= 3).
  { assert (0 <= w00 * D00 <= 3 * w00) by nra.
    assert (0 <= w10 * D10 <= 3 * w10) by nra.
    assert (0 <= w01 * D01 <= 3 * w01) by nra.
    assert (0 <= w11 * D11 <= 3 * w11) by nra.
    lra. }
  rewrite E. assert (0 <= v - u) by lra. nra.
Qed.

End CurveR.

(** ** The search on x-controls in [[0, 1]] *)

Section SearchR.

Import Rounding RoundingR OperationsR CompareR CurveR.

Local Open Scope R_scope.

Lemma unit_interval (c : number) :
  unit_control c = true -> is_real c = true /\ 0 <= real_of c <= 1.
Proof.
  unfold unit_control. intros H. apply andb_true_iff in H. destruct H as [H0 H1].
  assert (F : is_real c = true).
  { unfold is_real. rewrite leb_spec in H0, H1.
    change (Prim2SF 0%float) with (S754_zero false) in H0.
    change (Prim2SF 1%float) with (S754_finite false 4503599627370496 (-52)) in H1.
    destruct (Prim2SF c) as [s | s | | s m e]; try reflexivity.
    - destruct s; [discriminate H0 | discriminate H1].
    - discriminate H0. }
  split; [exact F |].
  destruct real_of_0 as [F0 V0]. destruct real_of_1 as [F1 V1].
  apply (leb_R _ _ F0 F) in H0. apply (leb_R _ _ F F1) in H1. lra.
Qed.

Lemma open_interval (t : number) :
  (0 <? t)%float = true -> (t <? 1)%float = true ->
  is_real t = true /\ 0 < real_of t < 1.
Proof.
  intros H0 H1.
  assert (F : is_real t = true).
  { unfold is_real. rewrite ltb_spec in H0, H1.
    change (Prim2SF 0%float) with (S754_zero false) in H0.
    change (Prim2SF 1%float) with (S754_finite false 4503599627370496 (-52)) in H1.
    destruct (Prim2SF t) as [s | s | | s m e]; try reflexivity.
    - destruct s; [discriminate H0 | discriminate H1].
    - discriminate H0. }
  split; [exact F |].
  destruct real_of_0 as [F0 V0]. destruct real_of_1 as [F1 V1].
  apply (ltb_R _ _ F0 F) in H0. apply (ltb_R _ _ F F1) in H1. lra.
Qed.

Lemma pow2_m35 : pow2 (-35) = / 34359738368.
Proof. rewrite pow2_neg. reflexivity. Qed.

Lemma pow2_m40 : pow2 (-40) = / 1099511627776.
Proof. rewrite pow2_neg. reflexivity. Qed.

Lemma pow2_m45_value : pow2 (-45) = / 35184372088832.
Proof. rewrite pow2_neg. reflexivity. Qed.

Lemma pow2_m18 : pow2 (-18) = / 262144.
Proof. rewrite pow2_neg. reflexivity. Qed.

Lemma pow2_halved (k : nat) : pow2 (- Z.of_nat (S k)) = pow2 (- Z.of_nat k) / 2.
Proof.
  replace (- Z.of_nat (S k))%Z with (- Z.of_nat k + -1)%Z by lia.
  rewrite pow2_add, (pow2_neg 1). change (2 ^ 1)%Z with 2%Z. field.
Qed.

Lemma pow2_level (k : nat) : (k <= 18)%nat -> pow2 (-18) <= pow2 (- Z.of_nat k) <= 1.
Proof.
  intros H. split; [apply pow2_le; lia |].
  change 1 with (pow2 0). apply pow2_le. lia.
Qed.

Variable curves : list number.
Variable t : number.

Hypothesis control_0 : is_real (index curves 0) = true /\ 0 <= real_of (index curves 0) <= 1.
Hypothesis control_2 : is_real (index curves 2) = true /\ 0 <= real_of (index curves 2) <= 1.
Hypothesis time_inside : is_real t = true /\ 0 < real_of t < 1.

(** One evaluation of the guard and of the body, on an interval that
    satisfies the invariant: the search returns from inside the loop, or it
    goes on with an interval that satisfies the invariant, which it cannot
    after 18 halvings. *)
Lemma search_step_R (k : nat) (st : Cubic.search_state) :
  (k <= 18)%nat ->
  search_invariant (real_of (index curves 0)) (real_of (index curves 2)) (real_of t) k st ->
  (exists m : number,
      Cubic.search_step curves t st
      = Cubic.Found (Cubic.calculate (index curves 1) (index curves 3) m)
      /\ (Math_abs (t - Cubic.calculate (index curves 0) (index curves 2) m) <? 0.00001)%float
         = true)
  \/ ((k < 18)%nat
      /\ exists st' : Cubic.search_state,
           Cubic.search_step curves t st = Cubic.Continue st'
           /\ search_invariant (real_of (index curves 0)) (real_of (index curves 2))
                (real_of t) (S k) st').
Proof.
  intros Hk (Fs & Fe & HS & HE & HW & HL & HR).
  destruct control_0 as [Fa Ha]. destruct control_2 as [Fb Hb].
  destruct time_inside as [Ft HT].
  set (a := real_of (index curves 0)) in *. set (b := real_of (index curves 2)) in *.
  set (T := real_of t) in *.
  set (s := Cubic.start st) in *. set (e := Cubic.end_ st) in *.
  set (S0 := real_of s) in *. set (E0 := real_of e) in *.
  pose proof (pow2_level k Hk) as [PL PU]. set (p := pow2 (- Z.of_nat k)) in *.
  rewrite pow2_m18 in PL. rewrite pow2_m40 in HW. rewrite pow2_m35 in HL, HR.
  assert (Kb : 0 <= IZR (Z.of_nat k) <= 18).
  { split; [apply IZR_le; lia | apply IZR_le; lia]. }
  apply Rabs_bounds in HW.
  assert (HW' : - (18 * / 1099511627776) <= E0 - S0 - p <= 18 * / 1099511627776) by nra.
  (* the guard *)
  assert (G : (s <? e)%float = true) by (apply (ltb_R _ _ Fs Fe); fold S0 E0; lra).
  (* the midpoint *)
  pose proof (approximates_add _ _ _ _ _ _ (approximates_exact s Fs) (approximates_exact e Fe))
    as Asum.
  fold S0 E0 in Asum.
  specialize (Asum ltac:(apply Rabs_le; lra) ltac:(apply Rabs_le; lra) ltac:(lra) ltac:(lra)).
  pose proof (approximates_half _ _ _ Asum ltac:(apply Rabs_le; lra)) as Amid.
  rewrite pow2_m45_value in Amid. specialize (Amid ltac:(lra)).
  destruct Amid as [Fm Bm]. set (mid := ((s + e) / 2)%float) in *.
  set (M := real_of mid) in *. apply Rabs_bounds in Bm.
  assert (HM : S0 <= M <= E0) by lra.
  assert (HM01 : 0 <= M <= 1) by lra.
  (* the x-component there *)
  destruct (calculate_R (index curves 0) (index curves 2) mid Fa Fb Fm Ha Hb HM01) as [Fx Bx].
  fold a b M in Bx. rewrite pow2_m35 in Bx. apply Rabs_bounds in Bx.
  set (xEst := Cubic.calculate (index curves 0) (index curves 2) mid) in *.
  set (X := real_of xEst) in *.
  (* the distance to the time *)
  pose proof (approximates_sub _ _ _ _ _ _ (approximates_exact t Ft) (approximates_exact xEst Fx))
    as Adist.
  fold T X in Adist.
  pose proof (bezier_slope a b S0 M Ha Hb HS (proj1 HM) (proj2 HM01)) as [SL1 SL2].
  pose proof (bezier_slope a b M E0 Ha Hb (proj1 HM01) (proj2 HM) HE) as [SR1 SR2].
  pose proof (bezier_slope a b 0 M Ha Hb ltac:(lra) (proj1 HM01) (proj2 HM01)) as [Z1 Z2].
  rewrite bezier_0 in Z1, Z2.
  assert (HX : -1 <= X <= 4) by lra.
  specialize (Adist ltac:(apply Rabs_le; lra) ltac:(apply Rabs_le; lra) ltac:(lra) ltac:(lra)).
  rewrite pow2_m45_value in Adist. destruct Adist as [Fd Bd].
  apply Rabs_bounds in Bd.
  destruct (abs_R _ Fd) as [Fabs Vabs].
  destruct real_of_tolerance as [Ftol Vtol].
  unfold Cubic.search_step. fold s e. rewrite G. cbv zeta. fold mid xEst.
  unfold Math_abs.
  destruct (abs (t - xEst) <? 0.00001)%float eqn:Test.
  - left. exists mid. split; [reflexivity |]. fold xEst. exact Test.
  - right.
    assert (Far : real_of 0.00001%float <= Rabs (real_of (t - xEst)%float)).
    { destruct (Rle_or_lt (real_of 0.00001%float) (Rabs (real_of (t - xEst)%float)))
        as [| Lt]; [assumption |].
      rewrite <- Vabs in Lt. apply (ltb_R _ _ Fabs Ftol) in Lt. congruence. }
    assert (Hk' : (k < 18)%nat).
    { destruct (Nat.eq_dec k 18) as [-> | Hne]; [| lia]. exfalso.
      assert (Pv : p = / 262144) by (unfold p; rewrite <- pow2_m18; reflexivity).
      assert (Rabs (real_of (t - xEst)%float) < real_of 0.00001%float); [| lra].
      apply Rabs_def1; lra. }
    split; [exact Hk' |].
    assert (Kn : IZR (Z.of_nat (S k)) = IZR (Z.of_nat k) + 1)
      by (rewrite Nat2Z.inj_succ, succ_IZR; reflexivity).
    destruct (xEst <? t)%float eqn:Side.
    + apply (ltb_R _ _ Fx Ft) in Side. fold X T in Side.
      eexists. split; [reflexivity |].
      unfold search_invariant. cbn [Cubic.start Cubic.end_]. fold e E0 M a b T.
      rewrite pow2_halved, Kn, pow2_m40, pow2_m35. fold p.
      split; [exact Fm |]. split; [exact Fe |]. split; [lra |]. split; [exact HE |].
      split; [apply Rabs_le; lra |]. split; lra.
    + assert (Side' : T <= X).
      { destruct (Rle_or_lt T X) as [| Lt]; [assumption |].
        apply (ltb_R _ _ Fx Ft) in Lt. congruence. }
      eexists. split; [reflexivity |].
      unfold search_invariant. cbn [Cubic.start Cubic.end_]. fold s S0 M a b T.
      rewrite pow2_halved, Kn, pow2_m40, pow2_m35. fold p.
      split; [exact Fs |]. split; [exact Fm |]. split; [exact HS |]. split; [lra |].
      split; [apply Rabs_le; lra |]. split; lra.
Qed.

Lemma search_R (n k : nat) (st : Cubic.search_state) (extra : nat) :
  (k + n = 18)%nat ->
  search_invariant (real_of (index curves 0)) (real_of (index curves 2)) (real_of t) k st ->
  exists m : number,
    Cubic.search (S n + extra) curves t st
    = Some (Cubic.calculate (index curves 1) (index curves 3) m)
    /\ (Math_abs (t - Cubic.calculate (index curves 0) (index curves 2) m) <? 0.00001)%float
       = true.
Proof.
  revert k st. induction n as [| n IH]; intros k st Hk Inv.
  - destruct (search_step_R k st ltac:(lia) Inv) as [(m & E & Hm) | [Hlt _]]; [| lia].
    exists m. cbn [Cubic.search Nat.add]. rewrite E. split; [reflexivity | exact Hm].
  - destruct (search_step_R k st ltac:(lia) Inv) as [(m & E & Hm) | (_ & st' & E & Inv')].
    + exists m. cbn [Cubic.search Nat.add]. rewrite E. split; [reflexivity | exact Hm].
    + destruct (IH (S k) st' ltac:(lia) Inv') as (m & Es & Hm).
      exists m. change (S (S n) + extra)%nat with (S (S n + extra)).
      cbn [Cubic.search]. rewrite E. split; [exact Es | exact Hm].
Qed.

Lemma initial_invariant :
  search_invariant (real_of (index curves 0)) (real_of (index curves 2)) (real_of t) 0
    (Cubic.mkState 0%float 0%float 1%float).
Proof.
  destruct control_0 as [Fa Ha]. destruct control_2 as [Fb Hb].
  destruct time_inside as [Ft HT].
  destruct real_of_0 as [F0 V0]. destruct real_of_1 as [F1 V1].
  unfold search_invariant. cbn [Cubic.start Cubic.end_].
  rewrite V0, V1, bezier_0, bezier_1, pow2_m35.
  split; [exact F0 |]. split; [exact F1 |]. split; [lra |]. split; [lra |].
  split; [| split; lra].
  change (pow2 (- Z.of_nat 0)) with 1. cbn [Z.of_nat].
  replace (1 - 0 - 1) with 0 by ring. rewrite Rabs_R0, Rmult_0_l. lra.
Qed.

End SearchR.

(** ** CubicBezierSolver: the branch for [t <= 0] *)

Section CubicOutside.

Local Open Scope float_scope.

(** C3, as stated, fails: for the control set [[0, 1, 1, 2]] and [t = -1] the
    specification's gradient is [c3/c2 = 2] (because [c0 == 0] and [c2 > 0]), so
    it predicts [-2]; [getValue] tests [c1 === 0] instead, keeps the gradient
    [0] and returns [-0]. *)
Lemma getValue_start_gradient_counterexample :
  exists v, Cubic.getValue 1 [0; 1; 1; 2] (-1) = Some v
            /\ (v =? Cubic.startGradient_spec [0; 1; 1; 2] * (-1)) = false.
Proof. exists (-0). split; reflexivity. Qed.

(** C3, amended: for every control set [[c0, c1, c2, c3]] and every [t <= 0],
    [getValue(t)] returns [gradient * t] with no iteration of the search, where
    [gradient = c1/c0] if [c0 > 0]; else [c3/c2] if [c1 == 0] and [c2 > 0];
    else [0].  It is the specification's gradient whenever [c0 > 0], or [c0] and
    [c1] are both zero or both non-zero. *)
Theorem getValue_nonpositive (fuel : nat) (c0 c1 c2 c3 t : number) :
  (t <=? 0) = true ->
  Cubic.getValue fuel [c0; c1; c2; c3] t
  = Some ((if 0 <? c0 then c1 / c0
           else if (c1 =? 0) && (0 <? c2) then c3 / c2
           else 0) * t)
  /\ ((0 <? c0) = true \/ (c0 =? 0) = (c1 =? 0) ->
      Cubic.getValue fuel [c0; c1; c2; c3] t
      = Some (Cubic.startGradient_spec [c0; c1; c2; c3] * t)).
Proof.
  intros Ht. unfold Cubic.getValue. rewrite Ht.
  unfold Cubic.startGradient, Cubic.startGradient_spec, index. cbn [nth].
  split; [reflexivity |].
  intros [H | H].
  - rewrite H. reflexivity.
  - rewrite H. reflexivity.
Qed.

Lemma getValue_nonpositive_witness :
  Cubic.getValue 0 [0.25; 0.1; 0.25; 1.0] (-2) = Some (0.1 / 0.25 * (-2)).
Proof.
  apply (proj1 (getValue_nonpositive 0 0.25 0.1 0.25 1.0 (-2) eq_refl)).
Defined.

End CubicOutside.

(** ** AnimationKeySynthesizer: [scaleByte] and the curve controls *)

Section ScaleByte.

Local Open Scope float_scope.





(** The lower bound [isOdd(counter)] passes to [solve]. *)
Lemma isOdd_parity (i : nat) :
  Utils.isOdd (Z.of_nat i) = if Nat.even i then 0 else -1.
Proof.
  unfold Utils.isOdd.
  destruct (Nat.even i) eqn:E.
  - apply Nat.even_spec in E. destruct E as [k ->].
    rewrite Nat2Z.inj_mul. change (Z.of_nat 2) with 2%Z.
    rewrite Z.mul_comm, Z.rem_mul by lia. reflexivity.
  - assert (O : Nat.odd i = true) by (rewrite <- Nat.negb_even, E; reflexivity).
    apply Nat.odd_spec in O. destruct O as [k ->].
    rewrite Nat2Z.inj_add, Nat2Z.inj_mul. change (Z.of_nat 2) with 2%Z.
    change (Z.of_nat 1) with 1%Z.
    rewrite Z.rem_mod_nonneg by lia.
    replace (2 * Z.of_nat k + 1)%Z with (1 + Z.of_nat k * 2)%Z by lia.
    rewrite Z.mod_add by lia. reflexivity.
Qed.

Lemma nth_error_mapi_from {A B : Type} (f : A -> nat -> B) (l : list A) :
  forall (counter i : nat),
    nth_error (mapi_from counter f l) i
    = option_map (fun item => f item (counter + i)%nat) (nth_error l i).
Proof.
  induction l as [| a l IH]; intros counter i.
  - destruct i; reflexivity.
  - destruct i as [| i]; cbn [mapi_from nth_error option_map].
    + rewrite Nat.add_0_r. reflexivity.
    + rewrite IH. replace (S counter + i)%nat with (counter + S i)%nat by lia.
      reflexivity.
Qed.

(** C2, as stated, fails: on the frame row
    [[10,20,30,40,50,60,128,5,5,5,5]] the control at position 0 (even) is
    [scaleByte(5, 0, 1, false) = 0.02], not [scaleByte(5, -1, 1, false) = -0.96]. *)
Lemma curve_lower_bound_counterexample :
  let frames := map num_of_Z [10; 20; 30; 40; 50; 60; 128; 5; 5; 5; 5]%Z in
  exists item, nth_error (slice_from 7 frames) 0 = Some item
    /\ nth_error (Transaction.curvesOf frames) 0
       = Some (Transaction.solve item 0 1 false)
    /\ (Transaction.solve item 0 1 false =? Transaction.solve item (-1) 1 false) = false.
Proof. exists 5. repeat split; reflexivity. Qed.

(** C2, amended: for every frame row, the curve-control value at 0-based
    position [i] of [frameRow[7:]] is transformed by
    [scaleByte(value, lower, 1, floor=false)] where the lower bound is [0] when
    [i] is even and [-1] when [i] is odd. *)
Theorem curvesOf_lower_bound (frames : list number) (i : nat) :
  nth_error (Transaction.curvesOf frames) i
  = option_map
      (fun value => Transaction.solve value (if Nat.even i then 0 else -1) 1 false)
      (nth_error (slice_from 7 frames) i).
Proof.
  unfold Transaction.curvesOf, mapi. rewrite nth_error_mapi_from.
  cbn [Nat.add]. rewrite isOdd_parity. reflexivity.
Qed.

End ScaleByte.

(** ** CubicBezierSolver: the endpoints *)

Section CubicEndpoints.

Local Open Scope float_scope.

Lemma in_bytes (v : Z) : (0 <= v <= 255)%Z -> In v bytes.
Proof.
  intros H. unfold bytes. apply in_map_iff. exists (Z.to_nat v). split.
  - apply Z2Nat.id. lia.
  - apply in_seq. lia.
Qed.

(** Every quotient a gradient can be is finite: checked on all pairs of an
    x-control and a y-control. *)
Lemma start_quotients_checked :
  forallb (fun x => forallb (fun y => if 0 <? x then finite (y / x) else true)
                            (map y_control bytes))
          (map x_control bytes)
  = true.
Proof. vm_compute. reflexivity. Qed.

Lemma end_quotients_checked :
  forallb (fun x => forallb (fun y => if x <? 1 then finite ((y - 1) / (x - 1)) else true)
                            (map y_control bytes))
          (map x_control bytes)
  = true.
Proof. vm_compute. reflexivity. Qed.

Lemma start_quotient_finite (a b : Z) :
  (0 <= a <= 255)%Z -> (0 <= b <= 255)%Z -> (0 <? x_control a) = true ->
  finite (y_control b / x_control a) = true.
Proof.
  intros Ha Hb Hpos.
  pose proof (proj1 (forallb_forall _ _) start_quotients_checked
                (x_control a) (in_map x_control _ _ (in_bytes a Ha))) as E.
  pose proof (proj1 (forallb_forall _ _) E
                (y_control b) (in_map y_control _ _ (in_bytes b Hb))) as E'.
  cbv beta in E'. rewrite Hpos in E'. exact E'.
Qed.

Lemma end_quotient_finite (a b : Z) :
  (0 <= a <= 255)%Z -> (0 <= b <= 255)%Z -> (x_control a <? 1) = true ->
  finite ((y_control b - 1) / (x_control a - 1)) = true.
Proof.
  intros Ha Hb Hlt.
  pose proof (proj1 (forallb_forall _ _) end_quotients_checked
                (x_control a) (in_map x_control _ _ (in_bytes a Ha))) as E.
  pose proof (proj1 (forallb_forall _ _) E
                (y_control b) (in_map y_control _ _ (in_bytes b Hb))) as E'.
  cbv beta in E'. rewrite Hlt in E'. exact E'.
Qed.

Lemma valid_controls_shape (curves : list number) :
  valid_controls curves ->
  exists v0 v1 v2 v3 : Z,
    (0 <= v0 <= 255)%Z /\ (0 <= v1 <= 255)%Z /\ (0 <= v2 <= 255)%Z /\ (0 <= v3 <= 255)%Z
    /\ curves = [x_control v0; y_control v1; x_control v2; y_control v3].
Proof.
  intros [row [Hlen [Hall ->]]].
  do 11 (destruct row as [| ? row]; [discriminate Hlen |]).
  destruct row; [| discriminate Hlen].
  repeat match goal with
         | H : Forall _ (_ :: _) |- _ => inversion H; subst; clear H
         end.
  do 4 eexists. repeat split; try eassumption; lia.
Qed.

Lemma valid_gradients_finite (curves : list number) :
  valid_controls curves ->
  finite (Cubic.startGradient curves) = true /\ finite (Cubic.endGradient curves) = true.
Proof.
  intros H.
  destruct (valid_controls_shape curves H) as [v0 [v1 [v2 [v3 [H0 [H1 [H2 [H3 ->]]]]]]]].
  unfold Cubic.startGradient, Cubic.endGradient, index. cbn [nth]. split.
  - destruct (0 <? x_control v0) eqn:E0.
    + apply start_quotient_finite; assumption.
    + destruct ((y_control v1 =? 0) && (0 <? x_control v2)) eqn:E1; [| reflexivity].
      apply andb_true_iff in E1. apply start_quotient_finite; tauto.
  - destruct (x_control v2 <? 1) eqn:E2.
    + apply end_quotient_finite; assumption.
    + destruct ((x_control v2 =? 1) && (x_control v0 <? 1)) eqn:E1; [| reflexivity].
      apply andb_true_iff in E1. apply end_quotient_finite; tauto.
Qed.

(** Whenever the two gradients are finite, the curve is anchored. *)
Lemma getValue_anchored (fuel : nat) (curves : list number) :
  finite (Cubic.startGradient curves) = true ->
  finite (Cubic.endGradient curves) = true ->
  (exists v, Cubic.getValue fuel curves 0 = Some v /\ (v =? 0) = true)
  /\ Cubic.getValue fuel curves 1 = Some 1.
Proof.
  intros Hs He. split.
  - exists (Cubic.startGradient curves * 0). split; [reflexivity |].
    destruct (mul_zero_finite _ Hs) as [s E]. exact (eqb_zero_of_SF _ s E).
  - unfold Cubic.getValue.
    change (1 <=? 0) with false. change (1.0 <=? 1) with true.
    change (1 - 1.0) with 0. cbn iota.
    destruct (mul_zero_finite _ He) as [s E].
    rewrite (one_plus_zero _ s E). reflexivity.
Qed.

(** [Number.isFinite] in terms of the representation. *)
Lemma finite_by_cases (x : float) :
  finite x = match Prim2SF x with
             | S754_zero _ | S754_finite _ _ _ => true
             | _ => false
             end.
Proof.
  unfold finite, is_finite, is_nan, is_infinity.
  rewrite !FloatAxioms.eqb_spec, abs_spec.
  change (Prim2SF infinity) with (S754_infinity false).
  destruct (Prim2SF x) as [s | [|] | | [|] m e]; try reflexivity;
    unfold SFabs, SFeqb, SFcompare;
    rewrite Z.compare_refl, Pos.compare_cont_refl; reflexivity.
Qed.

(** An infinity or NaN times zero is NaN. *)
Lemma mul_zero_not_finite (g : float) :
  finite g = false -> Prim2SF (g * 0) = S754_nan.
Proof.
  rewrite finite_by_cases, mul_spec, SF_zero.
  destruct (Prim2SF g) as [s | s | | s m e]; intros H; try discriminate H; reflexivity.
Qed.

(** [getValue(0)] and [getValue(1)], whatever the controls: the gradient
    times zero, and one plus the gradient times zero. *)
Lemma getValue_at_endpoints (fuel : nat) (curves : list number) :
  Cubic.getValue fuel curves 0 = Some (Cubic.startGradient curves * 0)
  /\ Cubic.getValue fuel curves 1 = Some (1 + Cubic.endGradient curves * 0).
Proof. split; reflexivity. Qed.

(** C7, as stated, fails: the four controls [[5e-324, 1, 0.5, 0.5]] are
    finite numbers of the unit square, yet the start gradient [1 / 5e-324]
    overflows to infinity and [getValue(0)] returns [Infinity * 0], NaN, which
    is not [== 0]; for [[0.5, 0.5, 0.9999999999999999, 1e300]] the end
    gradient overflows and [getValue(1)] returns NaN, which is not [== 1]. *)
Lemma getValue_endpoints_counterexample :
  List.length [5e-324; 1; 0.5; 0.5] = 4%nat
  /\ forallb finite [5e-324; 1; 0.5; 0.5] = true
  /\ forallb (fun c => (0 <=? c) && (c <=? 1)) [5e-324; 1; 0.5; 0.5] = true
  /\ (forall fuel : nat,
        exists v, Cubic.getValue fuel [5e-324; 1; 0.5; 0.5] 0 = Some v
                  /\ (v =? 0) = false /\ is_nan v = true)
  /\ List.length [0.5; 0.5; 0.9999999999999999; 1e300] = 4%nat
  /\ forallb finite [0.5; 0.5; 0.9999999999999999; 1e300] = true
  /\ (forall fuel : nat,
        exists v, Cubic.getValue fuel [0.5; 0.5; 0.9999999999999999; 1e300] 1 = Some v
                  /\ (v =? 1) = false /\ is_nan v = true).
Proof.
  split; [reflexivity |]. split; [reflexivity |]. split; [reflexivity |].
  split; [intros fuel; eexists; split; [apply getValue_at_endpoints | split; reflexivity] |].
  split; [reflexivity |]. split; [reflexivity |].
  intros fuel. eexists. split; [apply getValue_at_endpoints | split; reflexivity].
Qed.

(** C7, amended: for every control set, [evaluate(0) == 0] exactly when the
    start gradient [getValue] computes from the controls is a finite number,
    and [evaluate(1) == 1] exactly when the end gradient it computes is a
    finite number; otherwise the result is NaN.  [getValue(0)] is the start
    gradient times zero and [getValue(1)] is one plus the end gradient times
    zero, without entering the search.  So the curve is anchored at both ends
    for every control set whose two gradients are finite, and for no other. *)
Theorem getValue_endpoints (curves : list number) (fuel : nat) :
  (exists v, Cubic.getValue fuel curves 0 = Some v
             /\ (v =? 0) = finite (Cubic.startGradient curves)
             /\ is_nan v = negb (finite (Cubic.startGradient curves)))
  /\ (exists v, Cubic.getValue fuel curves 1 = Some v
                /\ (v =? 1) = finite (Cubic.endGradient curves)
                /\ is_nan v = negb (finite (Cubic.endGradient curves))).
Proof.
  destruct (getValue_at_endpoints fuel curves) as [E0 E1]. split.
  - eexists. split; [exact E0 |].
    destruct (finite (Cubic.startGradient curves)) eqn:F.
    + destruct (mul_zero_finite _ F) as [s E].
      split; [exact (eqb_zero_of_SF _ s E) |].
      unfold is_nan. rewrite FloatAxioms.eqb_spec, E. reflexivity.
    + unfold is_nan. rewrite !FloatAxioms.eqb_spec, (mul_zero_not_finite _ F).
      split; reflexivity.
  - eexists. split; [exact E1 |].
    destruct (finite (Cubic.endGradient curves)) eqn:F.
    + destruct (mul_zero_finite _ F) as [s E].
      rewrite (one_plus_zero _ s E). split; reflexivity.
    + unfold is_nan.
      rewrite !FloatAxioms.eqb_spec, add_spec, (mul_zero_not_finite _ F).
      split; reflexivity.
Qed.

(** X20.  For every control set animation-key synthesis builds, the curve
    controls of a frame row of eleven 8-bit values, both gradients are finite
    numbers, so [evaluate(0) == 0] and [evaluate(1) == 1]: [getValue(0)]
    returns a zero and [getValue(1)] returns [1]. *)
Theorem getValue_endpoints_pipeline (curves : list number) :
  valid_controls curves ->
  forall fuel : nat,
    (exists v, Cubic.getValue fuel curves 0 = Some v /\ (v =? 0) = true)
    /\ Cubic.getValue fuel curves 1 = Some 1.
Proof.
  intros H fuel. destruct (valid_gradients_finite curves H) as [Hs He].
  apply getValue_anchored; assumption.
Qed.

Lemma getValue_endpoints_pipeline_witness :
  Cubic.getValue 0
    (Transaction.curvesOf (map num_of_Z [10; 20; 30; 40; 50; 60; 128; 5; 5; 5; 5]%Z)) 1
  = Some 1.
Proof.
  apply (getValue_endpoints_pipeline
           (Transaction.curvesOf (map num_of_Z [10; 20; 30; 40; 50; 60; 128; 5; 5; 5; 5]%Z))).
  exists [10; 20; 30; 40; 50; 60; 128; 5; 5; 5; 5]%Z.
  split; [reflexivity |]. split; [| reflexivity].
  repeat constructor; lia.
Defined.

End CubicEndpoints.

(** ** CubicBezierSolver: the search with a NaN in it *)

Module NanFacts.

Local Open Scope float_scope.

Lemma SF_nan : Prim2SF nan = S754_nan.
Proof. reflexivity. Qed.

Lemma mul_nan_l (x : float) : nan * x = nan.
Proof. apply Prim2SF_inj. rewrite mul_spec, SF_nan. reflexivity. Qed.

Lemma mul_nan_r (x : float) : x * nan = nan.
Proof.
  apply Prim2SF_inj. rewrite mul_spec, SF_nan.
  destruct (Prim2SF x) as [s | s | | s m e]; reflexivity.
Qed.

Lemma add_nan_l (x : float) : nan + x = nan.
Proof. apply Prim2SF_inj. rewrite add_spec, SF_nan. reflexivity. Qed.

Lemma add_nan_r (x : float) : x + nan = nan.
Proof.
  apply Prim2SF_inj. rewrite add_spec, SF_nan.
  destruct (Prim2SF x) as [s | s | | s m e]; reflexivity.
Qed.

Lemma sub_nan_l (x : float) : nan - x = nan.
Proof. apply Prim2SF_inj. rewrite sub_spec, SF_nan. reflexivity. Qed.

Lemma sub_nan_r (x : float) : x - nan = nan.
Proof.
  apply Prim2SF_inj. rewrite sub_spec, SF_nan.
  destruct (Prim2SF x) as [s | s | | s m e]; reflexivity.
Qed.

Lemma div_nan_l (x : float) : nan / x = nan.
Proof. apply Prim2SF_inj. rewrite div_spec, SF_nan. reflexivity. Qed.

Lemma ltb_nan_l (x : float) : (nan <? x) = false.
Proof. rewrite ltb_spec, SF_nan. reflexivity. Qed.

Lemma ltb_nan_r (x : float) : (x <? nan) = false.
Proof.
  rewrite ltb_spec, SF_nan.
  destruct (Prim2SF x) as [s | s | | s m e]; try reflexivity; destruct s; reflexivity.
Qed.

Lemma calculate_nan_a (b m : number) : Cubic.calculate nan b m = nan.
Proof.
  unfold Cubic.calculate. change (3.0 * nan) with nan.
  rewrite !mul_nan_l, !add_nan_l. reflexivity.
Qed.

Lemma calculate_nan_b (a m : number) : Cubic.calculate a nan m = nan.
Proof.
  unfold Cubic.calculate. change (3.0 * nan) with nan.
  rewrite !mul_nan_l, add_nan_r, add_nan_l. reflexivity.
Qed.

(** There is one NaN. *)
Lemma is_nan_eq (x : float) : is_nan x = true -> x = nan.
Proof.
  unfold is_nan. rewrite FloatAxioms.eqb_spec. intros H.
  apply Prim2SF_inj. change (Prim2SF nan) with S754_nan.
  destruct (Prim2SF x) as [s | [|] | | [|] m e]; try reflexivity; exfalso;
    revert H; unfold SFeqb, SFcompare;
    rewrite ?Z.compare_refl, ?Pos.compare_cont_refl; discriminate.
Qed.

End NanFacts.

Import NanFacts.

Section BlindSteps.

Local Open Scope float_scope.

Lemma search_step_blind (curves : list number) (time : number) (s : Cubic.search_state) :
  blind curves time ->
  Cubic.search_step curves time s
  = if Cubic.start s <? Cubic.end_ s then
      Cubic.Continue (Cubic.mkState (Cubic.start s) ((Cubic.start s + Cubic.end_ s) / 2)
                        ((Cubic.start s + Cubic.end_ s) / 2))
    else Cubic.Exited (Cubic.calculate (index curves 1) (index curves 3) (Cubic.mid s)).
Proof.
  intros H. unfold Cubic.search_step.
  destruct (Cubic.start s <? Cubic.end_ s); [| reflexivity]. cbv zeta.
  set (m := (Cubic.start s + Cubic.end_ s) / 2).
  assert (E : Math_abs (time - Cubic.calculate (index curves 0) (index curves 2) m) = nan
              /\ (Cubic.calculate (index curves 0) (index curves 2) m <? time) = false).
  { destruct H as [H | [H | H]]; rewrite H.
    - rewrite calculate_nan_a, sub_nan_r, ltb_nan_l. split; reflexivity.
    - rewrite calculate_nan_b, sub_nan_r, ltb_nan_l. split; reflexivity.
    - rewrite sub_nan_l, ltb_nan_r. split; reflexivity. }
  destruct E as [E1 E2]. rewrite E1, E2. reflexivity.
Qed.

Lemma search_blind (fuel : nat) (curves : list number) (time : number)
    (s : Cubic.search_state) :
  blind curves time ->
  Cubic.search fuel curves time s
  = option_map (Cubic.calculate (index curves 1) (index curves 3)) (halvings fuel s).
Proof.
  intros H. revert s. induction fuel as [| fuel IH]; intros s; [reflexivity |].
  cbn [Cubic.search halvings]. rewrite (search_step_blind curves time s H).
  destruct (Cubic.start s <? Cubic.end_ s); [apply IH | reflexivity].
Qed.

Lemma halvings_more_fuel (fuel extra : nat) (s : Cubic.search_state) (m : number) :
  halvings fuel s = Some m -> halvings (fuel + extra) s = Some m.
Proof.
  revert s. induction fuel as [| fuel IH]; intros s H; [discriminate |].
  cbn [halvings Nat.add] in *.
  destruct (Cubic.start s <? Cubic.end_ s); [apply IH; exact H | exact H].
Qed.

(** From the initial interval, the 1075 midpoints are the powers of two down
    to the smallest number, and then zero. *)
Lemma halvings_checked : halvings 1076 (Cubic.mkState 0 0 1) = Some 0.
Proof. vm_compute. reflexivity. Qed.

Lemma halvings_short : halvings 1075 (Cubic.mkState 0 0 1) = None.
Proof. vm_compute. reflexivity. Qed.

Lemma getValue_blind (extra : nat) (curves : list number) (time : number) :
  blind curves time -> inside time = true ->
  Cubic.getValue (1076 + extra) curves time
  = Some (Cubic.calculate (index curves 1) (index curves 3) 0).
Proof.
  intros H Hi. unfold inside in Hi. apply andb_true_iff in Hi. destruct Hi as [H0 H1].
  apply negb_true_iff in H0. apply negb_true_iff in H1.
  unfold Cubic.getValue. rewrite H0, H1, (search_blind _ _ _ _ H).
  rewrite (halvings_more_fuel 1076 extra _ 0 halvings_checked). reflexivity.
Qed.

End BlindSteps.

(** ** CubicBezierSolver: the binary search *)

Section CubicSearch.

Import CompareR CurveR.

Local Open Scope float_scope.

(** A state that an iteration leaves unchanged is never left. *)
Lemma search_fixed_state (curves : list number) (time : number) (s : Cubic.search_state) :
  Cubic.search_step curves time s = Cubic.Continue s ->
  forall fuel : nat, Cubic.search fuel curves time s = None.
Proof.
  intros H fuel. induction fuel as [| fuel IH]; [reflexivity |].
  cbn [Cubic.search]. rewrite H. exact IH.
Qed.

(** A search that reaches such a state returns for no amount of fuel. *)
Lemma search_reaches_fixed_state (curves : list number) (time : number) :
  forall (n : nat) (s s' : Cubic.search_state),
    iterate n curves time s = Some s' ->
    Cubic.search_step curves time s' = Cubic.Continue s' ->
    forall fuel : nat, Cubic.search fuel curves time s = None.
Proof.
  induction n as [| n IH]; intros s s' Hn Hfix fuel.
  - injection Hn as ->. apply search_fixed_state. exact Hfix.
  - cbn [iterate] in Hn. destruct fuel as [| fuel]; [reflexivity |].
    cbn [Cubic.search].
    destruct (Cubic.search_step curves time s) as [v | v | s1]; try discriminate.
    apply (IH s1 s' Hn Hfix).
Qed.

Lemma stuck_state_reached :
  exists n : nat,
    iterate n [-1e12; 0; -1e12; 0] 0.5 (Cubic.mkState 0 0 1) = Some stuck_state
    /\ Cubic.search_step [-1e12; 0; -1e12; 0] 0.5 stuck_state = Cubic.Continue stuck_state
    /\ (Cubic.start stuck_state <? Cubic.end_ stuck_state) = true.
Proof. exists 60%nat. vm_compute. repeat split. Qed.

(** C8, as stated, fails: for the control set [[-1e12, 0, -1e12, 0]] and
    [t = 0.5], strictly between 0 and 1, [getValue] returns after no number of
    iterations: the interval stops shrinking before it collapses. *)
Lemma getValue_search_counterexample :
  (0 <? 0.5) = true /\ (0.5 <? 1) = true
  /\ forall fuel : nat, Cubic.getValue fuel [-1e12; 0; -1e12; 0] 0.5 = None.
Proof.
  split; [reflexivity |]. split; [reflexivity |].
  intros fuel. destruct stuck_state_reached as [n [Hn [Hfix _]]].
  unfold Cubic.getValue.
  change (0.5 <=? 0) with false. change (1.0 <=? 0.5) with false. cbn iota.
  exact (search_reaches_fixed_state _ _ n _ _ Hn Hfix fuel).
Qed.

(** C8, amended: for every [t] strictly between 0 and 1 and every control set
    whose x-controls (the elements 0 and 2) both lie in [[0, 1]], or one of
    whose x-controls is NaN (as a missing element is), whatever the
    y-controls, the binary search in [getValue] terminates.  With both
    x-controls in [[0, 1]] it finds, within 19 evaluations of the loop guard,
    a parameter [m] whose x-component is within [1e-5] of [t], and returns the
    y-component there; with an x-control that is NaN the interval collapses,
    at the 1076th evaluation of the guard, and the y-component at the final
    midpoint, 0, is returned.  It neither fails nor loops forever. *)
Theorem getValue_search_terminates (curves : list number) (t : number) (extra : nat) :
  (0 <? t) = true -> (t <? 1) = true ->
  (unit_control (index curves 0) && unit_control (index curves 2) = true ->
   exists m : number,
     Cubic.getValue (19 + extra) curves t
     = Some (Cubic.calculate (index curves 1) (index curves 3) m)
     /\ (Math_abs (t - Cubic.calculate (index curves 0) (index curves 2) m) <? 0.00001)
        = true)
  /\ (is_nan (index curves 0) || is_nan (index curves 2) = true ->
      Cubic.getValue (1076 + extra) curves t
      = Some (Cubic.calculate (index curves 1) (index curves 3) 0)
      /\ Cubic.getValue 1075 curves t = None).
Proof.
  intros T0 T1.
  assert (Ht := open_interval t T0 T1).
  assert (In : (t <=? 0) = false /\ (1 <=? t) = false).
  { destruct real_of_0 as [F0 V0]. destruct real_of_1 as [F1 V1]. destruct Ht as [Ft Vt].
    split.
    - destruct (t <=? 0) eqn:L0; [| reflexivity].
      apply (CompareR.leb_R _ _ Ft F0) in L0. rewrite V0 in L0.
      exfalso. apply (Rlt_irrefl 0). eapply Rlt_le_trans; [apply Vt | exact L0].
    - destruct (1 <=? t) eqn:L1; [| reflexivity].
      apply (CompareR.leb_R _ _ F1 Ft) in L1. rewrite V1 in L1.
      exfalso. apply (Rlt_irrefl 1). eapply Rle_lt_trans; [exact L1 | apply Vt]. }
  destruct In as [L0 L1]. split.
  - intros H. apply andb_true_iff in H. destruct H as [A B].
    assert (Ha := unit_interval (index curves 0) A).
    assert (Hb := unit_interval (index curves 2) B).
    destruct (search_R curves t Ha Hb Ht 18 0 (Cubic.mkState 0 0 1) extra eq_refl
                (initial_invariant curves t Ha Hb Ht)) as (m & E & Hm).
    exists m. split; [| exact Hm].
    unfold Cubic.getValue. rewrite L0, L1. exact E.
  - intros H.
    assert (B : blind curves t).
    { apply orb_true_iff in H. destruct H as [H | H]; apply is_nan_eq in H;
        [left | right; left]; exact H. }
    split.
    + apply getValue_blind; [exact B |]. unfold inside. rewrite L0, L1. reflexivity.
    + unfold Cubic.getValue. rewrite L0, L1, (search_blind _ _ _ _ B), halvings_short.
      reflexivity.
Qed.

Lemma getValue_search_terminates_witness :
  exists m : number,
    Cubic.getValue 19 [0.25; 0.1; 0.25; 1] 0.5 = Some (Cubic.calculate 0.1 1 m)
    /\ (Math_abs (0.5 - Cubic.calculate 0.25 0.25 m) <? 0.00001) = true.
Proof.
  apply (proj1 (getValue_search_terminates [0.25; 0.1; 0.25; 1] 0.5 0 eq_refl eq_refl)).
  reflexivity.
Defined.

(** On the easing shape [[0.25, 0.1, 0.25, 1.0]] the search returns, and
    [evaluate(0.5)] lies strictly between 0 and 1. *)
Example getValue_ease_half :
  exists v, Cubic.getValue 20 [0.25; 0.1; 0.25; 1.0] 0.5 = Some v
            /\ (0 <? v) = true /\ (v <? 1) = true.
Proof. eexists. vm_compute. repeat split. Qed.

(** With [NaN] controls ([new Cubic([])]), the interval does collapse, after
    1075 halvings, and the value at the final midpoint is returned. *)
Example getValue_interval_collapses :
  Cubic.getValue 1075 [] 0.5 = None
  /\ exists v, Cubic.getValue 1076 [] 0.5 = Some v /\ is_nan v = true.
Proof. split; [| eexists]; vm_compute; repeat split. Qed.

End CubicSearch.

(** ** VectorInterpolator *)

Section Interpolation.

Local Open Scope float_scope.

Import Interpolate.

Lemma blend_length (fromList toList : list number) (f : number) :
  List.length (blend fromList toList f) = List.length fromList.
Proof. unfold blend. rewrite length_map, length_seq. reflexivity. Qed.

Lemma blend_index (fromList toList : list number) (f : number) (i : nat) :
  (i < List.length fromList)%nat ->
  index (blend fromList toList f) i
  = index fromList i * (1 - f) + index toList i * f.
Proof.
  intros Hi. unfold blend, index at 1.
  set (g := fun i : nat => interpolateNum (index fromList i) (index toList i) f).
  rewrite (nth_indep _ nan (g 0%nat)) by (rewrite length_map, length_seq; exact Hi).
  rewrite (map_nth g), seq_nth by exact Hi. reflexivity.
Qed.

(** Blending a finite number with itself at 0 or at 1 gives it back. *)
Lemma interpolateNum_same_0 (a : number) :
  finite a = true -> interpolateNum a a 0 = a.
Proof.
  intros H. unfold interpolateNum. change (1 - 0) with 1.
  rewrite mul_one_r. apply add_own_zero_r. exact H.
Qed.

Lemma interpolateNum_same_1 (a : number) :
  finite a = true -> interpolateNum a a 1 = a.
Proof.
  intros H. unfold interpolateNum. change (1 - 1) with 0.
  rewrite mul_one_r. apply add_own_zero_l. exact H.
Qed.

Lemma blend_same (A : list number) (f : number) :
  Forall (fun a => finite a = true) A -> f = 0 \/ f = 1 -> blend A A f = A.
Proof.
  intros HA Hf.
  apply (nth_ext _ _ nan nan); [apply blend_length |].
  intros i Hi. rewrite blend_length in Hi.
  change (index (blend A A f) i = index A i). rewrite blend_index by exact Hi.
  assert (Ha : finite (index A i) = true).
  { rewrite Forall_forall in HA. apply HA. apply nth_In. exact Hi. }
  change (interpolateNum (index A i) (index A i) f = index A i).
  destruct Hf as [-> | ->].
  - apply interpolateNum_same_0. exact Ha.
  - apply interpolateNum_same_1. exact Ha.
Qed.

(** C9, as stated, fails in its last part: [interpolate([0.1], [0.1], 0.3)]
    is [[0.09999999999999999]], which is not [== 0.1]. *)
Lemma interpolate_same_counterexample :
  exists out, interpolate [0.1] [0.1] 0.3 = Returns out
              /\ all_eqb out [0.1] = false.
Proof. eexists. split; reflexivity. Qed.

(** C9, amended: for every two numeric sequences [from] and [to] and factor
    [f], [interpolate(from, to, f)] fails with a LengthMismatch error exactly
    when the sequences differ in length, and otherwise returns the element-wise
    blend [from[i]*(1-f) + to[i]*f] computed in double arithmetic; in
    particular [interpolate(A, A, f)] is [A] when [f] is 0 or 1 and the
    elements of [A] are finite. *)
Theorem interpolate_blend (fromList toList : list number) (f : number) :
  ((exists e, interpolate fromList toList f = Throws e)
   <-> List.length fromList <> List.length toList)
  /\ (List.length fromList <> List.length toList ->
      interpolate fromList toList f = Throws (MismatchedInterpolation fromList toList))
  /\ (List.length fromList = List.length toList ->
      exists out,
        interpolate fromList toList f = Returns out
        /\ List.length out = List.length fromList
        /\ forall i : nat, (i < List.length fromList)%nat ->
             index out i = index fromList i * (1 - f) + index toList i * f)
  /\ (toList = fromList ->
      Forall (fun a => finite a = true) fromList -> f = 0 \/ f = 1 ->
      interpolate fromList toList f = Returns fromList).
Proof.
  unfold interpolate.
  destruct (Nat.eqb (List.length fromList) (List.length toList)) eqn:E; cbn [negb].
  - apply Nat.eqb_eq in E. split; [split | split; [| split]].
    + intros [e He]. discriminate He.
    + intros Hne. contradiction.
    + intros Hne. contradiction.
    + intros _. exists (blend fromList toList f). repeat split.
      * apply blend_length.
      * intros i Hi. apply blend_index. exact Hi.
    + intros -> HA Hf. f_equal. apply blend_same; assumption.
  - apply Nat.eqb_neq in E. split; [split | split; [| split]].
    + intros _. exact E.
    + intros _. eauto.
    + intros _. reflexivity.
    + intros Heq. contradiction.
    + intros -> _ _. contradiction E. reflexivity.
Qed.

Lemma interpolate_blend_witness :
  interpolate [1; 2] [1] 0.5 = Throws (MismatchedInterpolation [1; 2] [1])
  /\ interpolate [0.1; 20] [0.1; 20] 1 = Returns [0.1; 20].
Proof.
  split.
  - apply (proj1 (proj2 (interpolate_blend [1; 2] [1] 0.5))). discriminate.
  - apply (proj2 (proj2 (proj2 (interpolate_blend [0.1; 20] [0.1; 20] 1)))).
    + reflexivity.
    + repeat constructor.
    + right. reflexivity.
Defined.

End Interpolation.

(** ** Bytes *)

Section Bytes.

Lemma is_byte_in_bytes (v : Z) : is_byte v -> In v bytes.
Proof. intros H. apply in_bytes. unfold is_byte in H. lia. Qed.

Lemma lxor_bytes_checked :
  forallb (fun a => forallb (fun b => (0 <=? Z.lxor a b) && (Z.lxor a b <? 256)) bytes) bytes
  = true.
Proof. vm_compute. reflexivity. Qed.

Lemma lxor_is_byte (a b : Z) : is_byte a -> is_byte b -> is_byte (Z.lxor a b).
Proof.
  intros Ha Hb.
  pose proof (proj1 (forallb_forall _ _) lxor_bytes_checked a (is_byte_in_bytes a Ha)) as E.
  pose proof (proj1 (forallb_forall _ _) E b (is_byte_in_bytes b Hb)) as E'.
  cbv beta in E'. apply andb_true_iff in E'. unfold is_byte. lia.
Qed.

Lemma lxor_twice (b r : Z) : Z.lxor (Z.lxor b r) r = b.
Proof. rewrite Z.lxor_assoc, Z.lxor_nilpotent, Z.lxor_0_r. reflexivity. Qed.

Lemma land_255_is_byte (x : Z) : is_byte (Z.land x 255).
Proof.
  change 255 with (Z.ones 8). rewrite Z.land_ones by lia.
  unfold is_byte. apply Z.mod_pos_bound. lia.
Qed.

Lemma Uint8Array_bytes (values : list Z) :
  Forall is_byte values -> Transaction.Uint8Array values = values.
Proof.
  intros H. unfold Transaction.Uint8Array.
  induction H as [| v l Hv Hl IH]; cbn [map].
  - reflexivity.
  - rewrite IH, Z.mod_small by exact Hv. reflexivity.
Qed.

Lemma firstn_bytes (n : nat) (values : list Z) :
  Forall is_byte values -> Forall is_byte (firstn n values).
Proof.
  intros H. revert n. induction H as [| v l Hv Hl IH]; intros [| n]; cbn [firstn].
  - constructor.
  - constructor.
  - constructor.
  - constructor; [exact Hv | apply IH].
Qed.

Lemma unmask_mask (r : Z) (plain : list Z) :
  Transaction.unmask (r :: map (fun item => Z.lxor item r) plain) = plain.
Proof.
  cbn [Transaction.unmask]. rewrite map_map.
  rewrite <- (map_id plain) at 2. apply map_ext. intros b. apply lxor_twice.
Qed.

End Bytes.

(** ** The base64 codec *)

Section Base64Facts.

Import Base64.

Local Open Scope string_scope.

Lemma in_sextets (v : Z) : 0 <= v < 64 -> In v sextets.
Proof.
  intros H. unfold sextets. apply in_map_iff. exists (Z.to_nat v). split.
  - apply Z2Nat.id. lia.
  - apply in_seq. lia.
Qed.

Lemma b64char_checked :
  forallb (fun v => match unbase64 (b64char v) with
                    | Some v' => (v' =? v)%Z && negb (Ascii.eqb (b64char v) "=")
                    | None => false
                    end) sextets
  = true.
Proof. vm_compute. reflexivity. Qed.

Lemma unbase64_b64char (v : Z) :
  0 <= v < 64 -> unbase64 (b64char v) = Some v /\ Ascii.eqb (b64char v) "=" = false.
Proof.
  intros H.
  pose proof (proj1 (forallb_forall _ _) b64char_checked v (in_sextets v H)) as E.
  cbv beta in E. destruct (unbase64 (b64char v)) as [v' |]; [| discriminate].
  apply andb_true_iff in E. destruct E as [E1 E2].
  apply Z.eqb_eq in E1. apply negb_true_iff in E2. subst v'. split; [reflexivity | exact E2].
Qed.

Lemma unbase64_range (c : ascii) (v : Z) : unbase64 c = Some v -> 0 <= v < 64.
Proof.
  unfold unbase64.
  repeat match goal with
         | |- context [if ?b then _ else _] => destruct b eqn:?
         end; intros E; inversion E; subst; clear E;
    repeat match goal with
           | H : (_ && _) = true |- _ => apply andb_true_iff in H; destruct H
           | H : (_ <=? _)%Z = true |- _ => apply Z.leb_le in H
           end; lia.
Qed.

(** What the decoder does on a character of the alphabet. *)
Lemma decode_from_b64char (ph : phase) (hi v : Z) (rest : string) :
  0 <= v < 64 ->
  decode_from ph hi (String (b64char v) rest)
  = match ph with
    | P0 => decode_from P1 v rest
    | P1 => ((hi mod 64) * 4 + v / 16)%Z :: decode_from P2 v rest
    | P2 => ((hi mod 16) * 16 + v / 4)%Z :: decode_from P3 v rest
    | P3 => ((hi mod 4) * 64 + v)%Z :: decode_from P0 v rest
    end.
Proof.
  intros H. destruct (unbase64_b64char v H) as [E1 E2].
  cbn [decode_from]. rewrite E2, E1. reflexivity.
Qed.

Lemma strip_padding_b64char (v : Z) (rest : string) :
  0 <= v < 64 ->
  strip_padding (String (b64char v) rest) = String (b64char v) (strip_padding rest).
Proof.
  intros H. destruct (unbase64_b64char v H) as [_ E2].
  cbn [strip_padding]. rewrite E2. reflexivity.
Qed.

(** Induction on a list, three elements at a time. *)
Lemma list_ind3 {A : Type} (P : list A -> Prop) :
  P [] -> (forall a, P [a]) -> (forall a b, P [a; b]) ->
  (forall a b c l, P l -> P (a :: b :: c :: l)) ->
  forall l, P l.
Proof.
  intros H0 H1 H2 H3.
  assert (H : forall l, P l /\ (forall a, P (a :: l)) /\ (forall a b, P (a :: b :: l))).
  { induction l as [| x l [IH0 [IH1 IH2]]].
    - repeat split; auto.
    - repeat split; auto. }
  intros l. apply H.
Qed.

(** Decoding what was encoded, with or without its padding, gives the bytes
    back. *)
Lemma decode_encode (bytes : list Z) :
  Forall is_byte bytes ->
  decode (encode bytes) = bytes /\ decode (strip_padding (encode bytes)) = bytes.
Proof.
  unfold decode. induction bytes as [| a | a b | a b c l IH] using list_ind3; intros H.
  - split; reflexivity.
  - inversion H as [| ? ? Ha _]; subst. unfold is_byte in Ha.
    cbn [encode].
    rewrite !strip_padding_b64char, !decode_from_b64char
      by (pose proof (Z.mod_pos_bound a 4); pose proof (Z.div_pos a 4);
          Z.div_mod_to_equations; lia).
    cbn. split; f_equal; Z.div_mod_to_equations; lia.
  - inversion H as [| ? ? Ha H']; subst. inversion H' as [| ? ? Hb _]; subst.
    unfold is_byte in Ha, Hb.
    cbn [encode].
    rewrite !strip_padding_b64char, !decode_from_b64char
      by (Z.div_mod_to_equations; lia).
    cbn. split; repeat (f_equal; try (Z.div_mod_to_equations; lia)).
  - inversion H as [| ? ? Ha H']; subst. inversion H' as [| ? ? Hb H'']; subst.
    inversion H'' as [| ? ? Hc Hl]; subst.
    unfold is_byte in Ha, Hb, Hc. destruct (IH Hl) as [IH1 IH2].
    cbn [encode].
    rewrite !strip_padding_b64char, !decode_from_b64char
      by (Z.div_mod_to_equations; lia).
    cbn [decode_from].
    assert (Hdrop : forall hi s, decode_from P0 hi s = decode_from P0 0 s).
    { intros hi s. destruct s as [| ch s]; [reflexivity |].
      cbn [decode_from]. destruct (Ascii.eqb ch "="); [reflexivity |].
      destruct (unbase64 ch) as [lo |].
      - reflexivity.
      - revert hi. induction s as [| ch' s IHs]; intros hi; [reflexivity |].
        cbn [decode_from]. destruct (Ascii.eqb ch' "="); [reflexivity |].
        destruct (unbase64 ch'); [reflexivity | apply IHs]. }
    rewrite !(Hdrop (c mod 64)), IH1, IH2.
    split; repeat (f_equal; try (Z.div_mod_to_equations; lia)).
Qed.

Lemma decode_from_pad1 (s : string) :
  forall (ph : phase) (hi : Z), decode_from ph hi (s ++ "=") = decode_from ph hi s.
Proof.
  induction s as [| ch s IH]; intros ph hi.
  - reflexivity.
  - cbn [append decode_from]. destruct (Ascii.eqb ch "="); [reflexivity |].
    destruct (unbase64 ch); [destruct ph |]; rewrite IH; reflexivity.
Qed.

Lemma decode_from_pad2 (s : string) :
  forall (ph : phase) (hi : Z), decode_from ph hi (s ++ "==") = decode_from ph hi s.
Proof.
  induction s as [| ch s IH]; intros ph hi.
  - reflexivity.
  - cbn [append decode_from]. destruct (Ascii.eqb ch "="); [reflexivity |].
    destruct (unbase64 ch); [destruct ph |]; rewrite IH; reflexivity.
Qed.

(** Putting the padding back does not change what is decoded. *)
Lemma decode_repad (s : string) : decode (repad s) = decode s.
Proof.
  unfold decode, repad.
  destruct (String.length s mod 4)%nat as [| [| [| [| n]]]];
    try reflexivity; [apply decode_from_pad2 | apply decode_from_pad1].
Qed.

Lemma decode_from_bytes (s : string) :
  forall (ph : phase) (hi : Z), Forall is_byte (decode_from ph hi s).
Proof.
  induction s as [| ch s IH]; intros ph hi; cbn [decode_from].
  - constructor.
  - destruct (Ascii.eqb ch "="); [constructor |].
    destruct (unbase64 ch) as [lo |] eqn:E; [| apply IH].
    apply unbase64_range in E.
    destruct ph; [apply IH | | |]; constructor; try apply IH;
      unfold is_byte; Z.div_mod_to_equations; lia.
Qed.

Lemma decode_bytes (s : string) : Forall is_byte (decode s).
Proof. apply decode_from_bytes. Qed.

End Base64Facts.

(** ** The digest *)

Section Sha256Facts.

Lemma be_bytes_4 (x : Z) :
  List.length (Sha256.be_bytes 4 x) = 4%nat /\ Forall is_byte (Sha256.be_bytes 4 x).
Proof.
  split; [reflexivity |].
  unfold Sha256.be_bytes. cbn [seq rev app map].
  repeat constructor; apply Z.mod_pos_bound; lia.
Qed.

(** A digest has 32 bytes. *)
Lemma digest_length (msg : list Z) : List.length (Sha256.digest msg) = 32%nat.
Proof.
  unfold Sha256.digest.
  destruct (fold_left Sha256.compress _ Sha256.H0) as [[[[[[[a b] c] d] e] f] g] h].
  reflexivity.
Qed.

Lemma digest_bytes (msg : list Z) : Forall is_byte (Sha256.digest msg).
Proof.
  unfold Sha256.digest.
  destruct (fold_left Sha256.compress _ Sha256.H0) as [[[[[[[a b] c] d] e] f] g] h].
  unfold Sha256.digest_bytes.
  repeat (apply Forall_app; split); apply be_bytes_4.
Qed.

(** The test vector of FIPS 180-4 for the message [abc]. *)
Example digest_abc :
  Sha256.digest (Transaction.utf8 "abc")
  = [0xba; 0x78; 0x16; 0xbf; 0x8f; 0x01; 0xcf; 0xea; 0x41; 0x41; 0x40; 0xde;
     0x5d; 0xae; 0x22; 0x23; 0xb0; 0x03; 0x61; 0xa3; 0x96; 0x17; 0x7a; 0x9c;
     0xb4; 0x10; 0xff; 0x61; 0xf2; 0x00; 0x15; 0xad].
Proof. vm_compute. reflexivity. Qed.

End Sha256Facts.

(** ** TokenEncoder *)

Section Token.

Import Transaction.

(** The statements hold for every printing [toText] of the timestamp in the
    signature text: no property of the token depends on the digits. *)

Lemma bytesArr_plaintext (toText : Z -> string)
    (method path key animationKey : string) (timeNow : Z) :
  bytesArr toText method path key animationKey timeNow
  = plaintext toText method path key animationKey timeNow.
Proof. reflexivity. Qed.

Lemma hashPrefix16_length (toText : Z -> string)
    (method path : string) (timeNow : Z) (animationKey : string) :
  List.length (hashPrefix16 toText method path timeNow animationKey) = 16%nat.
Proof.
  unfold hashPrefix16. rewrite length_firstn, digest_length. reflexivity.
Qed.

Lemma plaintext_length (toText : Z -> string)
    (method path key animationKey : string) (timeNow : Z) :
  List.length (plaintext toText method path key animationKey timeNow)
  = (List.length (decodeBase64 key) + 4 + 16 + 1)%nat.
Proof.
  unfold plaintext. rewrite !length_app, hashPrefix16_length.
  cbn [timeNowBytes List.length]. lia.
Qed.

Lemma plaintext_bytes (toText : Z -> string) (method path key animationKey : string) (timeNow : Z) :
  Forall is_byte (plaintext toText method path key animationKey timeNow).
Proof.
  unfold plaintext. repeat (apply Forall_app; split).
  - apply decode_bytes.
  - unfold timeNowBytes. repeat constructor; apply land_255_is_byte.
  - unfold hashPrefix16. apply firstn_bytes. apply digest_bytes.
  - repeat constructor; unfold is_byte; lia.
Qed.

(** The bytes that are encoded: the mask, then the masked plaintext. *)
Lemma out_masked (toText : Z -> string) (method path key animationKey : string) (timeNow : option Z)
    (now randomNum : Z) :
  is_byte randomNum ->
  out toText method path key animationKey timeNow now randomNum
  = randomNum :: map (fun b => Z.lxor b randomNum)
                     (plaintext toText method path key animationKey (effective_time timeNow now)).
Proof.
  intros Hr. unfold out. rewrite bytesArr_plaintext.
  apply Uint8Array_bytes. constructor; [exact Hr |].
  apply Forall_map.
  eapply Forall_impl; [| apply plaintext_bytes].
  intros b Hb. apply lxor_is_byte; assumption.
Qed.

Lemma out_bytes (toText : Z -> string) (method path key animationKey : string) (timeNow : option Z)
    (now randomNum : Z) :
  Forall is_byte (out toText method path key animationKey timeNow now randomNum).
Proof.
  unfold out, Uint8Array. apply Forall_map, Forall_forall.
  intros v _. apply Z.mod_pos_bound. lia.
Qed.

(** A token decodes to the bytes that were encoded. *)
Lemma decode_token (toText : Z -> string)
    (method path key animationKey : string) (timeNow : option Z)
    (now randomNum : Z) :
  decodeBase64 (generateTransactionId toText method path key animationKey timeNow now randomNum)
  = out toText method path key animationKey timeNow now randomNum.
Proof.
  unfold generateTransactionId, decodeBase64, encodeBase64.
  apply decode_encode, out_bytes.
Qed.

(** C1: for every method, path, verification key, animation key and
    timestamp, the byte sequence [generateTransactionId] base64-encodes is one
    mask byte followed by the plaintext
    [decode(verificationKey) ++ timeBytes ++ first-16-bytes-of-SHA-256(signature) ++ [3]],
    each plaintext byte XORed with the mask byte; the token, with or without
    its padding put back, decodes to that sequence, and unmasking it with its
    first byte gives the plaintext, of length [len(keyBytes) + 4 + 16 + 1]. *)
Theorem token_layout (toText : Z -> string)
    (method path key animationKey : string) (timeNow : option Z)
    (now randomNum : Z) :
  is_byte randomNum ->
  let t := effective_time timeNow now in
  let token := generateTransactionId toText method path key animationKey timeNow now randomNum in
  out toText method path key animationKey timeNow now randomNum
  = randomNum :: map (fun b => Z.lxor b randomNum)
                     (decodeBase64 key ++ timeNowBytes t
                        ++ firstn 16 (Sha256.digest
                                        (utf8 (signature toText method path t animationKey)))
                        ++ [3])
  /\ decodeBase64 token = out toText method path key animationKey timeNow now randomNum
  /\ decodeBase64 (Base64.repad token) = decodeBase64 token
  /\ unmask (decodeBase64 (Base64.repad token)) = plaintext toText method path key animationKey t
  /\ List.length (unmask (decodeBase64 (Base64.repad token)))
     = (List.length (getKeyBytes key) + 4 + 16 + 1)%nat.
Proof.
  intros Hr t token.
  assert (E : unmask (decodeBase64 (Base64.repad token))
              = plaintext toText method path key animationKey t).
  { unfold decodeBase64. rewrite decode_repad. fold (decodeBase64 token).
    unfold token. rewrite decode_token, out_masked by exact Hr. apply unmask_mask. }
  split; [apply out_masked; exact Hr |].
  split; [apply decode_token |].
  split; [apply decode_repad |].
  split; [exact E |].
  rewrite E. apply plaintext_length.
Qed.

Lemma token_layout_witness :
  List.length
    (unmask (decodeBase64 (Base64.repad
       (generateTransactionId decimal "GET" "/graphql/x/UserByScreenName"
          "TWFuTWFuTWFuTWFuTWFuTWFu" "abc00" (Some 70000000) 0 77))))
  = (List.length (getKeyBytes "TWFuTWFuTWFuTWFuTWFuTWFu") + 4 + 16 + 1)%nat.
Proof.
  apply (token_layout decimal "GET" "/graphql/x/UserByScreenName"
           "TWFuTWFuTWFuTWFuTWFuTWFu" "abc00" (Some 70000000) 0 77).
  unfold is_byte. lia.
Defined.




(** Changing the mask byte does change the token. *)
Example token_mask_changes_token :
  generateTransactionId decimal "GET" "/1.1/jot" "TWFuTWFu" "00" (Some 7) 0 1
  <> generateTransactionId decimal "GET" "/1.1/jot" "TWFuTWFu" "00" (Some 7) 0 200.
Proof. vm_compute. discriminate. Qed.

(** C10: a timestamp argument of 0 is discarded and the wall-clock default,
    the seconds since the reference instant, is used, exactly as if the
    argument had been omitted; so for timestamp 0 the token is not a function
    of the explicit arguments: with the same mask byte, two clock readings give
    two tokens. *)
Theorem timestamp_zero_uses_clock (toText : Z -> string) (method path key animationKey : string)
    (now randomNum : Z) :
  effective_time (Some 0) now = (now - 1682924400 * 1000) / 1000
  /\ generateTransactionId toText method path key animationKey (Some 0) now randomNum
     = generateTransactionId toText method path key animationKey None now randomNum
  /\ (is_byte randomNum ->
      generateTransactionId toText method path key animationKey (Some 0) 1682924401000
        randomNum
      <> generateTransactionId toText method path key animationKey (Some 0) 1682924402000
           randomNum).
Proof.
  split; [reflexivity |]. split; [reflexivity |].
  intros Hr E.
  apply (f_equal decodeBase64) in E. rewrite !decode_token in E.
  rewrite !out_masked in E by exact Hr.
  apply (f_equal unmask) in E. rewrite !unmask_mask in E.
  unfold plaintext in E. apply app_inv_head in E.
  change (effective_time (Some 0) 1682924401000) with 1 in E.
  change (effective_time (Some 0) 1682924402000) with 2 in E.
  cbn [timeNowBytes app] in E. injection E as E _. vm_compute in E. discriminate E.
Qed.

Lemma timestamp_zero_uses_clock_witness :
  generateTransactionId decimal "GET" "/1.1/jot" "TWFuTWFu" "00" (Some 0) 1682924401000 9
  <> generateTransactionId decimal "GET" "/1.1/jot" "TWFuTWFu" "00" (Some 0) 1682924402000 9.
Proof.
  apply (timestamp_zero_uses_clock decimal "GET" "/1.1/jot" "TWFuTWFu" "00" 0 9).
  unfold is_byte. lia.
Defined.

End Token.

(** ** FrameTableParser and the guard of [getAnimationKey] *)

Section NoFrames.

Import Transaction.

Local Open Scope float_scope.

Variable Math_cos Math_sin : number -> number.

(** The path data of the specification's fixture. *)
Example parse_fixture :
  map parse_segment (Str.split "C" (Str.substring_from 9 "M1,2,3C4,5,6C7,8,9"))
  = [[5; 6]; [7; 8; 9]].
Proof. reflexivity. Qed.

(** Without frame elements the table is [[[]]]: one row, which is empty. *)
Lemma get2dArray_no_frames (keyBytes : list Z) (response : Dom.Document) :
  getFrames response = [] -> get2dArray keyBytes response = Returns [[]].
Proof. intros H. unfold get2dArray. rewrite H. reflexivity. Qed.

(** C4, as stated, fails: on a document without any element whose identifier
    starts with the animation-frame prefix, frame-element selection does not
    fail; it returns the table [[[]]]. *)
Lemma no_frames_counterexample :
  let response := Dom.mkElement [] [Dom.mkElement [("id", "root")%string] []] in
  getFrames response = []
  /\ get2dArray [0; 0; 0; 0; 0; 0]%Z response = Returns [[]].
Proof. split; reflexivity. Qed.

(** C4, amended: for every document and key-byte sequence, if the collection
    of elements whose identifier starts with the animation-frame prefix is
    empty, frame-element selection returns the one-row table [[[]]], and
    [getAnimationKey] fails with the error "Invalid frame data" whenever the
    row index value [keyBytes[rowIndex] % 16] is not 0. *)
Theorem no_frames_invalid_frame_data (fuel : nat) (keyBytes : list Z)
    (response : Dom.Document) (rowIndex : nat) (keyByteIndices : list nat) :
  getFrames response = [] ->
  get2dArray keyBytes response = Returns [[]]
  /\ (option_map (fun b => Z.rem b 16) (nth_error keyBytes rowIndex) <> Some 0%Z ->
      getAnimationKey Math_cos Math_sin fuel keyBytes response rowIndex keyByteIndices
      = Throws InvalidFrameData).
Proof.
  intros H. split; [apply get2dArray_no_frames; exact H |].
  intros Hk. unfold getAnimationKey. rewrite (get2dArray_no_frames _ _ H).
  cbn [bind]. destruct (option_map _ _) as [k |]; [| reflexivity].
  unfold element_at. destruct (k <? 0)%Z eqn:E; [reflexivity |].
  apply Z.ltb_ge in E.
  destruct (Z.to_nat k) as [| n] eqn:En.
  - contradiction Hk. f_equal. lia.
  - destruct n; reflexivity.
Qed.

(** The row index value 0 is the one the guard lets through: [arr[0]] is the
    empty row, which is truthy.  With [Math.cos] and [Math.sin] returning NaN
    on NaN (ECMAScript, 21.3.2), the key of the empty row is then returned. *)
Hypothesis Math_cos_nan : Math_cos nan = nan.
Hypothesis Math_sin_nan : Math_sin nan = nan.

Lemma convertRotationToMatrix_nan :
  convertRotationToMatrix Math_cos Math_sin nan = [nan; nan; nan; nan].
Proof.
  unfold convertRotationToMatrix. change (nan * Math_PI / 180) with nan.
  rewrite Math_cos_nan, Math_sin_nan. reflexivity.
Qed.

Lemma animate_empty_row (fuel : nat) :
  animate Math_cos Math_sin (S fuel) [] 0 = Returns "000000"%string.
Proof.
  unfold animate. cbv zeta.
  change (Cubic.getValue (S fuel) (curvesOf []) 0) with (Some 0).
  cbn [of_option bind].
  change (Interpolate.interpolate (slice 0 3 [] ++ [1]) (slice 3 6 [] ++ [1]) 0)
    with (Returns [1]).
  cbn [bind].
  change (Interpolate.interpolate [0.0] [solve (index [] 6) 60.0 360.0 true] 0)
    with (Returns [nan]).
  cbn [bind]. change (index [nan] 0) with nan.
  rewrite convertRotationToMatrix_nan.
  change (matrix_pieces (S fuel) [nan; nan; nan; nan])
    with (Some ["0."%string; "0."%string; "0."%string; "0."%string]).
  reflexivity.
Qed.

Lemma no_frames_row_zero_accepted (fuel : nat) (keyBytes : list Z)
    (response : Dom.Document) (rowIndex : nat) (b : Z) :
  getFrames response = [] ->
  nth_error keyBytes rowIndex = Some b ->
  Z.rem b 16 = 0%Z ->
  getAnimationKey Math_cos Math_sin (S fuel) keyBytes response rowIndex []
  = Returns "000000"%string.
Proof.
  intros H Hb Hrem. unfold getAnimationKey.
  rewrite (get2dArray_no_frames _ _ H), Hb. cbn [bind option_map]. rewrite Hrem.
  cbn [element_at Z.ltb Z.compare Z.to_nat nth_error fold_left].
  change (Math_round (1 / 10) * 10 / 4096) with 0.
  apply animate_empty_row.
Qed.

End NoFrames.

Lemma no_frames_invalid_frame_data_witness :
  Transaction.getAnimationKey (fun x => x) (fun x => x) 0 [17; 0; 0; 0; 0; 0]
    (Dom.mkElement [] [Dom.mkElement [("id", "root")%string] []]) 0 [1; 2]%nat
  = Throws InvalidFrameData.
Proof.
  apply (no_frames_invalid_frame_data (fun x => x) (fun x => x) 0 [17; 0; 0; 0; 0; 0]
           (Dom.mkElement [] [Dom.mkElement [("id", "root")%string] []]) 0 [1; 2]%nat).
  - reflexivity.
  - discriminate.
Defined.

(** The same on a concrete document, with stand-ins for [Math.cos] and
    [Math.sin] that return NaN on NaN. *)
Example no_frames_row_zero_example :
  Transaction.getAnimationKey (fun x => x * 0 + 1)%float (fun x => x) 1 [0; 0; 0; 0; 0; 0]
    (Dom.mkElement [] [Dom.mkElement [("id", "root")%string] []]) 0 []
  = Returns "000000"%string.
Proof. reflexivity. Qed.

(* ================================================================== *)
(** * Part IV. Further properties *)
(* ================================================================== *)

(** ** More on the token: the codec, the time bytes and the mask *)

Section TokenMore.

Import Transaction.

(** Here too [toText] is any printing of the timestamp in the signature text. *)

(** X1.  [decodeBase64] undoes [encodeBase64] on every byte sequence, with the
    padding or with the padding stripped as [generateTransactionId] strips it;
    and whatever its input, [decodeBase64] yields bytes. *)
Theorem decodeBase64_encodeBase64 (bytes : list Z) :
  Forall is_byte bytes ->
  decodeBase64 (encodeBase64 bytes) = bytes
  /\ decodeBase64 (Base64.strip_padding (encodeBase64 bytes)) = bytes
  /\ forall s : string, Forall is_byte (decodeBase64 s).
Proof.
  intros H. destruct (decode_encode bytes H) as [E1 E2].
  split; [exact E1 |]. split; [exact E2 |]. intros s. apply decode_bytes.
Qed.

Lemma decodeBase64_encodeBase64_witness :
  decodeBase64 (encodeBase64 [0; 255; 16; 77]) = [0; 255; 16; 77].
Proof.
  apply (decodeBase64_encodeBase64 [0; 255; 16; 77]).
  repeat constructor; unfold is_byte; lia.
Defined.

Lemma b64char_checked_alphabet :
  forallb (fun v => in_alphabet (Base64.b64char v)) sextets = true.
Proof. vm_compute. reflexivity. Qed.

Lemma b64char_in_alphabet (v : Z) : 0 <= v < 64 -> in_alphabet (Base64.b64char v) = true.
Proof.
  intros H.
  exact (proj1 (forallb_forall _ _) b64char_checked_alphabet v (in_sextets v H)).
Qed.

(** The stripped encoding of [n] bytes: its characters and its length. *)
Lemma strip_encode_shape (bytes : list Z) :
  Forall is_byte bytes ->
  Forall (fun c => in_alphabet c = true) (chars (Base64.strip_padding (Base64.encode bytes)))
  /\ (3 * String.length (Base64.strip_padding (Base64.encode bytes))
      = 4 * List.length bytes
        + match (List.length bytes mod 3)%nat with
          | 1%nat => 2 | 2%nat => 1 | _ => 0
          end)%nat.
Proof.
  induction bytes as [| a | a b | a b c l IH] using list_ind3; intros H.
  - split; [constructor | reflexivity].
  - inversion H as [| ? ? Ha _]; subst. unfold is_byte in Ha.
    cbn [Base64.encode].
    rewrite !strip_padding_b64char by (Z.div_mod_to_equations; lia).
    cbn. split; [| reflexivity].
    repeat constructor; apply b64char_in_alphabet; Z.div_mod_to_equations; lia.
  - inversion H as [| ? ? Ha H']; subst. inversion H' as [| ? ? Hb _]; subst.
    unfold is_byte in Ha, Hb.
    cbn [Base64.encode].
    rewrite !strip_padding_b64char by (Z.div_mod_to_equations; lia).
    cbn. split; [| reflexivity].
    repeat constructor; apply b64char_in_alphabet; Z.div_mod_to_equations; lia.
  - inversion H as [| ? ? Ha H']; subst. inversion H' as [| ? ? Hb H'']; subst.
    inversion H'' as [| ? ? Hc Hl]; subst.
    unfold is_byte in Ha, Hb, Hc. destruct (IH Hl) as [IH1 IH2].
    cbn [Base64.encode].
    rewrite !strip_padding_b64char by (Z.div_mod_to_equations; lia).
    unfold chars in *. cbn [list_ascii_of_string String.length List.length]. split.
    + repeat (constructor; [apply b64char_in_alphabet; Z.div_mod_to_equations; lia |]).
      exact IH1.
    + replace (S (S (S (List.length l))) mod 3)%nat with (List.length l mod 3)%nat.
      * lia.
      * change (S (S (S (List.length l)))) with (3 + List.length l)%nat.
        rewrite Nat.Div0.add_mod, Nat.Div0.mod_same, Nat.add_0_l, Nat.Div0.mod_mod.
        reflexivity.
Qed.

(** X2.  A token is made of characters of the standard base64 alphabet only
    (no padding, no URL-safe character), and its length is fixed by the length
    of the key: a key of [k] bytes gives [ceil(4 * (k + 22) / 3)] characters. *)
Theorem token_shape (toText : Z -> string)
    (method path key animationKey : string) (timeNow : option Z)
    (now randomNum : Z) :
  let token := generateTransactionId toText method path key animationKey timeNow now randomNum in
  Forall (fun c => in_alphabet c = true) (chars token)
  /\ String.length token
     = ((4 * (List.length (getKeyBytes key) + 22) + 2) / 3)%nat.
Proof.
  intros token. unfold token, generateTransactionId, encodeBase64.
  pose proof (out_bytes toText method path key animationKey timeNow now randomNum) as Hb.
  destruct (strip_encode_shape _ Hb) as [Hc Hl]. split; [exact Hc |].
  assert (Hn : List.length (out toText method path key animationKey timeNow now randomNum)
               = (List.length (getKeyBytes key) + 22)%nat).
  { unfold out, Uint8Array. rewrite length_map. cbn [List.length].
    rewrite length_map, bytesArr_plaintext, plaintext_length.
    unfold getKeyBytes. lia. }
  rewrite Hn in Hl.
  set (n := (List.length (getKeyBytes key) + 22)%nat) in *.
  set (len := String.length _) in *.
  pose proof (Nat.mod_upper_bound n 3 ltac:(lia)) as Hm.
  apply Nat.div_unique with (r := match (n mod 3)%nat with
                                            | 1%nat => 0 | 2%nat => 1 | _ => 2
                                            end%nat).
  - destruct (n mod 3)%nat as [| [| [| ?]]]; lia.
  - destruct (n mod 3)%nat as [| [| [| ?]]]; lia.
Qed.

(** The bits of [ToInt32(t)] below bit 32 are those of [t]. *)
Lemma toInt32_byte (t k : Z) :
  0 <= k <= 24 ->
  Z.land (Z.shiftr (toInt32 t) k) 255 = (t / 2 ^ k) mod 256.
Proof.
  intros Hk. change 255 with (Z.ones 8). rewrite Z.land_ones by lia.
  rewrite Z.shiftr_div_pow2 by lia.
  unfold toInt32.
  set (q := (t + 2 ^ 31) / 2 ^ 32).
  assert (E : (t + 2 ^ 31) mod 2 ^ 32 - 2 ^ 31 = t + (- q) * 2 ^ 32).
  { pose proof (Z.div_mod (t + 2 ^ 31) (2 ^ 32) ltac:(lia)). fold q in H. lia. }
  rewrite E.
  replace (2 ^ 32) with (2 ^ (32 - k) * 2 ^ k)
    by (rewrite <- Z.pow_add_r by lia; f_equal; lia).
  rewrite Z.mul_assoc, Z.div_add by (apply Z.pow_nonzero; lia).
  replace (2 ^ (32 - k)) with (2 ^ (24 - k) * 2 ^ 8)
    by (rewrite <- Z.pow_add_r by lia; f_equal; lia).
  rewrite Z.mul_assoc. change (2 ^ 8) with 256. rewrite Z.mod_add by lia. reflexivity.
Qed.

(** X3.  The four time bytes are the little-endian bytes of the timestamp
    modulo [2^32], for every integer timestamp, negative or beyond 32 bits:
    they put together give the timestamp modulo [2^32]. *)
Theorem timeNowBytes_little_endian (t : Z) :
  timeNowBytes t
  = [t mod 256; (t / 256) mod 256; (t / 65536) mod 256; (t / 16777216) mod 256]
  /\ (forall b0 b1 b2 b3 : Z,
        timeNowBytes t = [b0; b1; b2; b3] ->
        b0 + 256 * b1 + 65536 * b2 + 16777216 * b3 = t mod 2 ^ 32)
  /\ timeNowBytes (t mod 2 ^ 32) = timeNowBytes t.
Proof.
  assert (E : forall x, timeNowBytes x
              = [x mod 256; (x / 256) mod 256; (x / 65536) mod 256;
                 (x / 16777216) mod 256]).
  { intros x. unfold timeNowBytes.
    rewrite <- (Z.shiftr_0_r (toInt32 x)) at 1.
    rewrite !toInt32_byte by lia.
    change (2 ^ 0) with 1. rewrite Z.div_1_r. reflexivity. }
  assert (D : forall x, x / 65536 = x / 256 / 256 /\ x / 16777216 = x / 256 / 256 / 256
                        /\ x / 2 ^ 32 = x / 256 / 256 / 256 / 256).
  { intros x. rewrite !Z.div_div by lia. split; [reflexivity | split; reflexivity]. }
  split; [apply E |]. split.
  - intros b0 b1 b2 b3 H. rewrite E in H. injection H as <- <- <- <-.
    destruct (D t) as (D1 & D2 & D3).
    rewrite (Z.mod_eq t (2 ^ 32)) by lia. rewrite D1, D2, D3.
    change (2 ^ 32) with 4294967296. Z.div_mod_to_equations. lia.
  - unfold timeNowBytes.
    replace (toInt32 (t mod 2 ^ 32)) with (toInt32 t); [reflexivity |].
    unfold toInt32. rewrite Zplus_mod_idemp_l. reflexivity.
Qed.

(** X4.  The mask byte can be read off the token, so two runs that differ in
    the mask byte give different tokens, whatever else they are given. *)
Theorem token_mask_injective (toText : Z -> string) (method1 path1 key1 animationKey1 : string)
    (method2 path2 key2 animationKey2 : string) (timeNow1 timeNow2 : option Z)
    (now1 now2 r1 r2 : Z) :
  is_byte r1 -> is_byte r2 ->
  nth_error (decodeBase64
               (generateTransactionId toText method1 path1 key1 animationKey1 timeNow1 now1 r1)) 0
  = Some r1
  /\ (r1 <> r2 ->
      generateTransactionId toText method1 path1 key1 animationKey1 timeNow1 now1 r1
      <> generateTransactionId toText method2 path2 key2 animationKey2 timeNow2 now2 r2).
Proof.
  intros H1 H2.
  assert (E : forall m p k a tn now r, is_byte r ->
            nth_error (decodeBase64 (generateTransactionId toText m p k a tn now r)) 0 = Some r).
  { intros m p k a tn now r Hr. rewrite decode_token, out_masked by exact Hr. reflexivity. }
  split; [apply E; exact H1 |].
  intros Hne Heq.
  pose proof (E method1 path1 key1 animationKey1 timeNow1 now1 r1 H1) as E1.
  rewrite Heq, E in E1 by exact H2. congruence.
Qed.

Lemma token_mask_injective_witness :
  nth_error (decodeBase64 (generateTransactionId decimal "GET" "/a" "TWFu" "00" (Some 5) 0 1)) 0
  = Some 1
  /\ (1 <> 2 ->
      generateTransactionId decimal "GET" "/a" "TWFu" "00" (Some 5) 0 1
      <> generateTransactionId decimal "POST" "/b" "TWFuTWFu" "11" None 9 2).
Proof.
  apply (token_mask_injective decimal "GET" "/a" "TWFu" "00" "POST" "/b" "TWFuTWFu" "11"
           (Some 5) None 0 9 1 2); unfold is_byte; lia.
Defined.

End TokenMore.

(** ** The session: [getIndices], [getKey] and [create] *)

Section SessionFacts.

Import Session.

Local Open Scope string_scope.

Lemma append_assoc (a b c : string) : (a ++ b) ++ c = a ++ (b ++ c).
Proof. induction a as [| x a IH]; cbn; [reflexivity | rewrite IH; reflexivity]. Qed.

Lemma append_nil_r (a : string) : a ++ "" = a.
Proof. induction a as [| x a IH]; cbn; [reflexivity | rewrite IH; reflexivity]. Qed.

Lemma length_append (a b : string) :
  String.length (a ++ b) = (String.length a + String.length b)%nat.
Proof. induction a as [| x a IH]; cbn; [reflexivity | rewrite IH; reflexivity]. Qed.

Lemma quote_cases (q : ascii) : is_quote q = true -> q = "'"%char \/ q = "034"%char.
Proof.
  unfold is_quote. intros H. apply orb_true_iff in H.
  destruct H as [H | H]; apply Nat.eqb_eq in H;
    apply (f_equal ascii_of_nat) in H; rewrite ascii_nat_embedding in H;
    [left | right]; exact H.
Qed.

Lemma take_word_all (name : string) (q : ascii) (post : string) :
  all_chars is_word name = true -> is_word q = false ->
  take_word (name ++ String q post) = (name, String q post).
Proof.
  intros H Hq. induction name as [| c name IH].
  - cbn. rewrite Hq. reflexivity.
  - unfold all_chars in H. cbn in H. apply andb_true_iff in H. destruct H as [Hc H].
    cbn. rewrite Hc, (IH H). reflexivity.
Qed.

Lemma ondemand_at_reference (q1 q2 : ascii) (name post : string) :
  is_quote q1 = true -> is_quote q2 = true -> all_chars is_word name = true ->
  ondemand_at (String q1 "ondemand.s" ++ String q1 ":" ++ String q2 name ++ String q2 post)
  = Some name.
Proof.
  intros H1 H2 Hn.
  assert (Hw : is_word q2 = false) by (destruct (quote_cases q2 H2); subst; reflexivity).
  assert (Hs : Str.is_space q2 = false) by (destruct (quote_cases q2 H2); subst; reflexivity).
  unfold ondemand_at. cbn [append]. rewrite H1.
  cbn [after_literal Ascii.eqb Bool.eqb]. rewrite Ascii.eqb_refl.
  cbn [Str.trimStart]. rewrite Hs, H2.
  rewrite (take_word_all name q2 post Hn Hw). rewrite Ascii.eqb_refl. reflexivity.
Qed.

Lemma ondemand_exec_skip (pre s : string) :
  all_chars (fun a => negb (is_quote a)) pre = true ->
  ondemand_exec (pre ++ s) = ondemand_exec s.
Proof.
  intros H. induction pre as [| c pre IH]; [reflexivity |].
  unfold all_chars in H. cbn in H. apply andb_true_iff in H. destruct H as [Hc H].
  apply negb_true_iff in Hc.
  cbn [append ondemand_exec]. unfold ondemand_at at 1. rewrite Hc. exact (IH H).
Qed.

Lemma ondemand_exec_page (pre : string) (q1 q2 : ascii) (name post : string) :
  all_chars (fun a => negb (is_quote a)) pre = true ->
  is_quote q1 = true -> is_quote q2 = true -> all_chars is_word name = true ->
  ondemand_exec (render_page pre q1 q2 name post) = Some name.
Proof.
  intros Hp H1 H2 Hn. unfold render_page. rewrite (ondemand_exec_skip _ _ Hp).
  pose proof (ondemand_at_reference q1 q2 name post H1 H2 Hn) as E.
  destruct (String q1 "ondemand.s" ++ String q1 ":" ++ String q2 name ++ String q2 post)
    as [| c s] eqn:Es; [discriminate |].
  cbn [ondemand_exec]. rewrite E. reflexivity.
Qed.

Lemma trimStart_blank (sp : string) (c : ascii) (rest : string) :
  all_chars Str.is_space sp = true -> Str.is_space c = false ->
  Str.trimStart (sp ++ String c rest) = String c rest.
Proof.
  intros H Hc. induction sp as [| a sp IH].
  - cbn. rewrite Hc. reflexivity.
  - unfold all_chars in H. cbn in H. apply andb_true_iff in H. destruct H as [Ha H].
    cbn. rewrite Ha. exact (IH H).
Qed.

Lemma index_at_call (w : ascii) (ds sp rest : string) :
  is_word w = true -> index_text ds = true -> all_chars Str.is_space sp = true ->
  index_at ("(" ++ String w "[" ++ ds ++ "]," ++ sp ++ "16)" ++ rest) = Some (ds, rest).
Proof.
  intros Hw Hd Hs.
  assert (T : Str.trimStart (sp ++ "16)" ++ rest) = "16)" ++ rest)
    by (apply trimStart_blank; [exact Hs | reflexivity]).
  destruct ds as [| a [| b [| c ds]]]; cbn in Hd; try discriminate.
  - cbn [append index_at]. rewrite Hw, Hd. cbn [Str.is_digit].
    change (Str.is_digit "]") with false. cbv iota.
    cbn [append] in T. rewrite T. reflexivity.
  - apply andb_true_iff in Hd. destruct Hd as [Ha Hb].
    cbn [append index_at]. rewrite Hw, Ha, Hb.
    cbn [append] in T. rewrite T. reflexivity.
Qed.

Lemma index_matches_skip (a b : string) :
  index_matches (String.length a) (a ++ b) = index_matches 0 b.
Proof.
  induction a as [| c a IH]; [destruct b; reflexivity |]. cbn. exact IH.
Qed.

Lemma index_matches_junk (j s : string) :
  all_chars (fun a => negb (Ascii.eqb a "(")) j = true ->
  index_matches 0 (j ++ s) = index_matches 0 s.
Proof.
  intros H. induction j as [| c j IH]; [reflexivity |].
  unfold all_chars in H. cbn in H. apply andb_true_iff in H. destruct H as [Hc H].
  apply negb_true_iff in Hc. apply Ascii.eqb_neq in Hc.
  cbn [append index_matches].
  assert (E : index_at (String c (j ++ s)) = None).
  { unfold index_at. destruct c as [[] [] [] [] [] [] [] []]; try reflexivity.
    contradiction Hc. reflexivity. }
  rewrite E. exact (IH H).
Qed.

Lemma index_matches_here (c : ascii) (s : string) :
  index_matches 0 (String c s)
  = match index_at (String c s) with
    | Some (ds, after) => ds :: index_matches (String.length s - String.length after) s
    | None => index_matches 0 s
    end.
Proof. reflexivity. Qed.

Lemma index_matches_call (c : index_call) (rest : string) :
  well_formed_call c = true ->
  index_matches 0 (render_call c ++ rest) = digits c :: index_matches 0 rest.
Proof.
  unfold well_formed_call. intros H.
  apply andb_true_iff in H. destruct H as [H Hs].
  apply andb_true_iff in H. destruct H as [H Hd].
  apply andb_true_iff in H. destruct H as [Hj Hw].
  unfold render_call. rewrite append_assoc. rewrite (index_matches_junk _ _ Hj).
  rewrite !append_assoc.
  pose proof (index_at_call (variable c) (digits c) (blank c) rest Hw Hd Hs) as E.
  cbn [append] in E |- *. rewrite index_matches_here, E. f_equal.
  set (tail := String (variable c) (String "[" (digits c ++ String "]" (String ","
                 (blank c ++ String "1" (String "6" (String ")" ""))))))).
  replace (String (variable c) (String "[" (digits c ++ String "]" (String ","
             (blank c ++ String "1" (String "6" (String ")" rest)))))))
    with (tail ++ rest).
  - rewrite length_append. replace (String.length tail + String.length rest
                                    - String.length rest)%nat
      with (String.length tail) by lia.
    apply index_matches_skip.
  - unfold tail. cbn [append]. rewrite (append_assoc (digits c)). cbn [append].
    rewrite (append_assoc (blank c)). reflexivity.
Qed.

Lemma index_matches_script (calls : list index_call) (tail : string) :
  forallb well_formed_call calls = true ->
  all_chars (fun a => negb (Ascii.eqb a "(")) tail = true ->
  index_matches 0 (render_script calls tail) = map digits calls.
Proof.
  intros H Ht. induction calls as [| c calls IH].
  - cbn [render_script fold_right map].
    rewrite <- (append_nil_r tail), (index_matches_junk tail "" Ht). reflexivity.
  - cbn in H. apply andb_true_iff in H. destruct H as [Hc H].
    cbn [render_script fold_right]. rewrite (index_matches_call c _ Hc).
    cbn [map]. f_equal. exact (IH H).
Qed.

Lemma index_at_text (s ds after : string) :
  index_at s = Some (ds, after) -> index_text ds = true.
Proof.
  intros E. unfold index_at in E. crack E.
  - injection E as <- _. cbn [index_text].
    repeat match goal with
           | H : Str.is_digit _ = true |- _ => rewrite H; clear H
           end.
    reflexivity.
  - injection E as <- _. cbn [index_text].
    repeat match goal with
           | H : Str.is_digit _ = true |- _ => rewrite H; clear H
           end.
    reflexivity.
Qed.

Lemma index_matches_texts (s : string) (skip : nat) :
  Forall (fun d => index_text d = true) (index_matches skip s).
Proof.
  revert skip. induction s as [| c s IH]; intros skip; [constructor |].
  destruct skip as [| skip]; [| apply IH].
  rewrite index_matches_here.
  destruct (index_at (String c s)) as [[ds after] |] eqn:E; [| apply IH].
  constructor; [exact (index_at_text _ _ _ E) | apply IH].
Qed.

Lemma digit_value (a : ascii) :
  Str.is_digit a = true ->
  exists v : Z, (0 <= v <= 9)%Z /\ a = ascii_of_nat (48 + Z.to_nat v).
Proof.
  unfold Str.is_digit. intros H.
  exists (Z.of_nat (nat_of_ascii a) - 48)%Z.
  apply andb_true_iff in H. destruct H as [H1 H2].
  apply Nat.leb_le in H1. apply Nat.leb_le in H2. split; [lia |].
  replace (48 + Z.to_nat (Z.of_nat (nat_of_ascii a) - 48))%nat with (nat_of_ascii a) by lia.
  symmetry. apply ascii_nat_embedding.
Qed.

Lemma index_values_checked :
  forallb (fun a => forallb (fun b =>
     (index_value (String (ascii_of_nat (48 + a)) "") <? 100)%nat
     && (index_value (String (ascii_of_nat (48 + a)) (String (ascii_of_nat (48 + b)) ""))
         <? 100)%nat) (seq 0 10)) (seq 0 10) = true.
Proof. vm_compute. reflexivity. Qed.

Lemma index_value_bound (ds : string) : index_text ds = true -> (index_value ds < 100)%nat.
Proof.
  intros H.
  assert (S10 : forall v : Z, (0 <= v <= 9)%Z -> In (Z.to_nat v) (seq 0 10))
    by (intros v Hv; apply in_seq; lia).
  assert (K : forall a b : Z, (0 <= a <= 9)%Z -> (0 <= b <= 9)%Z ->
     (index_value (String (ascii_of_nat (48 + Z.to_nat a)) "") <? 100)%nat
     && (index_value (String (ascii_of_nat (48 + Z.to_nat a))
                        (String (ascii_of_nat (48 + Z.to_nat b)) "")) <? 100)%nat = true).
  { intros a b Ha Hb.
    pose proof (proj1 (forallb_forall _ _) index_values_checked _ (S10 a Ha)) as Q.
    cbv beta in Q. exact (proj1 (forallb_forall _ _) Q _ (S10 b Hb)). }
  destruct ds as [| a [| b [| c ds]]]; cbn in H; try discriminate.
  - destruct (digit_value a H) as (v & Hv & ->).
    pose proof (K v v Hv Hv) as Q. apply andb_true_iff in Q. destruct Q as [Q _].
    apply Nat.ltb_lt in Q. exact Q.
  - apply andb_true_iff in H. destruct H as [Ha Hb].
    destruct (digit_value a Ha) as (v & Hv & ->).
    destruct (digit_value b Hb) as (u & Hu & ->).
    pose proof (K v u Hv Hu) as Q. apply andb_true_iff in Q. destruct Q as [_ Q].
    apply Nat.ltb_lt in Q. exact Q.
Qed.

Section WithNetwork.

Variable outerHTML : Dom.Document -> string.
Variable fetch_text : string -> option string.

Lemma collected_below_100 (homePageDocument : Dom.Document) :
  Forall (fun i => (i < 100)%nat)
         (map index_value (collected outerHTML fetch_text homePageDocument)).
Proof.
  apply Forall_map. unfold collected.
  destruct (ondemand_exec _) as [name |]; [| constructor].
  destruct (fetch_text _) as [text |]; [| constructor].
  eapply Forall_impl; [| apply index_matches_texts].
  intros ds. apply index_value_bound.
Qed.

Lemma getIndices_error (homePageDocument : Dom.Document) :
  getIndices outerHTML fetch_text homePageDocument <> Unfinished
  /\ forall e, getIndices outerHTML fetch_text homePageDocument = Err e ->
               e = KeyByteIndicesError.
Proof.
  unfold getIndices. destruct (map index_value _) as [| first others].
  - split; [discriminate |]. intros e H. injection H as <-. reflexivity.
  - split; discriminate.
Qed.

(** X5.  Every number [getIndices] returns, the row index and each key-byte
    index, is below 100: [INDICES_REGEX] captures one or two digits.  And a
    failed fetch is not reported as such: when the page has no reference to
    the on-demand file, or the fetch of the file it refers to fails,
    [getIndices] fails with the error about the key-byte indices. *)
Theorem getIndices_below_100 (homePageDocument : Dom.Document) :
  (forall rowIndex keyByteIndices,
      getIndices outerHTML fetch_text homePageDocument = Ok (rowIndex, keyByteIndices) ->
      (rowIndex < 100)%nat /\ Forall (fun i => (i < 100)%nat) keyByteIndices)
  /\ ((forall name, ondemand_exec (outerHTML homePageDocument) = Some name ->
                    fetch_text (ondemand_url name) = None) ->
      getIndices outerHTML fetch_text homePageDocument = Err KeyByteIndicesError).
Proof.
  split.
  - intros rowIndex keyByteIndices H. unfold getIndices in H.
    pose proof (collected_below_100 homePageDocument) as B.
    destruct (map index_value _) as [| first others]; [discriminate |].
    injection H as <- <-. inversion B; subst. split; assumption.
  - intros H. unfold getIndices, collected.
    destruct (ondemand_exec (outerHTML homePageDocument)) as [name |]; [| reflexivity].
    rewrite (H name eq_refl). reflexivity.
Qed.

(** X6.  [getIndices] reads a page and a script back: if the first quote
    character of the page opens the reference ['ondemand.s':'name'] (with
    either quote character) and the file [ondemand.s.<name>a.js] is a script
    whose opening parentheses all belong to occurrences [(w[dd],16)] of one or
    two digits, then the row index is the number of the first occurrence and
    the key-byte indices are the numbers of the others, in order. *)
Theorem getIndices_reads_script (homePageDocument : Dom.Document)
    (pre : string) (q1 q2 : ascii) (name post : string)
    (first : index_call) (others : list index_call) (tail : string) :
  outerHTML homePageDocument = render_page pre q1 q2 name post ->
  all_chars (fun a => negb (is_quote a)) pre = true ->
  is_quote q1 = true -> is_quote q2 = true ->
  all_chars is_word name = true ->
  fetch_text (ondemand_url name) = Some (render_script (first :: others) tail) ->
  forallb well_formed_call (first :: others) = true ->
  all_chars (fun a => negb (Ascii.eqb a "(")) tail = true ->
  getIndices outerHTML fetch_text homePageDocument
  = Ok (index_value (digits first), map (fun c => index_value (digits c)) others).
Proof.
  intros Hpage Hpre H1 H2 Hname Hfetch Hcalls Htail.
  unfold getIndices, collected.
  rewrite Hpage, (ondemand_exec_page pre q1 q2 name post Hpre H1 H2 Hname), Hfetch.
  rewrite (index_matches_script _ _ Hcalls Htail).
  cbn [map]. rewrite map_map. reflexivity.
Qed.

(** Without a reference to the on-demand file, nothing is fetched. *)
Lemma getIndices_no_reference (homePageDocument : Dom.Document) :
  ondemand_exec (outerHTML homePageDocument) = None ->
  getIndices outerHTML fetch_text homePageDocument = Err KeyByteIndicesError.
Proof. intros H. unfold getIndices, collected. rewrite H. reflexivity. Qed.

(** X7.  [getKey] looks at the first element named [twitter-site-verification]
    only: its [content] is the key if it is there and not empty, and the call
    fails otherwise, whatever the elements after it carry. *)
Theorem getKey_first_element (response : Dom.Document)
    (before after : list Dom.Element) (element : Dom.Element) :
  Dom.elements response = (before ++ element :: after)%list ->
  forallb (fun e => negb (has_name "twitter-site-verification" e)) before = true ->
  has_name "twitter-site-verification" element = true ->
  getKey response
  = match Dom.getAttribute element "content" with
    | Some (String c key) => Ok (String c key)
    | _ => Err KeyError
    end.
Proof.
  intros He Hb Hn. unfold getKey, querySelector_name. rewrite He.
  assert (F : find (has_name "twitter-site-verification") (before ++ element :: after)%list
              = Some element).
  { clear He. induction before as [| b before IH].
    - cbn. rewrite Hn. reflexivity.
    - cbn in Hb. apply andb_true_iff in Hb. destruct Hb as [Hb1 Hb].
      apply negb_true_iff in Hb1. cbn. rewrite Hb1. exact (IH Hb). }
  rewrite F. destruct (Dom.getAttribute element "content") as [[| c key] |]; reflexivity.
Qed.

Lemma getKey_not_empty (response : Dom.Document) (key : string) :
  getKey response = Ok key -> key <> "".
Proof.
  unfold getKey.
  set (content := match querySelector_name _ _ with Some _ => _ | None => _ end).
  destruct (String.eqb content "") eqn:E; [discriminate |].
  intros H. injection H as <-. apply String.eqb_neq. exact E.
Qed.

Lemma getKey_no_element (response : Dom.Document) :
  forallb (fun e => negb (has_name "twitter-site-verification" e)) (Dom.elements response)
  = true ->
  getKey response = Err KeyError.
Proof.
  intros H. unfold getKey, querySelector_name.
  assert (F : find (has_name "twitter-site-verification") (Dom.elements response) = None).
  { induction (Dom.elements response) as [| b l IH]; [reflexivity |].
    cbn in H. apply andb_true_iff in H. destruct H as [Hb H].
    apply negb_true_iff in Hb. cbn. rewrite Hb. exact (IH H). }
  rewrite F. reflexivity.
Qed.

Variable Math_cos Math_sin : number -> number.

(** X8.  [create] composes the three steps and keeps their order: without
    key-byte indices it fails with that error whatever the key is; with them
    and without a key it fails with the key error; its own guard
    [if (!key) throw new Error("Failed to get key")] never fires; and when it
    returns, the key is the page's key, not empty, and the animation key is
    [getAnimationKey]'s on the decoded key. *)
Theorem create_steps (fuel : nat) (homePageDocument : Dom.Document) :
  create outerHTML fetch_text Math_cos Math_sin fuel homePageDocument
  <> Err FailedToGetKey
  /\ (getIndices outerHTML fetch_text homePageDocument = Err KeyByteIndicesError ->
      create outerHTML fetch_text Math_cos Math_sin fuel homePageDocument
      = Err KeyByteIndicesError)
  /\ (forall indices,
        getIndices outerHTML fetch_text homePageDocument = Ok indices ->
        getKey homePageDocument = Err KeyError ->
        create outerHTML fetch_text Math_cos Math_sin fuel homePageDocument
        = Err KeyError)
  /\ (forall key animationKey,
        create outerHTML fetch_text Math_cos Math_sin fuel homePageDocument
        = Ok (key, animationKey) ->
        key <> ""
        /\ getKey homePageDocument = Ok key
        /\ exists rowIndex keyByteIndices,
             getIndices outerHTML fetch_text homePageDocument
             = Ok (rowIndex, keyByteIndices)
             /\ Transaction.getAnimationKey Math_cos Math_sin fuel
                  (Transaction.getKeyBytes key) homePageDocument rowIndex keyByteIndices
                = Returns animationKey).
Proof.
  unfold create.
  destruct (getIndices_error homePageDocument) as [HU HE].
  destruct (getIndices outerHTML fetch_text homePageDocument)
    as [[rowIndex keyByteIndices] | e |] eqn:EI;
    [| rewrite (HE e eq_refl) | contradiction HU; reflexivity].
  - destruct (getKey homePageDocument) as [key | e |] eqn:EK.
    + pose proof (getKey_not_empty _ _ EK) as Hne.
      apply String.eqb_neq in Hne. rewrite Hne.
      destruct (Transaction.getAnimationKey _ _ _ _ _ _ _) as [ak | e |] eqn:EA.
      * split; [discriminate |]. split; [discriminate |]. split; [discriminate |].
        intros key' ak' H. injection H as <- <-.
        split; [apply String.eqb_neq; exact Hne |]. split; [reflexivity |].
        exists rowIndex, keyByteIndices. split; [reflexivity | exact EA].
      * split; [discriminate |]. split; [discriminate |]. split; discriminate.
      * split; [discriminate |]. split; [discriminate |]. split; discriminate.
    + split; [unfold getKey in EK; destruct (String.eqb _ _); congruence |].
      split; [discriminate |].
      split; [intros ? _ H; injection H as ->; reflexivity | discriminate].
    + unfold getKey in EK. destruct (String.eqb _ _); discriminate.
  - split; [discriminate |]. split; [reflexivity |]. split; discriminate.
Qed.

End WithNetwork.

End SessionFacts.

Lemma getIndices_reads_script_witness :
  Session.getIndices
    (fun _ => "<html><script>{'ondemand.s':'abc12'}</script></html>"%string)
    (fun url =>
       if String.eqb url
            "https://abs.twimg.com/responsive-web/client-web/ondemand.s.abc12a.js"
       then Some "f(a[12], 16)+g(b[3],16);"%string else None)
    (Dom.mkElement [] [])
  = Session.Ok (12%nat, [3%nat]).
Proof.
  apply (getIndices_reads_script
           (fun _ => "<html><script>{'ondemand.s':'abc12'}</script></html>"%string)
           (fun url =>
              if String.eqb url
                   "https://abs.twimg.com/responsive-web/client-web/ondemand.s.abc12a.js"
              then Some "f(a[12], 16)+g(b[3],16);"%string else None)
           (Dom.mkElement [] [])
           "<html><script>{"%string "'"%char "'"%char "abc12"%string
           "}</script></html>"%string
           (mkCall "f" "a" "12" " ") [mkCall "+g" "b" "3" ""] ";"%string);
    reflexivity.
Defined.

Lemma getKey_first_element_witness :
  Session.getKey
    (Dom.mkElement []
       [Dom.mkElement [("name", "twitter-site-verification")%string] [];
        Dom.mkElement [("name", "twitter-site-verification")%string;
                       ("content", "TWFu")%string] []])
  = Session.Err Session.KeyError.
Proof.
  apply (getKey_first_element
           (Dom.mkElement []
              [Dom.mkElement [("name", "twitter-site-verification")%string] [];
               Dom.mkElement [("name", "twitter-site-verification")%string;
                              ("content", "TWFu")%string] []])
           [Dom.mkElement []
              [Dom.mkElement [("name", "twitter-site-verification")%string] [];
               Dom.mkElement [("name", "twitter-site-verification")%string;
                              ("content", "TWFu")%string] []]]
           [Dom.mkElement [("name", "twitter-site-verification")%string;
                           ("content", "TWFu")%string] []]
           (Dom.mkElement [("name", "twitter-site-verification")%string] []));
    reflexivity.
Defined.

(** ** The frame table *)

Section FrameTable.

Import Transaction.

Local Open Scope string_scope.

Lemma digit_not_space (c : ascii) : Str.is_digit c = true -> Str.is_space c = false.
Proof.
  unfold Str.is_digit, Str.is_space. intros H.
  apply andb_true_iff in H. destruct H as [H1 H2].
  apply Nat.leb_le in H1. apply Nat.leb_le in H2.
  apply orb_false_iff. split; [apply orb_false_iff; split |].
  - apply andb_false_iff. right. apply Nat.leb_gt. lia.
  - apply Nat.eqb_neq. lia.
  - apply Nat.eqb_neq. lia.
Qed.

Lemma trimEnd_cons (c : ascii) (x : string) :
  Str.is_space c = false -> Str.trimEnd (String c x) = String c (Str.trimEnd x).
Proof. intros H. cbn [Str.trimEnd]. rewrite H. destruct (Str.trimEnd x); reflexivity. Qed.

(** After the replacement, in a run of non-digits, the text is empty or starts
    with a digit. *)
Lemma replace_in_run_head (s : string) :
  match Str.replace_non_digits true s with
  | EmptyString => True
  | String c _ => Str.is_digit c = true
  end.
Proof.
  induction s as [| c s IH]; [exact I |].
  cbn [Str.replace_non_digits]. destruct (Str.is_digit c) eqn:E; [exact E | exact IH].
Qed.

Lemma trimStart_replace (b : bool) (s : string) :
  Str.trimStart (Str.replace_non_digits b s) = Str.replace_non_digits true s.
Proof.
  assert (T : forall x, Str.trimStart (Str.replace_non_digits true x)
                        = Str.replace_non_digits true x).
  { intros x. pose proof (replace_in_run_head x) as H.
    destruct (Str.replace_non_digits true x) as [| c r]; [reflexivity |].
    cbn [Str.trimStart]. rewrite (digit_not_space c H). reflexivity. }
  destruct s as [| c s]; [destruct b; reflexivity |].
  cbn [Str.replace_non_digits]. destruct (Str.is_digit c) eqn:E.
  - cbn [Str.trimStart]. rewrite (digit_not_space c E). reflexivity.
  - destruct b; [apply T |]. cbn [Str.trimStart]. change (Str.is_space " ") with true.
    cbv iota. apply T.
Qed.

Lemma trimEnd_head (x : string) :
  match x with
  | EmptyString => True
  | String c _ => Str.is_space c = false
  end ->
  match Str.trimEnd x with
  | EmptyString => x = EmptyString
  | String c _ => Str.is_space c = false
  end.
Proof.
  destruct x as [| c r]; [reflexivity |]. intros H. rewrite (trimEnd_cons c r H). exact H.
Qed.

Lemma split_spaces_cons (b : bool) (s : string) :
  exists piece pieces, Str.split_spaces b s = piece :: pieces.
Proof.
  revert b. induction s as [| c s IH]; intros b; [cbn; eauto |].
  cbn [Str.split_spaces]. destruct (Str.is_space c).
  - destruct b; [apply IH | eauto].
  - destruct (IH false) as (p & ps & E). rewrite E. eauto.
Qed.

Lemma split_spaces_prefix (pre x : string) :
  all_chars Str.is_digit pre = true ->
  Str.split_spaces false (pre ++ x)
  = (pre ++ hd "" (Str.split_spaces false x)) :: tl (Str.split_spaces false x).
Proof.
  intros H. induction pre as [| c pre IH].
  - cbn [append]. destruct (split_spaces_cons false x) as (p & ps & E). rewrite E. reflexivity.
  - unfold all_chars in H. cbn in H. apply andb_true_iff in H. destruct H as [Hc H].
    cbn [append Str.split_spaces]. rewrite (digit_not_space c Hc), (IH H). reflexivity.
Qed.

Lemma split_spaces_after_space (x : string) :
  match x with
  | EmptyString => False
  | String c _ => Str.is_space c = false
  end ->
  Str.split_spaces true x = Str.split_spaces false x.
Proof.
  destruct x as [| c r]; [contradiction |]. intros H. cbn [Str.split_spaces].
  rewrite H. reflexivity.
Qed.

(** The value of a string of digits. *)
Lemma digits_value_snoc (pre : string) (c : ascii) (acc : Z) (seen : bool) :
  all_chars Str.is_digit pre = true -> Str.is_digit c = true ->
  Str.digits_value acc seen (pre ++ String c "")
  = (10 * fst (Str.digits_value acc seen pre) + (Z.of_nat (nat_of_ascii c) - 48), true)%Z.
Proof.
  intros H Hc. revert acc seen. induction pre as [| a pre IH]; intros acc seen.
  - cbn. rewrite Hc. reflexivity.
  - unfold all_chars in H. cbn in H. apply andb_true_iff in H. destruct H as [Ha H].
    cbn [append Str.digits_value]. rewrite Ha. apply (IH H).
Qed.

Lemma digits_value_seen (pre : string) (acc : Z) :
  all_chars Str.is_digit pre = true -> snd (Str.digits_value acc true pre) = true.
Proof.
  intros H. revert acc. induction pre as [| a pre IH]; intros acc; [reflexivity |].
  unfold all_chars in H. cbn in H. apply andb_true_iff in H. destruct H as [Ha H].
  cbn [Str.digits_value]. rewrite Ha. apply (IH H).
Qed.

Lemma parseInt_digits (c : ascii) (pre : string) :
  all_chars Str.is_digit (String c pre) = true ->
  Str.parseInt (String c pre)
  = num_of_Z (fst (Str.digits_value 0 false (String c pre))).
Proof.
  intros H. unfold all_chars in H. cbn in H. apply andb_true_iff in H.
  destruct H as [Hc H]. unfold Str.parseInt.
  cbn [Str.trimStart]. rewrite (digit_not_space c Hc). cbv zeta.
  pose proof (fun acc => digits_value_seen pre acc H) as S.
  destruct c as [[] [] [] [] [] [] [] []]; try discriminate Hc;
    cbv iota beta; cbn [Str.digits_value]; rewrite Hc;
    match goal with
    | |- context [Str.digits_value ?acc true pre] =>
        specialize (S acc); destruct (Str.digits_value acc true pre) as [v seen]
    end;
    cbn in S; subst seen; reflexivity.
Qed.

Lemma all_digits_snoc (pre : string) (c : ascii) :
  all_chars Str.is_digit pre = true -> Str.is_digit c = true ->
  all_chars Str.is_digit (pre ++ String c "") = true.
Proof.
  intros H Hc. induction pre as [| a pre IH].
  - unfold all_chars. cbn. rewrite Hc. reflexivity.
  - unfold all_chars in *. cbn in *. apply andb_true_iff in H. destruct H as [Ha H].
    rewrite Ha. exact (IH H).
Qed.

(** The parts of a cleaned segment, as [get2dArray] takes them. *)
Lemma segment_numbers (s : string) :
  (forall pre : string,
      pre <> "" -> all_chars Str.is_digit pre = true ->
      map Str.parseInt
          (Str.split_spaces false (pre ++ Str.trimEnd (Str.replace_non_digits false s)))
      = map num_of_Z (numbers_in (Some (fst (Str.digits_value 0 false pre))) s))
  /\ map Str.parseInt
         (if String.eqb (Str.trimEnd (Str.replace_non_digits true s)) ""
          then []
          else Str.split_spaces false (Str.trimEnd (Str.replace_non_digits true s)))
     = map num_of_Z (numbers_in None s).
Proof.
  induction s as [| c s [IH1 IH2]].
  - split; [| reflexivity]. intros pre Hne Hd.
    cbn [Str.replace_non_digits Str.trimEnd numbers_in map].
    rewrite (split_spaces_prefix pre "" Hd). cbn [Str.split_spaces hd tl map].
    rewrite append_nil_r.
    destruct pre as [| a pre]; [contradiction Hne; reflexivity |].
    rewrite (parseInt_digits a pre Hd). reflexivity.
  - cbn [Str.replace_non_digits numbers_in]. destruct (Str.is_digit c) eqn:Ec.
    + rewrite (trimEnd_cons c _ (digit_not_space c Ec)). split.
      * intros pre Hne Hd.
        replace (pre ++ String c (Str.trimEnd (Str.replace_non_digits false s)))
          with ((pre ++ String c "") ++ Str.trimEnd (Str.replace_non_digits false s))
          by (rewrite append_assoc; reflexivity).
        rewrite IH1.
        -- rewrite (digits_value_snoc pre c 0 false Hd Ec). reflexivity.
        -- destruct pre; discriminate.
        -- apply all_digits_snoc; assumption.
      * change (String.eqb (String c (Str.trimEnd (Str.replace_non_digits false s))) "")
          with false. cbv iota.
        change (String c (Str.trimEnd (Str.replace_non_digits false s)))
          with (String c "" ++ Str.trimEnd (Str.replace_non_digits false s)).
        rewrite IH1.
        -- cbn [Str.digits_value]. rewrite Ec. reflexivity.
        -- discriminate.
        -- unfold all_chars. cbn. rewrite Ec. reflexivity.
    + split; [| exact IH2].
      intros pre Hne Hd.
      pose proof (replace_in_run_head s) as Hh.
      cbn [Str.trimEnd]. change (Str.is_space " ") with true. cbv iota.
      destruct (Str.trimEnd (Str.replace_non_digits true s)) as [| a r] eqn:Et.
      * change (String.eqb "" "") with true in IH2. cbv iota in IH2.
        cbn [map] in IH2. symmetry in IH2. apply map_eq_nil in IH2. rewrite IH2.
        rewrite (split_spaces_prefix pre "" Hd). cbn [Str.split_spaces hd tl map].
        rewrite append_nil_r.
        destruct pre as [| b pre]; [contradiction Hne; reflexivity |].
        rewrite (parseInt_digits b pre Hd). reflexivity.
      * change (String.eqb (String a r) "") with false in IH2. cbv iota in IH2.
        rewrite (split_spaces_prefix pre _ Hd).
        change (Str.split_spaces false (String " " (String a r)))
          with ("" :: Str.split_spaces true (String a r)).
        cbn [hd tl map]. rewrite append_nil_r.
        assert (Ha : Str.is_space a = false).
        { assert (Hx : match Str.replace_non_digits true s with
                       | EmptyString => True
                       | String c0 _ => Str.is_space c0 = false
                       end).
          { destruct (Str.replace_non_digits true s); [exact I |].
            apply digit_not_space. exact Hh. }
          pose proof (trimEnd_head _ Hx) as Q. rewrite Et in Q. exact Q. }
        rewrite (split_spaces_after_space (String a r) Ha), IH2.
        destruct pre as [| b pre]; [contradiction Hne; reflexivity |].
        rewrite (parseInt_digits b pre Hd). reflexivity.
Qed.

(** X9.  A row of the frame table holds the decimal numbers written in its
    segment of the path data, in order: every maximal run of digits is one
    entry, and every other character (a sign, a decimal point, a letter, a
    blank) only separates entries. *)
Theorem parse_segment_numbers (item : string) :
  parse_segment item = map num_of_Z (numbers_in None item).
Proof.
  unfold parse_segment, Str.trim. cbv zeta. rewrite trimStart_replace.
  exact (proj2 (segment_numbers item)).
Qed.

Section MissingPath.

Variable Math_cos Math_sin : number -> number.

(** X10.  When the path element that [get2dArray] selects (the second child of
    the first child of frame [keyBytes[5] % 4]) has no attribute [d], the table
    is the empty array, and [getAnimationKey] fails with the error
    "Invalid frame data" for every row index and every list of key-byte
    indices. *)
Theorem missing_path_invalid_frame_data (fuel : nat) (keyBytes : list Z)
    (response : Dom.Document) (rowIndex : nat) (keyByteIndices : list nat)
    (b : Z) (frame firstChild targetChild : Dom.Element) :
  nth_error keyBytes 5 = Some b ->
  element_at (getFrames response) (Z.rem b 4) = Some frame ->
  nth_error (Dom.children frame) 0 = Some firstChild ->
  nth_error (Dom.children firstChild) 1 = Some targetChild ->
  Dom.getAttribute targetChild "d" = None ->
  get2dArray keyBytes response = Returns []
  /\ getAnimationKey Math_cos Math_sin fuel keyBytes response rowIndex keyByteIndices
     = Throws InvalidFrameData.
Proof.
  intros Hb Hf H1 H2 Hd.
  assert (E : get2dArray keyBytes response = Returns []).
  { unfold get2dArray. cbv zeta.
    destruct (getFrames response) as [| f fs] eqn:Ef.
    - unfold element_at in Hf. destruct (Z.rem b 4 <? 0)%Z; [discriminate |].
      destruct (Z.to_nat (Z.rem b 4)); discriminate.
    - cbn [List.length Nat.eqb]. rewrite Hb, Hf, H1, H2, Hd. reflexivity. }
  split; [exact E |].
  unfold getAnimationKey. cbv zeta. rewrite E. cbn [bind].
  destruct (option_map _ _) as [k |]; [| reflexivity].
  unfold element_at. destruct (k <? 0)%Z; [reflexivity |].
  destruct (Z.to_nat k); reflexivity.
Qed.

End MissingPath.

End FrameTable.

Lemma missing_path_invalid_frame_data_witness :
  Transaction.getAnimationKey (fun x => x) (fun x => x) 0 [0; 0; 0; 0; 0; 5]
    (Dom.mkElement []
       [Dom.mkElement [("id", "loading-x-anim-0")%string] [];
        Dom.mkElement [("id", "loading-x-anim-1")%string]
          [Dom.mkElement [] [Dom.mkElement [] []; Dom.mkElement [("fill", "red")%string] []]]])
    0 [1; 2]%nat
  = Throws InvalidFrameData.
Proof.
  apply (missing_path_invalid_frame_data (fun x => x) (fun x => x) 0 [0; 0; 0; 0; 0; 5]
           (Dom.mkElement []
              [Dom.mkElement [("id", "loading-x-anim-0")%string] [];
               Dom.mkElement [("id", "loading-x-anim-1")%string]
                 [Dom.mkElement []
                    [Dom.mkElement [] []; Dom.mkElement [("fill", "red")%string] []]]])
           0 [1; 2]%nat 5
           (Dom.mkElement [("id", "loading-x-anim-1")%string]
              [Dom.mkElement [] [Dom.mkElement [] []; Dom.mkElement [("fill", "red")%string] []]])
           (Dom.mkElement [] [Dom.mkElement [] []; Dom.mkElement [("fill", "red")%string] []])
           (Dom.mkElement [("fill", "red")%string] []));
    reflexivity.
Defined.

(** ** NaN in the solver and in [animate] *)

Section BlindSearch.

Local Open Scope float_scope.

(** X11.  [getValue(NaN)] returns, whatever the controls are: both tests on
    the x-estimate fail at every iteration, the interval is halved 1075 times
    until it is empty, and the value is the y-component at parameter 0.  It
    takes 1076 evaluations of the loop guard, no fewer. *)
Theorem getValue_nan_time (curves : list number) (extra : nat) :
  Cubic.getValue (1076 + extra) curves nan
  = Some (Cubic.calculate (index curves 1) (index curves 3) 0)
  /\ Cubic.getValue 1075 curves nan = None.
Proof.
  split.
  - apply getValue_blind; [right; right; reflexivity | reflexivity].
  - unfold Cubic.getValue. change (nan <=? 0) with false. change (1 <=? nan) with false.
    cbv iota. rewrite search_blind by (right; right; reflexivity).
    rewrite halvings_short. reflexivity.
Qed.

End BlindSearch.

Section ShortRows.

Import Transaction.

Local Open Scope float_scope.

Variable Math_cos Math_sin : number -> number.

Lemma curvesOf_short (frames : list number) :
  (List.length frames <= 7)%nat -> curvesOf frames = [].
Proof.
  intros H. unfold curvesOf, slice_from.
  rewrite skipn_all2 by exact H. reflexivity.
Qed.

(** Without curve controls, [getValue] returns at every time. *)
Lemma getValue_no_controls (extra : nat) (time : number) :
  exists v, Cubic.getValue (1076 + extra) [] time = Some v.
Proof.
  destruct (inside time) eqn:Hi.
  - rewrite getValue_blind; [eauto | left; reflexivity | exact Hi].
  - unfold inside in Hi. unfold Cubic.getValue.
    destruct (time <=? 0); [eauto |]. destruct (1 <=? time); [eauto | discriminate].
Qed.

(** The two colours have the same number of components unless the row has one
    to five entries. *)
Lemma colours_mismatch (frames : list number) :
  negb (Nat.eqb (List.length (slice 0 3 frames ++ [1]))
                (List.length (slice 3 6 frames ++ [1])))
  = (1 <=? List.length frames)%nat && (List.length frames <=? 5)%nat.
Proof.
  destruct frames as [| a [| b [| c [| d [| e [| f rest]]]]]]; reflexivity.
Qed.

(** X12.  [animate] fails only by the length check of [interpolate], and it
    does on exactly the rows of one to five entries: there the start colour
    has more components than the end colour.  A row of no entry or of six or
    more never makes it fail. *)
Theorem animate_fails_on_short_rows (frames : list number) (targetTime : number) :
  (forall fuel e,
      animate Math_cos Math_sin fuel frames targetTime = Throws e ->
      (1 <= List.length frames <= 5)%nat
      /\ e = MismatchedInterpolation (slice 0 3 frames ++ [1]) (slice 3 6 frames ++ [1]))
  /\ ((1 <= List.length frames <= 5)%nat ->
      forall extra,
        animate Math_cos Math_sin (1076 + extra) frames targetTime
        = Throws (MismatchedInterpolation (slice 0 3 frames ++ [1])
                    (slice 3 6 frames ++ [1]))).
Proof.
  split.
  - intros fuel e H. unfold animate in H. cbv zeta in H.
    destruct (Cubic.getValue fuel (curvesOf frames) targetTime) as [val |];
      [| discriminate].
    cbn [of_option bind] in H. unfold Interpolate.interpolate at 1 in H.
    rewrite colours_mismatch in H.
    destruct ((1 <=? List.length frames)%nat && (List.length frames <=? 5)%nat) eqn:E.
    + cbn [bind] in H. injection H as <-.
      apply andb_true_iff in E. destruct E as [E1 E2].
      apply Nat.leb_le in E1. apply Nat.leb_le in E2. split; [lia | reflexivity].
    + exfalso. cbn [bind] in H.
      unfold Interpolate.interpolate in H. cbn [List.length Nat.eqb negb bind] in H.
      destruct (matrix_pieces _ _); discriminate.
  - intros Hn extra. unfold animate. cbv zeta.
    rewrite (curvesOf_short frames) by lia.
    destruct (getValue_no_controls extra targetTime) as [v ->].
    cbn [of_option bind]. unfold Interpolate.interpolate at 1.
    rewrite colours_mismatch.
    replace ((1 <=? List.length frames)%nat && (List.length frames <=? 5)%nat) with true.
    + reflexivity.
    + symmetry. apply andb_true_iff. split; apply Nat.leb_le; lia.
Qed.

End ShortRows.

Lemma animate_fails_on_short_rows_witness :
  Transaction.animate (fun x => x) (fun x => x) 1076 [10; 20; 30; 40]%float 0.5%float
  = Throws (MismatchedInterpolation [10; 20; 30; 1]%float [40; 1]%float).
Proof.
  apply (proj2 (animate_fails_on_short_rows (fun x => x) (fun x => x)
                  [10; 20; 30; 40]%float 0.5%float) ltac:(cbn; lia) 0%nat).
Defined.

Section AnimationKey.

Import Transaction.

Local Open Scope float_scope.

Variable Math_cos Math_sin : number -> number.

Lemma fold_product_nan (keyBytes : list Z) (indices : list nat) :
  fold_left (fun num1 num2 => num1 * keyByte_mod16 keyBytes num2) indices nan = nan.
Proof.
  induction indices as [| i indices IH]; [reflexivity |].
  cbn [fold_left]. rewrite mul_nan_l. exact IH.
Qed.

Lemma frame_time_nan (keyBytes : list Z) (indices : list nat) (i : nat) (acc : number) :
  In i indices -> (List.length keyBytes <= i)%nat ->
  fold_left (fun num1 num2 => num1 * keyByte_mod16 keyBytes num2) indices acc = nan.
Proof.
  intros Hin Hi. revert acc. induction indices as [| j indices IH]; intros acc.
  - contradiction Hin.
  - cbn [fold_left]. destruct Hin as [-> | Hin]; [| apply IH; exact Hin].
    unfold keyByte_mod16 at 2.
    replace (nth_error keyBytes i) with (@None Z)
      by (symmetry; apply nth_error_None; exact Hi).
    rewrite mul_nan_r. apply fold_product_nan.
Qed.

(** X13.  Indices beyond the key.  When the row index is not below the number
    of key bytes, [getAnimationKey] fails with "Invalid frame data" (the row
    index value is NaN).  When one of the key-byte indices is not, the frame
    time is NaN and the key is [animate]'s at the time NaN: no error is
    raised. *)
Theorem getAnimationKey_index_beyond_key (fuel : nat) (keyBytes : list Z)
    (response : Dom.Document) (rowIndex : nat) (keyByteIndices : list nat)
    (arr : list (list number)) :
  get2dArray keyBytes response = Returns arr ->
  ((List.length keyBytes <= rowIndex)%nat ->
   getAnimationKey Math_cos Math_sin fuel keyBytes response rowIndex keyByteIndices
   = Throws InvalidFrameData)
  /\ (forall (i : nat) (b : Z) (frameRow : list number),
        In i keyByteIndices -> (List.length keyBytes <= i)%nat ->
        nth_error keyBytes rowIndex = Some b ->
        element_at arr (Z.rem b 16) = Some frameRow ->
        getAnimationKey Math_cos Math_sin fuel keyBytes response rowIndex keyByteIndices
        = animate Math_cos Math_sin fuel frameRow nan).
Proof.
  intros Harr. split.
  - intros Hr. unfold getAnimationKey. cbv zeta. rewrite Harr. cbn [bind].
    replace (nth_error keyBytes rowIndex) with (@None Z)
      by (symmetry; apply nth_error_None; exact Hr).
    reflexivity.
  - intros i b frameRow Hin Hi Hb Hrow. unfold getAnimationKey. cbv zeta.
    rewrite Harr, Hb. cbn [bind option_map]. rewrite Hrow.
    rewrite (frame_time_nan keyBytes keyByteIndices i 1 Hin Hi). reflexivity.
Qed.

Lemma remove_dots_dashes_append (a b : string) :
  Str.remove_dots_dashes (a ++ b)
  = (Str.remove_dots_dashes a ++ Str.remove_dots_dashes b)%string.
Proof.
  induction a as [| c a IH]; [reflexivity |].
  cbn [append Str.remove_dots_dashes].
  destruct (Ascii.eqb c "." || Ascii.eqb c "-"); [exact IH |].
  cbn [append]. rewrite IH. reflexivity.
Qed.

Lemma remove_dots_dashes_clean (s : string) :
  no_dot_no_dash (Str.remove_dots_dashes s) = true.
Proof.
  unfold no_dot_no_dash, all_chars, chars.
  induction s as [| c s IH]; [reflexivity |].
  cbn [Str.remove_dots_dashes].
  destruct (Ascii.eqb c "." || Ascii.eqb c "-") eqn:E; [exact IH |].
  cbn [list_ascii_of_string forallb]. rewrite E. exact IH.
Qed.

Lemma join_app (l1 l2 : list string) :
  Str.join (l1 ++ l2) = (Str.join l1 ++ Str.join l2)%string.
Proof.
  unfold Str.join. induction l1 as [| a l1 IH]; [reflexivity |].
  cbn [app]. destruct l1 as [| b l1].
  - cbn [app String.concat]. destruct l2 as [| c l2].
    + cbn. rewrite append_nil_r. reflexivity.
    + reflexivity.
  - cbn [app] in IH |- *.
    change (String.concat "" (a :: b :: l1 ++ l2))
      with (a ++ "" ++ String.concat "" (b :: l1 ++ l2))%string.
    change (String.concat "" (a :: b :: l1))
      with (a ++ "" ++ String.concat "" (b :: l1))%string.
    rewrite IH. cbn [append]. rewrite append_assoc. reflexivity.
Qed.

(** X14.  An animation key contains neither a dot nor a dash, and it ends
    with the two characters [00] that [animate] pushes last. *)
Theorem animate_key_format (fuel : nat) (frames : list number) (targetTime : number)
    (animationKey : string) :
  animate Math_cos Math_sin fuel frames targetTime = Returns animationKey ->
  no_dot_no_dash animationKey = true
  /\ exists body : string, animationKey = (body ++ "00")%string.
Proof.
  intros H. unfold animate in H. cbv zeta in H.
  destruct (Cubic.getValue fuel (curvesOf frames) targetTime) as [val |];
    [| discriminate].
  cbn [of_option bind] in H.
  destruct (Interpolate.interpolate _ _ val) as [color | e |]; try discriminate.
  cbn [bind] in H.
  destruct (Interpolate.interpolate _ _ val) as [rotation | e |]; try discriminate.
  cbn [bind] in H.
  destruct (matrix_pieces _ _) as [pieces |]; [| discriminate].
  cbn [of_option bind] in H. injection H as <-.
  split; [apply remove_dots_dashes_clean |].
  rewrite app_assoc, join_app, remove_dots_dashes_append. eexists. reflexivity.
Qed.

(** With a NaN value of the curve, every colour component is NaN and is
    replaced by 0, and the rotation is NaN. *)
Lemma interpolateNum_nan (x y : number) : Interpolate.interpolateNum x y nan = nan.
Proof.
  unfold Interpolate.interpolateNum. change (1 - nan) with nan.
  rewrite !mul_nan_r. reflexivity.
Qed.

Hypothesis Math_cos_nan : Math_cos nan = nan.
Hypothesis Math_sin_nan : Math_sin nan = nan.

Lemma animate_nan_value (fuel : nat) (a b c d e f : number) (rest : list number)
    (targetTime : number) :
  Cubic.getValue (S fuel) (curvesOf (a :: b :: c :: d :: e :: f :: rest)) targetTime
  = Some nan ->
  animate Math_cos Math_sin (S fuel) (a :: b :: c :: d :: e :: f :: rest) targetTime
  = Returns "000000000"%string.
Proof.
  intros H. unfold animate. cbv zeta. rewrite H. cbn [of_option bind].
  unfold Interpolate.interpolate, Interpolate.blend, slice.
  cbn [skipn firstn Nat.sub app List.length Nat.eqb negb bind seq map index nth].
  rewrite !interpolateNum_nan.
  unfold convertRotationToMatrix. change (nan * Math_PI / 180) with nan.
  rewrite Math_cos_nan, Math_sin_nan.
  change (matrix_pieces (S fuel) [nan; - nan; nan; nan])
    with (Some ["0."%string; "0."%string; "0."%string; "0."%string]).
  reflexivity.
Qed.

(** X15.  A row of six to nine entries has fewer than three curve controls:
    at every time strictly between 0 and 1 the search is blind, the value of
    the curve is NaN, and the animation key is the constant [000000000],
    whatever the entries are. *)
Theorem animate_short_row_constant_key (frames : list number) (targetTime : number)
    (extra : nat) :
  (6 <= List.length frames <= 9)%nat ->
  inside targetTime = true ->
  animate Math_cos Math_sin (1076 + extra) frames targetTime
  = Returns "000000000"%string.
Proof.
  intros Hn Hi.
  destruct frames as [| a [| b [| c [| d [| e [| f rest]]]]]];
    cbn [List.length] in Hn; try lia.
  change (1076 + extra)%nat with (S (1075 + extra)).
  apply animate_nan_value. change (S (1075 + extra)) with (1076 + extra)%nat.
  assert (B : index (curvesOf (a :: b :: c :: d :: e :: f :: rest)) 2 = nan
              /\ index (curvesOf (a :: b :: c :: d :: e :: f :: rest)) 3 = nan).
  { destruct rest as [| g [| h [| i [| j rest]]]]; cbn [List.length] in Hn; try lia;
      split; reflexivity. }
  destruct B as [B2 B3].
  rewrite getValue_blind; [| right; left; exact B2 | exact Hi].
  rewrite B3, calculate_nan_b. reflexivity.
Qed.

End AnimationKey.

Lemma getAnimationKey_index_beyond_key_witness :
  Transaction.getAnimationKey (fun x => x) (fun x => x) 0 [0; 0; 0; 0; 0; 5]
    (Dom.mkElement [] [Dom.mkElement [("id", "root")%string] []]) 9 [1; 2]%nat
  = Throws InvalidFrameData.
Proof.
  apply (getAnimationKey_index_beyond_key (fun x => x) (fun x => x) 0 [0; 0; 0; 0; 0; 5]
           (Dom.mkElement [] [Dom.mkElement [("id", "root")%string] []]) 9 [1; 2]%nat
           [[]]).
  - reflexivity.
  - cbn. lia.
Defined.

Lemma animate_key_format_witness :
  no_dot_no_dash "000000"%string = true
  /\ exists body : string, "000000"%string = (body ++ "00")%string.
Proof.
  apply (animate_key_format (fun x => (x * 0 + 1)%float) (fun x => x) 1 [] 0%float
           "000000"%string).
  reflexivity.
Defined.

Lemma animate_short_row_constant_key_witness :
  Transaction.animate (fun x => x) (fun x => x) 1076
    [10; 20; 30; 40; 50; 60; 128]%float 0.3%float
  = Returns "000000000"%string.
Proof.
  apply (animate_short_row_constant_key (fun x => x) (fun x => x) eq_refl eq_refl
           [10; 20; 30; 40; 50; 60; 128]%float 0.3%float 0%nat).
  - cbn. lia.
  - reflexivity.
Defined.

(** ** Scaling, blending and the hexadecimal text *)

Section Scaling.

Import Transaction.

Local Open Scope float_scope.

Lemma solve_ranges_checked :
  forallb (fun v =>
             (0 <=? x_control v) && (x_control v <=? 1)
             && (-1 <=? y_control v) && (y_control v <=? 1)
             && (60 <=? rotation_target v) && (rotation_target v <=? 360)
             && Leibniz.eqb (Math_floor (rotation_target v)) (rotation_target v)
             && (x_control v <=? x_control (v + 1)) && (y_control v <=? y_control (v + 1))
             && (rotation_target v <=? rotation_target (v + 1)))
          bytes
  = true.
Proof. vm_compute. reflexivity. Qed.

(** X16.  [solve] keeps an 8-bit value within the bounds it is given, for
    the three uses [animate] makes of it: the x-controls lie in [0, 1], the
    y-controls in [-1, 1] and the rotation is a whole number in [60, 360];
    the value 0 gives the lower bound, the value 255 the upper bound, and the
    next value never gives a smaller result. *)
Theorem solve_within_bounds (v : Z) :
  is_byte v ->
  ((0 <=? x_control v) && (x_control v <=? 1) = true
   /\ (-1 <=? y_control v) && (y_control v <=? 1) = true
   /\ (60 <=? rotation_target v) && (rotation_target v <=? 360) = true
   /\ Math_floor (rotation_target v) = rotation_target v)
  /\ ((x_control v <=? x_control (v + 1)) = true
      /\ (y_control v <=? y_control (v + 1)) = true
      /\ (rotation_target v <=? rotation_target (v + 1)) = true)
  /\ (x_control 0 = 0 /\ x_control 255 = 1
      /\ y_control 0 = -1 /\ y_control 255 = 1
      /\ rotation_target 0 = 60 /\ rotation_target 255 = 360).
Proof.
  intros Hv.
  pose proof (proj1 (forallb_forall _ _) solve_ranges_checked v (is_byte_in_bytes v Hv)) as E.
  cbv beta in E.
  apply andb_true_iff in E. destruct E as [E M3].
  apply andb_true_iff in E. destruct E as [E M2].
  apply andb_true_iff in E. destruct E as [E M1].
  apply andb_true_iff in E. destruct E as [E I].
  apply andb_true_iff in E. destruct E as [E R2].
  apply andb_true_iff in E. destruct E as [E R1].
  apply andb_true_iff in E. destruct E as [E Y2].
  apply andb_true_iff in E. destruct E as [E Y1].
  apply andb_true_iff in E. destruct E as [X1 X2].
  apply FloatAxioms.Leibniz.eqb_spec in I.
  split; [| split].
  - split; [rewrite X1, X2; reflexivity |].
    split; [rewrite Y1, Y2; reflexivity |].
    split; [rewrite R1, R2; reflexivity | exact I].
  - split; [exact M1 | split; [exact M2 | exact M3]].
  - split; [reflexivity |]. split; [reflexivity |]. split; [reflexivity |].
    split; [reflexivity |]. split; reflexivity.
Qed.

End Scaling.

Lemma solve_within_bounds_witness :
  ((0 <=? x_control 128) && (x_control 128 <=? 1))%float = true.
Proof.
  apply (solve_within_bounds 128). unfold is_byte. lia.
Defined.

Section BlendEndpoints.

Local Open Scope float_scope.

(** Adding a zero to a finite number gives a number equal to it. *)
Lemma add_zero_r_eqb (x z : float) (s : bool) :
  finite x = true -> Prim2SF z = S754_zero s -> (x + z =? x) = true.
Proof.
  intros Hx Hz. rewrite FloatAxioms.eqb_spec, add_spec, Hz.
  destruct (finite_cases x Hx) as [[sx E] | [sx [m [e E]]]]; rewrite E.
  - destruct sx, s; reflexivity.
  - cbn. unfold SFeqb, SFcompare. destruct sx; rewrite Pos.compare_refl;
      destruct (e ?= e)%Z eqn:Ee; try reflexivity;
        rewrite Z.compare_refl in Ee; discriminate.
Qed.

Lemma add_zero_l_eqb (x z : float) (s : bool) :
  finite x = true -> Prim2SF z = S754_zero s -> (z + x =? x) = true.
Proof.
  intros Hx Hz. rewrite FloatAxioms.eqb_spec, add_spec, Hz.
  destruct (finite_cases x Hx) as [[sx E] | [sx [m [e E]]]]; rewrite E.
  - destruct sx, s; reflexivity.
  - cbn. unfold SFeqb, SFcompare. destruct sx; rewrite Pos.compare_refl;
      destruct (e ?= e)%Z eqn:Ee; try reflexivity;
        rewrite Z.compare_refl in Ee; discriminate.
Qed.

Lemma interpolateNum_0 (x y : number) :
  finite x = true -> finite y = true -> (Interpolate.interpolateNum x y 0 =? x) = true.
Proof.
  intros Hx Hy. unfold Interpolate.interpolateNum. change (1 - 0) with 1.
  rewrite mul_one_r. destruct (mul_zero_finite y Hy) as [s E].
  exact (add_zero_r_eqb x (y * 0) s Hx E).
Qed.

Lemma interpolateNum_1 (x y : number) :
  finite x = true -> finite y = true -> (Interpolate.interpolateNum x y 1 =? y) = true.
Proof.
  intros Hx Hy. unfold Interpolate.interpolateNum. change (1 - 1) with 0.
  rewrite mul_one_r. destruct (mul_zero_finite x Hx) as [s E].
  exact (add_zero_l_eqb y (x * 0) s Hy E).
Qed.

Lemma blend_endpoints (fromList toList : list number) :
  List.length fromList = List.length toList ->
  forallb finite fromList = true -> forallb finite toList = true ->
  all_eqb (Interpolate.blend fromList toList 0) fromList = true
  /\ all_eqb (Interpolate.blend fromList toList 1) toList = true.
Proof.
  assert (G : forall (f : number) (pick : number -> number -> number),
             (forall x y, finite x = true -> finite y = true ->
                          (Interpolate.interpolateNum x y f =? pick x y) = true) ->
             forall fromList toList,
               List.length fromList = List.length toList ->
               forallb finite fromList = true -> forallb finite toList = true ->
               all_eqb (Interpolate.blend fromList toList f)
                       (map (fun p => pick (fst p) (snd p)) (combine fromList toList))
               = true).
  { intros f pick Hp. unfold Interpolate.blend.
    assert (S : forall n fromList toList,
               List.length fromList = List.length toList ->
               forallb finite fromList = true -> forallb finite toList = true ->
               forall pre post : list number,
                 List.length pre = n -> List.length post = n ->
                 all_eqb (map (fun i => Interpolate.interpolateNum
                                          (index (pre ++ fromList) i)
                                          (index (post ++ toList) i) f)
                              (seq n (List.length fromList)))
                         (map (fun p => pick (fst p) (snd p)) (combine fromList toList))
                 = true).
    { intros n l1. revert n. induction l1 as [| x l1 IH]; intros n l2 Hl F1 F2 pre post Hpre Hpost.
      - reflexivity.
      - destruct l2 as [| y l2]; [discriminate |].
        cbn in F1, F2. apply andb_true_iff in F1. destruct F1 as [Fx F1].
        apply andb_true_iff in F2. destruct F2 as [Fy F2].
        cbn [List.length seq map combine all_eqb fst snd].
        apply andb_true_iff. split.
        + unfold index. rewrite !app_nth2 by lia.
          rewrite Hpre, Hpost, Nat.sub_diag. cbn [nth]. apply Hp; assumption.
        + specialize (IH (S n) l2 ltac:(cbn in Hl; lia) F1 F2 (pre ++ [x]) (post ++ [y])).
          rewrite <- !app_assoc in IH. cbn [app] in IH. apply IH.
          * rewrite length_app. cbn. lia.
          * rewrite length_app. cbn. lia. }
    intros l1 l2 Hl F1 F2. exact (S 0%nat l1 l2 Hl F1 F2 [] [] eq_refl eq_refl). }
  intros Hl F1 F2. split.
  - pose proof (G 0 (fun x _ => x) interpolateNum_0 fromList toList Hl F1 F2) as E.
    cbv beta in E.
    replace (map (fun p => fst p) (combine fromList toList)) with fromList in E; [exact E |].
    clear E F1 F2. revert toList Hl.
    induction fromList as [| x l IH]; intros [| y l2] Hl; try discriminate; [reflexivity |].
    cbn. f_equal. apply IH. cbn in Hl. lia.
  - pose proof (G 1 (fun _ y => y) interpolateNum_1 fromList toList Hl F1 F2) as E.
    cbv beta in E.
    replace (map (fun p => snd p) (combine fromList toList)) with toList in E; [exact E |].
    clear E F1 F2. revert toList Hl.
    induction fromList as [| x l IH]; intros [| y l2] Hl; try discriminate; [reflexivity |].
    cbn. f_equal. apply IH. cbn in Hl. lia.
Qed.

(** X17.  The blend reaches both ends: for two sequences of finite numbers
    of the same length, [interpolate(from, to, 0)] is [from] and
    [interpolate(from, to, 1)] is [to], element by element under [==]. *)
Theorem interpolate_endpoints (fromList toList : list number) :
  List.length fromList = List.length toList ->
  forallb finite fromList = true -> forallb finite toList = true ->
  exists atStart atEnd : list number,
    Interpolate.interpolate fromList toList 0 = Returns atStart
    /\ Interpolate.interpolate fromList toList 1 = Returns atEnd
    /\ all_eqb atStart fromList = true
    /\ all_eqb atEnd toList = true.
Proof.
  intros Hl F1 F2. destruct (blend_endpoints fromList toList Hl F1 F2) as [E0 E1].
  exists (Interpolate.blend fromList toList 0), (Interpolate.blend fromList toList 1).
  unfold Interpolate.interpolate. rewrite Hl, Nat.eqb_refl.
  split; [reflexivity |]. split; [reflexivity |]. split; assumption.
Qed.

End BlendEndpoints.

Lemma interpolate_endpoints_witness :
  exists atStart atEnd : list number,
    Interpolate.interpolate [0.1; 255]%float [0.7; 3]%float 0%float = Returns atStart
    /\ Interpolate.interpolate [0.1; 255]%float [0.7; 3]%float 1%float = Returns atEnd
    /\ all_eqb atStart [0.1; 255]%float = true
    /\ all_eqb atEnd [0.7; 3]%float = true.
Proof.
  apply (interpolate_endpoints [0.1; 255]%float [0.7; 3]%float); reflexivity.
Defined.

Section HexText.

Import Transaction.

Local Open Scope float_scope.

Lemma integer_digits_more_fuel (fuel extra : nat) (x quotient : number)
    (result out : list string) :
  Utils.integer_digits fuel x quotient result = Some out ->
  Utils.integer_digits (fuel + extra) x quotient result = Some out.
Proof.
  revert x quotient result. induction fuel as [| fuel IH]; intros x q r H; [discriminate |].
  cbn [Utils.integer_digits Nat.add] in *.
  destruct (0 <? q); [apply IH; exact H | exact H].
Qed.

Lemma fraction_digits_more_fuel (fuel extra : nat) (fraction : number) (out : list string) :
  Utils.fraction_digits fuel fraction = Some out ->
  Utils.fraction_digits (fuel + extra) fraction = Some out.
Proof.
  revert fraction out. induction fuel as [| fuel IH]; intros fr out H; [discriminate |].
  cbn [Utils.fraction_digits Nat.add] in *.
  destruct (0 <? fr); [| exact H].
  cbv zeta in *.
  destruct (Utils.fraction_digits fuel _) as [ds |] eqn:E; [| discriminate].
  rewrite (IH _ _ E). exact H.
Qed.

Lemma floatToHex_more_fuel (fuel extra : nat) (x : number) (s : string) :
  Utils.floatToHex fuel x = Some s -> Utils.floatToHex (fuel + extra) x = Some s.
Proof.
  unfold Utils.floatToHex. cbv zeta. intros H.
  destruct (Utils.integer_digits fuel x (Math_floor x) []) as [r |] eqn:E1; [| discriminate].
  rewrite (integer_digits_more_fuel _ extra _ _ _ _ E1).
  destruct (x - Math_floor x =? 0); [exact H |].
  destruct (Utils.fraction_digits fuel (x - Math_floor x)) as [ds |] eqn:E2; [| discriminate].
  rewrite (fraction_digits_more_fuel _ extra _ _ E2). exact H.
Qed.

Lemma matrix_piece_more_fuel (fuel extra : nat) (value : number) (p : string) :
  matrix_piece fuel value = Some p -> matrix_piece (fuel + extra) value = Some p.
Proof.
  unfold matrix_piece. cbv zeta. intros H.
  destruct (Utils.floatToHex fuel _) as [s |] eqn:E; [| discriminate].
  rewrite (floatToHex_more_fuel _ extra _ _ E). exact H.
Qed.

Lemma hundredths_checked : forallb (hundredth_checked 16) hundreds = true.
Proof. vm_compute. reflexivity. Qed.

Lemma bytes_hex_checked : forallb (byte_checked 16) bytes = true.
Proof. vm_compute. reflexivity. Qed.

(** X18.  On the magnitudes [animate] gives it, the hundredths from 0 to 1,
    [floatToHex] returns within 16 iterations of its loops, and the text
    denotes the number exactly in base 16: it is empty for 0, [1] for 1 and
    starts with the point otherwise.  [animate] pushes the same piece for a
    matrix entry and for its opposite. *)
Theorem floatToHex_hundredths (k : Z) (extra : nat) :
  (0 <= k <= 100)%Z ->
  exists hexValue : string,
    Utils.floatToHex (16 + extra) (hundredth k) = Some hexValue
    /\ denotes hexValue (hundredth k) = true
    /\ (if (k =? 0)%Z then hexValue = ""%string
        else if (k =? 100)%Z then hexValue = "1"%string
        else Str.startsWith_dot hexValue = true)
    /\ matrix_piece (16 + extra) (hundredth k) = Some (shown hexValue)
    /\ matrix_piece (16 + extra) (- hundredth k) = Some (shown hexValue).
Proof.
  intros Hk.
  assert (Hin : In k hundreds).
  { unfold hundreds. apply in_map_iff. exists (Z.to_nat k). split; [lia |].
    apply in_seq. lia. }
  pose proof (proj1 (forallb_forall _ _) hundredths_checked k Hin) as E.
  unfold hundredth_checked in E.
  destruct (Utils.floatToHex 16 (hundredth k)) as [s |] eqn:Es; [| discriminate].
  apply andb_true_iff in E. destruct E as [E Ep].
  apply andb_true_iff in E. destruct E as [Ed Ek].
  destruct (matrix_piece 16 (hundredth k)) as [p |] eqn:E1; [| discriminate].
  destruct (matrix_piece 16 (- hundredth k)) as [q |] eqn:E2; [| discriminate].
  apply andb_true_iff in Ep. destruct Ep as [Hp Hq].
  apply String.eqb_eq in Hp. apply String.eqb_eq in Hq. subst p q.
  exists s. split; [apply floatToHex_more_fuel; exact Es |].
  split; [exact Ed |]. split.
  - destruct (k =? 0)%Z; [apply String.eqb_eq; exact Ek |].
    destruct (k =? 100)%Z; [apply String.eqb_eq; exact Ek | exact Ek].
  - split; apply matrix_piece_more_fuel; assumption.
Qed.

(** X19.  On an 8-bit integer, [floatToHex] returns within 16 iterations
    the hexadecimal numeral of the integer, without a point. *)
Theorem floatToHex_bytes (v : Z) (extra : nat) :
  is_byte v ->
  exists hexValue : string,
    Utils.floatToHex (16 + extra) (num_of_Z v) = Some hexValue
    /\ denotes hexValue (num_of_Z v) = true
    /\ existsb (Ascii.eqb ".") (chars hexValue) = false.
Proof.
  intros Hv.
  pose proof (proj1 (forallb_forall _ _) bytes_hex_checked v (is_byte_in_bytes v Hv)) as E.
  unfold byte_checked in E.
  destruct (Utils.floatToHex 16 (num_of_Z v)) as [s |] eqn:Es; [| discriminate].
  apply andb_true_iff in E. destruct E as [Ed Ep]. apply negb_true_iff in Ep.
  exists s. split; [apply floatToHex_more_fuel; exact Es |]. split; assumption.
Qed.

End HexText.

Lemma floatToHex_hundredths_witness :
  exists hexValue : string,
    Utils.floatToHex 16 (hundredth 50) = Some hexValue
    /\ denotes hexValue (hundredth 50) = true
    /\ Str.startsWith_dot hexValue = true
    /\ Transaction.matrix_piece 16 (hundredth 50) = Some (shown hexValue)
    /\ Transaction.matrix_piece 16 (- hundredth 50)%float = Some (shown hexValue).
Proof.
  apply (floatToHex_hundredths 50 0). lia.
Defined.

Lemma floatToHex_bytes_witness :
  exists hexValue : string,
    Utils.floatToHex 16 (num_of_Z 255) = Some hexValue
    /\ denotes hexValue (num_of_Z 255) = true
    /\ existsb (Ascii.eqb ".") (chars hexValue) = false.
Proof.
  apply (floatToHex_bytes 255 0). unfold is_byte. lia.
Defined.
